(** * unbound_exporter: the statistics translation layer

    A shallow embedding of [unbound_exporter.go]: the metric catalog
    ([unboundMetrics]), the scrape loop ([CollectFromReader]) with its
    histogram accumulator, and the collector entry point ([Collect]),
    followed by the properties of the translation layer.

    Go library functions the code calls are modelled next to their callers:
    - [strings.Split] on a one-byte separator;
    - [regexp.MustCompile] / [FindStringSubmatch] for the anchored patterns
      of the catalog (literals, character classes, [+], capture groups),
      with leftmost-first (backtracking, greedy) submatch semantics;
    - [strconv.ParseUint] in base 10 on 64 bits, [strconv.ParseFloat] on
      64 bits (IEEE 754 binary64, round to nearest even);
    - [float64] arithmetic through the standard library's [SpecFloat]
      at precision 53 and maximal exponent 1024;
    - [map[float64]uint64] as an association list compared with IEEE
      equality, [sort.Float64s] as an insertion sort on Go's ordering;
    - the metrics channel as the list of metrics sent so far. *)

From Stdlib Require Import ZArith Lia Bool List Ascii String.
From Stdlib Require Import Permutation Sorted.
From Stdlib Require Import Floats.SpecFloat.
Import ListNotations.

Local Open Scope string_scope.
Local Open Scope Z_scope.
Local Open Scope list_scope.


(* ===================================================================== *)
(** ** Bytes and strings *)
(* ===================================================================== *)

Definition byte_in (lo hi c : ascii) : bool :=
  (N_of_ascii lo <=? N_of_ascii c)%N && (N_of_ascii c <=? N_of_ascii hi)%N.

Definition is_digit (c : ascii) : bool := byte_in "0" "9" c.

Definition digit_val (c : ascii) : Z := Z.of_N (N_of_ascii c) - 48.

(** Go's [lower(c) = c | ('x' - 'X')] of package strconv. *)
Definition lower (c : ascii) : ascii :=
  let '(Ascii b0 b1 b2 b3 b4 _ b6 b7) := c in Ascii b0 b1 b2 b3 b4 true b6 b7.

Definition str_len (s : string) : Z := Z.of_nat (String.length s).

Fixpoint all_bytes (p : ascii -> bool) (s : string) : bool :=
  match s with
  | EmptyString => true
  | String c s' => p c && all_bytes p s'
  end.

(** [strings.Split(s, sep)] for a separator of one byte: the fields between
    consecutive separators, one more than there are separators. *)
Fixpoint Split (s : string) (sep : ascii) : list string :=
  match s with
  | EmptyString => [EmptyString]
  | String c s' =>
      if Ascii.eqb c sep then EmptyString :: Split s' sep
      else match Split s' sep with
           | f :: fs => String c f :: fs
           | [] => [String c EmptyString]
           end
  end.

(* ===================================================================== *)
(** ** Package regexp, for the patterns of the catalog *)
(* ===================================================================== *)

Module regexp.

(** One byte of input: a literal or a character class given by ranges. *)
Inductive atom :=
| Lit (c : ascii)
| Class (ranges : list (ascii * ascii)).

(** An atom, or an atom under [+]. *)
Inductive item :=
| One (a : atom)
| Many (a : atom).

(** A top-level item or a capture group [( ... )]. *)
Inductive piece :=
| Plain (i : item)
| Group (body : list item).

(** A compiled pattern [^ pieces $]. *)
Record Regexp := { pieces : list piece }.

Definition perl_d : list (ascii * ascii) := [("0", "9")]%char.
Definition perl_w : list (ascii * ascii) :=
  [("0", "9"); ("A", "Z"); ("_", "_"); ("a", "z")]%char.

Definition is_meta (c : ascii) : bool :=
  existsb (Ascii.eqb c)
    ["\"; "."; "+"; "*"; "?"; "("; ")"; "|"; "["; "]"; "{"; "}"; "^"; "$"]%char.

Definition is_punct (c : ascii) : bool :=
  byte_in "!" "/" c || byte_in ":" "@" c || byte_in "[" "`" c || byte_in "{" "~" c.

(** The inside of a bracket expression, after the opening bracket. *)
Fixpoint parse_class (s : string) (acc : list (ascii * ascii))
  : option (list (ascii * ascii) * string) :=
  match s with
  | EmptyString => None
  | String c rest =>
      if Ascii.eqb c "]" then
        match acc with [] => None | _ => Some (acc, rest) end
      else if Ascii.eqb c "\" then
        match rest with
        | String e rest' =>
            if Ascii.eqb e "d" then parse_class rest' (acc ++ perl_d)
            else if Ascii.eqb e "w" then parse_class rest' (acc ++ perl_w)
            else if is_punct e then parse_class rest' (acc ++ [(e, e)])
            else None
        | EmptyString => None
        end
      else
        match rest with
        | String d (String hi rest') =>
            if Ascii.eqb d "-" && negb (Ascii.eqb hi "]") then
              if Ascii.eqb hi "\" then None
              else if (N_of_ascii c <=? N_of_ascii hi)%N
                   then parse_class rest' (acc ++ [(c, hi)])
                   else None
            else parse_class rest (acc ++ [(c, c)])
        | _ => parse_class rest (acc ++ [(c, c)])
        end
  end.

Definition parse_atom (s : string) : option (atom * string) :=
  match s with
  | EmptyString => None
  | String c rest =>
      if Ascii.eqb c "\" then
        match rest with
        | String e rest' =>
            if Ascii.eqb e "d" then Some (Class perl_d, rest')
            else if Ascii.eqb e "w" then Some (Class perl_w, rest')
            else if is_punct e then Some (Lit e, rest')
            else None
        | EmptyString => None
        end
      else if Ascii.eqb c "[" then
        match parse_class rest [] with
        | Some (rs, rest') => Some (Class rs, rest')
        | None => None
        end
      else if is_meta c then None
      else Some (Lit c, rest)
  end.

Definition is_quantifier (c : ascii) : bool :=
  existsb (Ascii.eqb c) ["+"; "*"; "?"; "{"]%char.

Definition parse_item (s : string) : option (item * string) :=
  match parse_atom s with
  | None => None
  | Some (a, rest) =>
      match rest with
      | String q rest' =>
          if Ascii.eqb q "+" then
            match rest' with
            | String q' _ => if is_quantifier q' then None else Some (Many a, rest')
            | EmptyString => Some (Many a, rest')
            end
          else if is_quantifier q then None
          else Some (One a, rest)
      | EmptyString => Some (One a, rest)
      end
  end.

(** Items up to the next parenthesis or the closing [$]. *)
Fixpoint parse_items (fuel : nat) (s : string) : option (list item * string) :=
  match fuel with
  | O => None
  | S fuel' =>
      match s with
      | EmptyString => Some ([], s)
      | String c _ =>
          if Ascii.eqb c "(" || Ascii.eqb c ")" || Ascii.eqb c "$" then Some ([], s)
          else match parse_item s with
               | None => None
               | Some (i, rest) =>
                   match parse_items fuel' rest with
                   | None => None
                   | Some (tl_items, rest2) => Some (i :: tl_items, rest2)
                   end
               end
      end
  end.

Fixpoint parse_pieces (fuel : nat) (s : string) : option (list piece) :=
  match fuel with
  | O => None
  | S fuel' =>
      match s with
      | EmptyString => None
      | String c rest =>
          if Ascii.eqb c "$" then
            match rest with EmptyString => Some [] | _ => None end
          else if Ascii.eqb c "(" then
            match parse_items fuel' rest with
            | Some (body, String close rest') =>
                if Ascii.eqb close ")" then
                  match rest' with
                  | String q _ =>
                      if is_quantifier q then None
                      else option_map (cons (Group body)) (parse_pieces fuel' rest')
                  | EmptyString => None
                  end
                else None
            | _ => None
            end
          else
            match parse_item s with
            | None => None
            | Some (i, rest') => option_map (cons (Plain i)) (parse_pieces fuel' rest')
            end
      end
  end.

(** [regexp.Compile], on the syntax the exporter uses: a pattern anchored
    by [^] and [$], made of literal bytes, escaped punctuation, the classes
    [\d], [\w] and bracket expressions, [+] on a single atom and capture
    groups that are not nested.  [None] stands for every other pattern. *)
Definition Compile (expr : string) : option Regexp :=
  match expr with
  | String c rest =>
      if Ascii.eqb c "^" then
        option_map Build_Regexp (parse_pieces (S (String.length rest)) rest)
      else None
  | EmptyString => None
  end.

Definition atom_matches (a : atom) (c : ascii) : bool :=
  match a with
  | Lit c' => Ascii.eqb c' c
  | Class rs => existsb (fun r => byte_in (fst r) (snd r) c) rs
  end.

(** Every way [a+] can match a prefix of [s], the longest first. *)
Fixpoint many (a : atom) (s : string) : list (string * string) :=
  match s with
  | EmptyString => []
  | String c s' =>
      if atom_matches a c then
        map (fun mr => (String c (fst mr), snd mr)) (many a s')
          ++ [(String c EmptyString, s')]
      else []
  end.

Definition match_item (i : item) (s : string) : list (string * string) :=
  match i with
  | One a =>
      match s with
      | String c s' => if atom_matches a c then [(String c EmptyString, s')] else []
      | EmptyString => []
      end
  | Many a => many a s
  end.

(** Every way a sequence of items can match a prefix of [s], in the order
    a backtracking matcher tries them: (matched text, rest). *)
Fixpoint match_items (its : list item) (s : string) : list (string * string) :=
  match its with
  | [] => [(EmptyString, s)]
  | i :: its' =>
      flat_map (fun mr =>
                  map (fun mr' => (fst mr ++ fst mr', snd mr'))%string
                      (match_items its' (snd mr)))
               (match_item i s)
  end.

(** Same for pieces: (texts of the capture groups, rest). *)
Fixpoint match_pieces (ps : list piece) (s : string) : list (list string * string) :=
  match ps with
  | [] => [([], s)]
  | Plain i :: ps' =>
      flat_map (fun mr => match_pieces ps' (snd mr)) (match_item i s)
  | Group body :: ps' =>
      flat_map (fun mr =>
                  map (fun cr => (fst mr :: fst cr, snd cr))
                      (match_pieces ps' (snd mr)))
               (match_items body s)
  end.

Definition at_end (cr : list string * string) : bool :=
  match snd cr with EmptyString => true | _ => false end.

(** [re.FindStringSubmatch(s)]: [None] is Go's [nil]; otherwise the whole
    match followed by the texts of the capture groups. *)
Definition FindStringSubmatch (re : Regexp) (s : string) : option (list string) :=
  match find at_end (match_pieces (pieces re) s) with
  | Some (caps, _) => Some (s :: caps)
  | None => None
  end.

Definition NumSubexp (re : Regexp) : nat :=
  List.length (filter (fun p => match p with Group _ => true | Plain _ => false end)
                      (pieces re)).

End regexp.

(* ===================================================================== *)
(** ** float64 and uint64 *)
(* ===================================================================== *)

(** Go's [float64]: IEEE 754 binary64 values, operations rounded to nearest
    even.  Each operation is rounded on its own (a compiler may fuse
    [x*y + z] on some machines, see [two_bucket_sum_exact]). *)
Definition float64 : Type := spec_float.

Definition prec : Z := 53.
Definition emax : Z := 1024.

Definition fadd : float64 -> float64 -> float64 := SFadd prec emax.
Definition fsub : float64 -> float64 -> float64 := SFsub prec emax.
Definition fmul : float64 -> float64 -> float64 := SFmul prec emax.

(** Go's [==] and [<] on [float64]. *)
Definition feq : float64 -> float64 -> bool := SFeqb.
Definition flt : float64 -> float64 -> bool := SFltb.

Definition isNaN (x : float64) : bool :=
  match x with S754_nan => true | _ => false end.

Definition isInf (x : float64) : bool :=
  match x with S754_infinity _ => true | _ => false end.

Definition fzero : float64 := S754_zero false.
Definition fone : float64 := S754_finite false 4503599627370496 (-52).

(** The float64 nearest to [num / den], with the sign [neg]. *)
Definition round_ratio (neg : bool) (num den : positive) : float64 :=
  SFdiv prec emax (S754_finite neg num 0) (S754_finite false den 0).

Definition two64 : Z := 18446744073709551616.

(** Arithmetic of [uint64] wraps around. *)
Definition add64 (a b : Z) : Z := (a + b) mod two64.

(** The conversion [float64(v)] of a [uint64]. *)
Definition float64_of_uint64 (v : Z) : float64 := binary_normalize prec emax v 0 false.

(* ===================================================================== *)
(** ** Package strconv *)
(* ===================================================================== *)

Module strconv.

Inductive numErr := ErrSyntax | ErrRange.

(** [*strconv.NumError]: the failing function, the input text, the reason. *)
Record NumError := { Func : string; Num : string; Err : numErr }.

Definition syntaxError (fn str : string) : NumError :=
  {| Func := fn; Num := str; Err := ErrSyntax |}.
Definition rangeError (fn str : string) : NumError :=
  {| Func := fn; Num := str; Err := ErrRange |}.

Definition maxUint64 : Z := two64 - 1.
Definition cutoff : Z := maxUint64 / 10 + 1.

(** The digit loop of [ParseUint] in base 10: a byte that is not a decimal
    digit is a syntax error, an overflow a range error with the maximal
    value, each found at the byte where it happens. *)
Fixpoint parseUint_loop (s : string) (n : Z) : Z * option numErr :=
  match s with
  | EmptyString => (n, None)
  | String c s' =>
      if is_digit c then
        if cutoff <=? n then (maxUint64, Some ErrRange)
        else
          let n10 := n * 10 in
          let n1 := add64 n10 (digit_val c) in
          if (n1 <? n10) || (maxUint64 <? n1) then (maxUint64, Some ErrRange)
          else parseUint_loop s' n1
      else (0, Some ErrSyntax)
  end.

(** [strconv.ParseUint(s, 10, 64)]. *)
Definition ParseUint (s : string) : Z * option NumError :=
  match s with
  | EmptyString => (0, Some (syntaxError "ParseUint" s))
  | _ =>
      match parseUint_loop s 0 with
      | (n, None) => (n, None)
      | (n, Some e) => (n, Some {| Func := "ParseUint"; Num := s; Err := e |})
      end
  end.

Fixpoint commonPrefixLenIgnoreCase (s prefix : string) : nat :=
  match s, prefix with
  | String c s', String p prefix' =>
      let c := if byte_in "A" "Z" c then ascii_of_N (N_of_ascii c + 32) else c in
      if Ascii.eqb c p then S (commonPrefixLenIgnoreCase s' prefix') else O
  | _, _ => O
  end.

Definition special_inf (neg : bool) (nsign : nat) (s : string) : option (float64 * nat) :=
  let n := commonPrefixLenIgnoreCase s "infinity" in
  let n := if (3 <? n)%nat && (n <? 8)%nat then 3%nat else n in
  if (n =? 3)%nat || (n =? 8)%nat then Some (S754_infinity neg, (nsign + n)%nat) else None.

(** [special]: the infinities and NaN, with the number of bytes read. *)
Definition special (s : string) : option (float64 * nat) :=
  match s with
  | EmptyString => None
  | String c s' =>
      if Ascii.eqb c "+" then special_inf false 1 s'
      else if Ascii.eqb c "-" then special_inf true 1 s'
      else if Ascii.eqb c "i" || Ascii.eqb c "I" then special_inf false 0 s
      else if Ascii.eqb c "n" || Ascii.eqb c "N" then
        if (commonPrefixLenIgnoreCase s "nan" =? 3)%nat then Some (S754_nan, 3%nat) else None
      else None
  end.

(** The state of the mantissa loop of [readFloat].  The mantissa is kept
    in full: Go keeps its first 19 digits with a truncation flag and falls
    back on exact decimal arithmetic, for the same correctly rounded
    result. *)
Record mant := {
  sawdot : bool; sawdigits : bool; nd : Z; dp : Z; mantissa : Z; underscores : bool }.

Definition hex_val (c : ascii) : Z := Z.of_N (N_of_ascii (lower c)) - 97 + 10.

Fixpoint read_mantissa (hex : bool) (s : string) (st : mant) : mant * string :=
  match s with
  | EmptyString => (st, s)
  | String c s' =>
      if Ascii.eqb c "_" then
        read_mantissa hex s'
          {| sawdot := sawdot st; sawdigits := sawdigits st; nd := nd st; dp := dp st;
             mantissa := mantissa st; underscores := true |}
      else if Ascii.eqb c "." then
        if sawdot st then (st, s)
        else read_mantissa hex s'
               {| sawdot := true; sawdigits := sawdigits st; nd := nd st; dp := nd st;
                  mantissa := mantissa st; underscores := underscores st |}
      else if is_digit c then
        if Ascii.eqb c "0" && (nd st =? 0) then
          read_mantissa hex s'
            {| sawdot := sawdot st; sawdigits := true; nd := nd st; dp := dp st - 1;
               mantissa := mantissa st; underscores := underscores st |}
        else
          read_mantissa hex s'
            {| sawdot := sawdot st; sawdigits := true; nd := nd st + 1; dp := dp st;
               mantissa := mantissa st * (if hex then 16 else 10) + digit_val c;
               underscores := underscores st |}
      else if hex && byte_in "a" "f" (lower c) then
        read_mantissa hex s'
          {| sawdot := sawdot st; sawdigits := true; nd := nd st + 1; dp := dp st;
             mantissa := mantissa st * 16 + hex_val c; underscores := underscores st |}
      else (st, s)
  end.

(** The digits of the exponent; the value stops growing at 10000. *)
Fixpoint read_exp (s : string) (e : Z) (us : bool) : Z * bool * string :=
  match s with
  | EmptyString => (e, us, s)
  | String c s' =>
      if Ascii.eqb c "_" then read_exp s' e true
      else if is_digit c then
        read_exp s' (if e <? 10000 then e * 10 + digit_val c else e) us
      else (e, us, s)
  end.

Fixpoint underscoreOK_loop (hex : bool) (s : string) (saw : ascii) : bool :=
  match s with
  | EmptyString => negb (Ascii.eqb saw "_")
  | String c s' =>
      if is_digit c || (hex && byte_in "a" "f" (lower c)) then underscoreOK_loop hex s' "0"
      else if Ascii.eqb c "_" then
        if Ascii.eqb saw "0" then underscoreOK_loop hex s' "_" else false
      else if Ascii.eqb saw "_" then false
      else underscoreOK_loop hex s' "!"
  end.

Definition skip_sign (s : string) : string :=
  match s with
  | String c s' => if Ascii.eqb c "+" || Ascii.eqb c "-" then s' else s
  | EmptyString => s
  end.

Definition underscoreOK (s : string) : bool :=
  let s := skip_sign s in
  match s with
  | String z (String b rest) =>
      if Ascii.eqb z "0" &&
         (Ascii.eqb (lower b) "b" || Ascii.eqb (lower b) "o" || Ascii.eqb (lower b) "x")
      then underscoreOK_loop (Ascii.eqb (lower b) "x") rest "0"
      else underscoreOK_loop false s "^"
  | _ => underscoreOK_loop false s "^"
  end.

(** The prefix [0x] of a hexadecimal mantissa, when a byte follows it. *)
Definition base_prefix (s : string) : bool * string :=
  match s with
  | String z (String x (String y rest)) =>
      if Ascii.eqb z "0" && Ascii.eqb (lower x) "x" then (true, String y rest)
      else (false, s)
  | _ => (false, s)
  end.

(** What [readFloat] returns when it succeeds: sign, base, mantissa,
    exponent (of 10, or of 2 for a hexadecimal mantissa), unread rest. *)
Record floatParts := {
  neg : bool; hex : bool; mant_val : Z; exp_val : Z; unread : string }.

Definition consumed (s rest : string) : string :=
  substring 0 (String.length s - String.length rest) s.

Definition readFloat (s : string) : option floatParts :=
  match s with
  | EmptyString => None
  | String c0 _ =>
      let isneg := Ascii.eqb c0 "-" in
      let s1 := skip_sign s in
      let '(ishex, s2) := base_prefix s1 in
      let '(st, s3) :=
        read_mantissa ishex s2
          {| sawdot := false; sawdigits := false; nd := 0; dp := 0; mantissa := 0;
             underscores := false |} in
      if negb (sawdigits st) then None
      else
        let dp0 := if sawdot st then dp st else nd st in
        let dp1 := if ishex then dp0 * 4 else dp0 in
        let ndMant := if ishex then nd st * 4 else nd st in
        let finish (dp2 : Z) (us : bool) (rest : string) :=
          if us && negb (underscoreOK (consumed s rest)) then None
          else Some {| neg := isneg; hex := ishex; mant_val := mantissa st;
                       exp_val := if mantissa st =? 0 then 0 else dp2 - ndMant;
                       unread := rest |} in
        match s3 with
        | String c s4 =>
            if Ascii.eqb (lower c) (if ishex then "p" else "e")%char then
              match s4 with
              | EmptyString => None
              | String g s5 =>
                  let esign := if Ascii.eqb g "-" then (-1) else 1 in
                  let s6 := if Ascii.eqb g "+" || Ascii.eqb g "-" then s5 else s4 in
                  match s6 with
                  | EmptyString => None
                  | String d _ =>
                      if is_digit d then
                        let '(e, us, rest) := read_exp s6 0 (underscores st) in
                        finish (dp1 + e * esign) us rest
                      else None
                  end
              end
            else if ishex then None
            else finish dp1 (underscores st) s3
        | EmptyString => if ishex then None else finish dp1 (underscores st) s3
        end
  end.

(** The value of the parts: the binary64 nearest to
    [mantissa * 10 ^ exp], or to [mantissa * 2 ^ exp]. *)
Definition float_of_parts (p : floatParts) : float64 :=
  match mant_val p with
  | Zpos m =>
      if hex p then binary_normalize prec emax (if neg p then Zneg m else Zpos m)
                                     (exp_val p) (neg p)
      else if 0 <=? exp_val p
           then round_ratio (neg p) (m * Z.to_pos (10 ^ exp_val p)) 1
           else round_ratio (neg p) m (Z.to_pos (10 ^ (- exp_val p)))
  | _ => S754_zero (neg p)
  end.

(** [strconv.ParseFloat(s, 64)]: the value and the error, as Go returns
    them.  A text that is no number, or has bytes after the number, is a
    syntax error with value 0; a number beyond the range of [float64] is a
    range error with an infinite value. *)
Definition ParseFloat (s : string) : float64 * option NumError :=
  match special s with
  | Some (f, n) =>
      if (n =? String.length s)%nat then (f, None)
      else (fzero, Some (syntaxError "ParseFloat" s))
  | None =>
      match readFloat s with
      | None => (fzero, Some (syntaxError "ParseFloat" s))
      | Some p =>
          match unread p with
          | EmptyString =>
              let f := float_of_parts p in
              if isInf f then (f, Some (rangeError "ParseFloat" s)) else (f, None)
          | _ => (fzero, Some (syntaxError "ParseFloat" s))
          end
      end
  end.

End strconv.

(* ===================================================================== *)
(** ** Package prometheus: descriptors and constant metrics *)
(* ===================================================================== *)

Module prometheus.

Inductive ValueType := CounterValue | GaugeValue.

Record Desc := { fqName : string; help : string; variableLabels : list string }.

Definition BuildFQName (namespace subsystem name : string) : string :=
  match name with
  | EmptyString => EmptyString
  | _ =>
      match namespace, subsystem with
      | String _ _, String _ _ => (namespace ++ "_" ++ subsystem ++ "_" ++ name)%string
      | String _ _, EmptyString => (namespace ++ "_" ++ name)%string
      | EmptyString, String _ _ => (subsystem ++ "_" ++ name)%string
      | EmptyString, EmptyString => name
      end
  end.

Definition NewDesc (fqName help : string) (variableLabels : list string) : Desc :=
  {| fqName := fqName; help := help; variableLabels := variableLabels |}.

(** What travels on the metrics channel.  The buckets of a histogram map
    an upper bound to a cumulative count. *)
Inductive Metric :=
| ConstMetric (desc : Desc) (valueType : ValueType) (value : float64)
              (labelValues : list string)
| ConstHistogram (desc : Desc) (count : Z) (sum : float64)
                 (buckets : list (float64 * Z)).

(** [MustNewConstMetric] panics when the label values are not as many as
    the variable labels of the descriptor; [catalog_label_arity] below
    shows that the catalog never gets there. *)
Definition MustNewConstMetric := ConstMetric.
Definition MustNewConstHistogram := ConstHistogram.

End prometheus.

Import prometheus.

(* ===================================================================== *)
(** ** The exporter *)
(* ===================================================================== *)

Inductive error :=
| Errorf (format : string) (operand : string)
    (** [fmt.Errorf(format, operand)], one [%q] operand *)
| NumError (e : strconv.NumError)
    (** the errors of package strconv *)
| IOError (text : string).
    (** the errors of the connection and of the scanner *)

Definition unboundUpDesc : Desc :=
  NewDesc (BuildFQName "unbound" "" "up")
          "Whether scraping Unbound's metrics was successful." [].

Definition unboundHistogram : Desc :=
  NewDesc (BuildFQName "unbound" "" "response_time_seconds")
          "Query response time in seconds." [].

Record unboundMetric := {
  desc : Desc;
  valueType : ValueType;
  pattern : regexp.Regexp }.

(** [None] is the panic of [regexp.MustCompile]. *)
Definition newUnboundMetric (name description : string) (valueType : ValueType)
           (labels : list string) (pattern : string) : option unboundMetric :=
  match regexp.Compile pattern with
  | Some re =>
      Some {| desc := NewDesc (BuildFQName "unbound" "" name) description labels;
              valueType := valueType;
              pattern := re |}
  | None => None
  end.

Fixpoint all_some {A : Type} (l : list (option A)) : option (list A) :=
  match l with
  | [] => Some []
  | Some x :: l' => option_map (cons x) (all_some l')
  | None :: _ => None
  end.

(** The initialisation of the package variable [unboundMetrics]. *)
Definition unboundMetrics_init : option (list unboundMetric) :=
  all_some [
    newUnboundMetric
      "answer_rcodes_total"
      "Total number of answers to queries, from cache or from recursion, by response code."
      CounterValue
      ["rcode"]
      "^num\.answer\.rcode\.(\w+)$";
    newUnboundMetric
      "answers_bogus"
      "Total number of answers that were bogus."
      CounterValue
      []
      "^num\.answer\.bogus$";
    newUnboundMetric
      "answers_secure_total"
      "Total number of answers that were secure."
      CounterValue
      []
      "^num\.answer\.secure$";
    newUnboundMetric
      "cache_hits_total"
      "Total number of queries that were successfully answered using a cache lookup."
      CounterValue
      ["thread"]
      "^thread(\d+)\.num\.cachehits$";
    newUnboundMetric
      "cache_misses_total"
      "Total number of cache queries that needed recursive processing."
      CounterValue
      ["thread"]
      "^thread(\d+)\.num\.cachemiss$";
    newUnboundMetric
      "memory_caches_bytes"
      "Memory in bytes in use by caches."
      GaugeValue
      ["cache"]
      "^mem\.cache\.(\w+)$";
    newUnboundMetric
      "memory_modules_bytes"
      "Memory in bytes in use by modules."
      GaugeValue
      ["module"]
      "^mem\.mod\.(\w+)$";
    newUnboundMetric
      "memory_sbrk_bytes"
      "Memory in bytes allocated through sbrk."
      GaugeValue
      []
      "^mem\.total\.sbrk$";
    newUnboundMetric
      "prefetches_total"
      "Total number of cache prefetches performed."
      CounterValue
      ["thread"]
      "^thread(\d+)\.num\.prefetch$";
    newUnboundMetric
      "queries_total"
      "Total number of queries received."
      CounterValue
      ["thread"]
      "^thread(\d+)\.num\.queries$";
    newUnboundMetric
      "query_classes_total"
      "Total number of queries with a given query class."
      CounterValue
      ["class"]
      "^num\.query\.class\.([\w]+)$";
    newUnboundMetric
      "query_flags_total"
      "Total number of queries that had a given flag set in the header."
      CounterValue
      ["flag"]
      "^num\.query\.flags\.([\w]+)$";
    newUnboundMetric
      "query_ipv6_total"
      "Total number of queries that were made using IPv6 towards the Unbound server."
      CounterValue
      []
      "^num\.query\.ipv6$";
    newUnboundMetric
      "query_opcodes_total"
      "Total number of queries with a given query opcode."
      CounterValue
      ["opcode"]
      "^num\.query\.opcode\.([\w]+)$";
    newUnboundMetric
      "query_edns_DO_total"
      "Total number of queries that had an EDNS OPT record with the DO (DNSSEC OK) bit set present."
      CounterValue
      []
      "^num\.query\.edns\.DO$";
    newUnboundMetric
      "query_edns_present_total"
      "Total number of queries that had an EDNS OPT record present."
      CounterValue
      []
      "^num\.query\.edns\.present$";
    newUnboundMetric
      "query_tcp_total"
      "Total number of queries that were made using TCP towards the Unbound server."
      CounterValue
      []
      "^num\.query\.tcp$";
    newUnboundMetric
      "query_types_total"
      "Total number of queries with a given query type."
      CounterValue
      ["type"]
      "^num\.query\.type\.([\w]+)$";
    newUnboundMetric
      "request_list_current_all"
      "Current size of the request list, including internally generated queries."
      GaugeValue
      ["thread"]
      "^thread([0-9]+)\.requestlist\.current\.all$";
    newUnboundMetric
      "request_list_current_user"
      "Current size of the request list, only counting the requests from client queries."
      GaugeValue
      ["thread"]
      "^thread([0-9]+)\.requestlist\.current\.user$";
    newUnboundMetric
      "request_list_exceeded_total"
      "Number of queries that were dropped because the request list was full."
      CounterValue
      ["thread"]
      "^thread([0-9]+)\.requestlist\.exceeded$";
    newUnboundMetric
      "request_list_overwritten_total"
      "Total number of requests in the request list that were overwritten by newer entries."
      CounterValue
      ["thread"]
      "^thread([0-9]+)\.requestlist\.overwritten$";
    newUnboundMetric
      "recursive_replies_total"
      "Total number of replies sent to queries that needed recursive processing."
      CounterValue
      ["thread"]
      "^thread(\d+)\.num\.recursivereplies$";
    newUnboundMetric
      "rrset_bogus_total"
      "Total number of rrsets marked bogus by the validator."
      CounterValue
      []
      "^num\.rrset\.bogus$";
    newUnboundMetric
      "time_elapsed_seconds"
      "Time since last statistics printout in seconds."
      CounterValue
      []
      "^time\.elapsed$";
    newUnboundMetric
      "time_now_seconds"
      "Current time in seconds since 1970."
      GaugeValue
      []
      "^time\.now$";
    newUnboundMetric
      "time_up_seconds_total"
      "Uptime since server boot in seconds."
      CounterValue
      []
      "^time\.up$";
    newUnboundMetric
      "unwanted_queries_total"
      "Total number of queries that were refused or dropped because they failed the access control settings."
      CounterValue
      []
      "^unwanted\.queries$";
    newUnboundMetric
      "unwanted_replies_total"
      "Total number of replies that were unwanted or unsolicited."
      CounterValue
      []
      "^unwanted\.replies$"
  ].

(** The catalog, once the package is initialised
    (see [unboundMetrics_initialised]). *)
Definition unboundMetrics : list unboundMetric :=
  Eval vm_compute in
    match unboundMetrics_init with Some l => l | None => [] end.

(** The pattern of the bucket lines, compiled by [CollectFromReader]
    (see [histogramPattern_compiled]). *)
Definition histogramPattern : regexp.Regexp :=
  Eval vm_compute in
    match regexp.Compile "^histogram\.(\d+\.\d+)\.to\.(\d+\.\d+)$" with
    | Some re => re
    | None => {| regexp.pieces := [] |}
    end.

(** *** The bucket map, [map[float64]uint64]

    Keys are compared with Go's [==] on floats; a key that is equal to none
    of the keys present (as a NaN always is) adds an entry. *)
Definition bucketMap : Type := list (float64 * Z).

(** [m[k]], the zero value when [k] is absent. *)
Fixpoint map_get (m : bucketMap) (k : float64) : Z :=
  match m with
  | [] => 0
  | (k', v) :: m' => if feq k' k then v else map_get m' k
  end.

(** [m[k] = v]. *)
Fixpoint map_set (m : bucketMap) (k : float64) (v : Z) : bucketMap :=
  match m with
  | [] => [(k, v)]
  | (k', v') :: m' => if feq k' k then (k, v) :: m' else (k', v') :: map_set m' k v
  end.

(** The keys, as [for k := range m] meets them.  Go leaves their order
    open; they are sorted before they are used, and
    [bucket_keys_order_free] shows that the order makes no difference. *)
Definition map_keys (m : bucketMap) : list float64 := map fst m.

(** *** [sort.Float64s]: ascending, NaNs first *)
Definition less (x y : float64) : bool := flt x y || (isNaN x && negb (isNaN y)).

Fixpoint insert_sorted (x : float64) (l : list float64) : list float64 :=
  match l with
  | [] => [x]
  | y :: l' => if less y x then y :: insert_sorted x l' else x :: l
  end.

Definition Float64s (l : list float64) : list float64 :=
  fold_right insert_sorted [] l.

(** *** The input

    The reader as the scanner sees it through [bufio.ScanLines]: the lines
    that [scanner.Scan] yields one after the other, and what [scanner.Err]
    reports once they are exhausted ([None] at the end of the file). *)
Record Reader := { lines : list string; scanErr : option error }.

(** *** The variables of [CollectFromReader] *)
Record scrape := {
  ch : list Metric;               (** sent on the channel so far *)
  histogramCount : Z;
  histogramSum : float64;
  histogramBuckets : bucketMap }.

(** The loop over [unboundMetrics] for one line: the first definition whose
    pattern matches sends one metric and breaks out of the loop, or returns
    the error of the conversion. *)
Fixpoint resolve (metrics : list unboundMetric) (key value : string)
         (ch : list Metric) : list Metric * option error :=
  match metrics with
  | [] => (ch, None)
  | metric :: metrics' =>
      match regexp.FindStringSubmatch (pattern metric) key with
      | Some matches =>
          match strconv.ParseFloat value with
          | (_, Some err) => (ch, Some (NumError err))
          | (v, None) =>
              (ch ++ [MustNewConstMetric (desc metric) (valueType metric) v (tl matches)],
               None)
          end
      | None => resolve metrics' key value ch
      end
  end.

(** The body of the loop over the lines: the new variables, and the error
    the function returns with, if any. *)
Definition scan_line (text : string) (st : scrape) : scrape * option error :=
  match Split text "=" with
  | [key; value] =>
      match resolve unboundMetrics key value (ch st) with
      | (ch', Some err) =>
          ({| ch := ch'; histogramCount := histogramCount st;
              histogramSum := histogramSum st;
              histogramBuckets := histogramBuckets st |}, Some err)
      | (ch', None) =>
          match regexp.FindStringSubmatch histogramPattern key with
          | Some matches =>
              let begin := fst (strconv.ParseFloat (nth 1 matches EmptyString)) in
              let end_ := fst (strconv.ParseFloat (nth 2 matches EmptyString)) in
              match strconv.ParseUint value with
              | (_, Some err) =>
                  ({| ch := ch'; histogramCount := histogramCount st;
                      histogramSum := histogramSum st;
                      histogramBuckets := histogramBuckets st |}, Some (NumError err))
              | (value, None) =>
                  ({| ch := ch';
                      histogramCount := add64 (histogramCount st) value;
                      histogramSum :=
                        fadd (histogramSum st)
                             (fmul (fsub end_ begin) (float64_of_uint64 value));
                      histogramBuckets := map_set (histogramBuckets st) end_ value |},
                   None)
              end
          | None =>
              ({| ch := ch'; histogramCount := histogramCount st;
                  histogramSum := histogramSum st;
                  histogramBuckets := histogramBuckets st |}, None)
          end
      end
  | _ => (st, Some (Errorf "%q is not a valid key-value pair" text))
  end.

Fixpoint scan (texts : list string) (st : scrape) : scrape * option error :=
  match texts with
  | [] => (st, None)
  | text :: texts' =>
      match scan_line text st with
      | (st', None) => scan texts' st'
      | (st', Some err) => (st', Some err)
      end
  end.

(** The conversion to a cumulative histogram: the loop over the sorted keys,
    [histogramBuckets[i] += prev; prev = histogramBuckets[i]]. *)
Fixpoint cumulate (keys : list float64) (m : bucketMap) (prev : Z) : bucketMap :=
  match keys with
  | [] => m
  | i :: keys' =>
      let m' := map_set m i (add64 (map_get m i) prev) in
      cumulate keys' m' (map_get m' i)
  end.

Definition CollectFromReader (file : Reader) (ch0 : list Metric)
  : list Metric * option error :=
  match scan (lines file)
             {| ch := ch0; histogramCount := 0; histogramSum := fzero;
                histogramBuckets := [] |} with
  | (st, Some err) => (ch st, Some err)
  | (st, None) =>
      let keys := Float64s (map_keys (histogramBuckets st)) in
      let buckets := cumulate keys (histogramBuckets st) 0 in
      (ch st ++ [MustNewConstHistogram unboundHistogram (histogramCount st)
                                       (histogramSum st) buckets],
       scanErr file)
  end.

(** The control socket: [tls.Dial] fails, or the write of the command
    fails, or the answer is there to be read. *)
Inductive Socket :=
| DialFails (err : error)
| WriteFails (err : error)
| Connected (file : Reader).

Definition CollectFromSocket (conn : Socket) (ch0 : list Metric)
  : list Metric * option error :=
  match conn with
  | DialFails err => (ch0, Some err)
  | WriteFails err => (ch0, Some err)
  | Connected file => CollectFromReader file ch0
  end.

(** The statistics file: [os.Open] fails, or the file is there to be read. *)
Inductive File :=
| OpenFails (err : error)
| Opened (file : Reader).

Definition CollectFromFile (path : File) (ch0 : list Metric)
  : list Metric * option error :=
  match path with
  | OpenFails err => (ch0, Some err)
  | Opened file => CollectFromReader file ch0
  end.

(** [(e *UnboundExporter) Describe]: the descriptors sent on the channel,
    the one of the reachability gauge and then, in the loop over
    [unboundMetrics], the one of each definition. *)
Definition Describe (ch0 : list Desc) : list Desc :=
  fold_left (fun ch1 metric => ch1 ++ [desc metric]) unboundMetrics
            (ch0 ++ [unboundUpDesc]).

(** [(e *UnboundExporter) Collect]: everything sent on the channel. *)
Definition Collect (conn : Socket) (ch0 : list Metric) : list Metric :=
  match CollectFromSocket conn ch0 with
  | (ch1, None) => ch1 ++ [MustNewConstMetric unboundUpDesc GaugeValue fone []]
  | (ch1, Some _) => ch1 ++ [MustNewConstMetric unboundUpDesc GaugeValue fzero []]
  end.

(* ===================================================================== *)
(** ** Vocabulary of the properties *)
(* ===================================================================== *)

(** The variables of [CollectFromReader] before the first line. *)
Definition start (ch0 : list Metric) : scrape :=
  {| ch := ch0; histogramCount := 0; histogramSum := fzero; histogramBuckets := [] |}.

(** A key matches no definition of the catalog. *)
Definition unmatched (metrics : list unboundMetric) (key : string) : Prop :=
  Forall (fun m => regexp.FindStringSubmatch (pattern m) key = None) metrics.

(** A sample of one of the definitions [metrics]. *)
Definition sample_of (metrics : list unboundMetric) (m : Metric) : Prop :=
  exists metric v labelValues,
    In metric metrics /\
    m = ConstMetric (desc metric) (valueType metric) v labelValues.

(** A sample of the catalog: what the spec calls a Sample. *)
Definition is_sample : Metric -> Prop := sample_of unboundMetrics.

(** What a sequence of items matches. *)
Fixpoint items_sem (its : list regexp.item) (m : string) : Prop :=
  match its with
  | [] => m = EmptyString
  | regexp.One a :: its' =>
      exists c m', m = String c m' /\ regexp.atom_matches a c = true /\ items_sem its' m'
  | regexp.Many a :: its' =>
      exists m1 m2, m = (m1 ++ m2)%string /\ m1 <> EmptyString /\
                    all_bytes (regexp.atom_matches a) m1 = true /\ items_sem its' m2
  end.

(** What a sequence of pieces matches: the text [s] up to [r], with the
    texts [caps] of the groups. *)
Fixpoint pieces_sem (ps : list regexp.piece) (s : string) (caps : list string)
         (r : string) : Prop :=
  match ps with
  | [] => caps = [] /\ s = r
  | regexp.Plain i :: ps' =>
      exists m s', s = (m ++ s')%string /\ items_sem [i] m /\ pieces_sem ps' s' caps r
  | regexp.Group body :: ps' =>
      exists m s' caps', s = (m ++ s')%string /\ items_sem body m /\
                         caps = m :: caps' /\ pieces_sem ps' s' caps' r
  end.

(** A non-empty run of decimal digits. *)
Definition digits (s : string) : Prop := s <> EmptyString /\ all_bytes is_digit s = true.

(** A float with the sign [s] that is not a NaN. *)
Definition signed (s : bool) (x : float64) : Prop :=
  match x with
  | S754_zero s' | S754_infinity s' | S754_finite s' _ _ => s' = s
  | S754_nan => False
  end.

(** The place of a float that is not a NaN in the order: its class, then
    exponent and mantissa, as [SFcompare] looks at them. *)
Definition rank (x : float64) : Z * Z * Z :=
  match x with
  | S754_infinity true => (-2, 0, 0)
  | S754_finite true m e => (-1, - e, - Z.pos m)
  | S754_zero _ | S754_nan => (0, 0, 0)
  | S754_finite false m e => (1, e, Z.pos m)
  | S754_infinity false => (2, 0, 0)
  end.

(** The lexicographic order of the places. *)
Definition rank_lt (a b : Z * Z * Z) : Prop :=
  fst (fst a) < fst (fst b) \/
  (fst (fst a) = fst (fst b) /\
   (snd (fst a) < snd (fst b) \/ (snd (fst a) = snd (fst b) /\ snd a < snd b))).

(** No key is a NaN. *)
Definition no_nan (ks : list float64) : Prop := Forall (fun k => isNaN k = false) ks.

(** No two keys are equal for [==]. *)
Definition distinct (ks : list float64) : Prop :=
  ForallOrdPairs (fun a b => feq a b = false) ks.

(** Ascending: no element is below one before it. *)
Definition ascending (l : list float64) : Prop :=
  StronglySorted (fun a b => flt b a = false) l.

(** The sum of the counts a map holds at the keys [ks]. *)
Definition sum_at (m : bucketMap) (ks : list float64) : Z :=
  fold_right (fun k acc => map_get m k + acc) 0 ks.

(** What the loop over the sorted keys needs to run without wrapping. *)
Definition cumulable (ks : list float64) (m : bucketMap) (prev : Z) : Prop :=
  no_nan ks /\ distinct ks /\ ascending ks /\ 0 <= prev /\
  Forall (fun k => 0 <= map_get m k) ks /\ prev + sum_at m ks < two64.

(** What a recognized bucket line reports. *)
Record bucketLine := { lowerBound : float64; upperBound : float64; observations : Z }.

(** A line is a recognized bucket line when it has two fields, its key
    matches the pattern of the buckets and its value is a count. *)
Definition bucket_of_line (text : string) : option bucketLine :=
  match Split text "=" with
  | [key; value] =>
      match regexp.FindStringSubmatch histogramPattern key with
      | Some matches =>
          match strconv.ParseUint value with
          | (n, None) =>
              Some {| lowerBound := fst (strconv.ParseFloat (nth 1 matches EmptyString));
                      upperBound := fst (strconv.ParseFloat (nth 2 matches EmptyString));
                      observations := n |}
          | (_, Some _) => None
          end
      | None => None
      end
  | _ => None
  end.

(** The recognized bucket lines of a stream, in its order. *)
Definition bucket_lines (texts : list string) : list bucketLine :=
  flat_map (fun text => match bucket_of_line text with Some b => [b] | None => [] end) texts.

(** The estimate of the time spent in a bucket. *)
Definition contribution (b : bucketLine) : float64 :=
  fmul (fsub (upperBound b) (lowerBound b)) (float64_of_uint64 (observations b)).

(** The sum of the counts of bucket lines, as an integer. *)
Definition total (bs : list bucketLine) : Z :=
  fold_right Z.add 0 (map observations bs).

(** The [float64] a decimal text stands for. *)
Definition f64 (s : string) : float64 := fst (strconv.ParseFloat s).

(** How many times a byte occurs in a text. *)
Fixpoint count_byte (c : ascii) (s : string) : nat :=
  match s with
  | EmptyString => O
  | String c' s' => if Ascii.eqb c' c then S (count_byte c s') else count_byte c s'
  end.

(** The reachability gauge. *)
Definition up (v : float64) : Metric := MustNewConstMetric unboundUpDesc GaugeValue v [].

(** A bound with 310 digits before the point. *)
Definition huge_bound : string :=
  "1000000000000000000000000000000000000000000000000000000000000000000000000000000000000000000000000000000000000000000000000000000000000000000000000000000000000000000000000000000000000000000000000000000000000000000000000000000000000000000000000000000000000000000000000000000000000000000000000000000000000000000000.0".

(** The entry a bucket line writes in the map. *)
Definition entry (b : bucketLine) : float64 * Z := (upperBound b, observations b).

(** The items of a pattern, the groups opened up. *)
Definition flatten (ps : list regexp.piece) : list regexp.item :=
  flat_map (fun p => match p with regexp.Plain i => [i] | regexp.Group body => body end) ps.

(** The pieces that match the text [s] byte for byte. *)
Fixpoint literal (s : string) : list regexp.piece :=
  match s with
  | EmptyString => []
  | String c s' => regexp.Plain (regexp.One (regexp.Lit c)) :: literal s'
  end.

(** The text of a pattern made of literal bytes only. *)
Fixpoint literal_text (ps : list regexp.piece) : option string :=
  match ps with
  | [] => Some EmptyString
  | regexp.Plain (regexp.One (regexp.Lit c)) :: ps' =>
      option_map (String c) (literal_text ps')
  | _ => None
  end.

(** The parts of a pattern made of a literal text, one group that holds a
    character class under [+], and a literal text. *)
Fixpoint one_group (ps : list regexp.piece)
  : option (string * list (ascii * ascii) * string) :=
  match ps with
  | regexp.Plain (regexp.One (regexp.Lit c)) :: ps' =>
      match one_group ps' with
      | Some (pre, rs, post) => Some (String c pre, rs, post)
      | None => None
      end
  | regexp.Group [regexp.Many (regexp.Class rs)] :: ps' =>
      match literal_text ps' with
      | Some post => Some (EmptyString, rs, post)
      | None => None
      end
  | _ => None
  end.

(** A non-empty text whose bytes are all in a class. *)
Definition run_of (rs : list (ascii * ascii)) (w : string) : Prop :=
  w <> EmptyString /\ all_bytes (regexp.atom_matches (regexp.Class rs)) w = true.

(** No byte is matched by both atoms (a sufficient test). *)
Definition atoms_disjoint (a b : regexp.atom) : bool :=
  match a, b with
  | regexp.Lit c, _ => negb (regexp.atom_matches b c)
  | _, regexp.Lit c => negb (regexp.atom_matches a c)
  | regexp.Class _, regexp.Class _ => false
  end.

(** No text is matched by both sequences of items (a sufficient test): the
    two sequences are followed side by side, each item taking one byte at
    least. *)
Fixpoint items_disjoint (fuel : nat) (p q : list regexp.item) : bool :=
  match fuel with
  | O => false
  | S fuel' =>
      match p, q with
      | [], [] => false
      | [], _ :: _ => true
      | _ :: _, [] => true
      | regexp.One a :: p', regexp.One b :: q' =>
          atoms_disjoint a b || items_disjoint fuel' p' q'
      | regexp.One a :: p', regexp.Many b :: q' =>
          atoms_disjoint a b || (items_disjoint fuel' p' q' && items_disjoint fuel' p' q)
      | regexp.Many a :: p', regexp.One b :: q' =>
          atoms_disjoint a b || (items_disjoint fuel' p' q' && items_disjoint fuel' p q')
      | regexp.Many a :: p', regexp.Many b :: q' =>
          atoms_disjoint a b ||
          (items_disjoint fuel' p' q' && items_disjoint fuel' p q'
           && items_disjoint fuel' p' q)
      end
  end.

Definition patterns_disjoint (re1 re2 : regexp.Regexp) : bool :=
  let p := flatten (regexp.pieces re1) in
  let q := flatten (regexp.pieces re2) in
  items_disjoint (S (List.length p + List.length q)) p q.

(** Every pattern of the list passes the test with every later one. *)
Fixpoint pairwise_disjoint (res : list regexp.Regexp) : bool :=
  match res with
  | [] => true
  | re :: res' => forallb (patterns_disjoint re) res' && pairwise_disjoint res'
  end.

(** What the loop over the catalog does once [metric] has matched with
    [matches]: the sample, or the error of the conversion. *)
Definition outcome (metric : unboundMetric) (matches : list string) (value : string)
           (ch0 : list Metric) : list Metric * option error :=
  match strconv.ParseFloat value with
  | (v, None) =>
      (ch0 ++ [MustNewConstMetric (desc metric) (valueType metric) v (tl matches)], None)
  | (_, Some err) => (ch0, Some (NumError err))
  end.

(** What a line sends and the error it raises, read on its own. *)
Definition line_samples (text : string) : list Metric :=
  ch (fst (scan_line text (start []))).
Definition line_error (text : string) : option error :=
  snd (scan_line text (start [])).

(** The bucket map after the loop over the lines. *)
Definition raw_buckets (texts : list string) : bucketMap :=
  fold_left (fun m b => map_set m (upperBound b) (observations b)) (bucket_lines texts) [].

(** The histogram of the bucket lines of a stream. *)
Definition histogram_of (texts : list string) : Metric :=
  MustNewConstHistogram unboundHistogram
    (total (bucket_lines texts) mod two64)
    (fold_left (fun s b => fadd s (contribution b)) (bucket_lines texts) fzero)
    (cumulate (Float64s (map_keys (raw_buckets texts))) (raw_buckets texts) 0).

(** The label values of a metric are as many as the labels of its
    descriptor: the condition under which [MustNewConstMetric] and
    [MustNewConstHistogram] do not panic. *)
Definition fits (m : Metric) : Prop :=
  match m with
  | ConstMetric d _ _ labelValues =>
      List.length labelValues = List.length (variableLabels d)
  | ConstHistogram d _ _ _ => variableLabels d = []
  end.

(** The number a text of decimal digits stands for, after the digits [n]. *)
Fixpoint decimal_from (n : Z) (s : string) : Z :=
  match s with
  | EmptyString => n
  | String c s' => decimal_from (n * 10 + digit_val c) s'
  end.

Definition decimal (s : string) : Z := decimal_from 0 s.

(** The keys of a list that are not above [k]. *)
Definition up_to (k : float64) (ks : list float64) : list float64 :=
  filter (fun k' => negb (flt k k')) ks.

(** No text occurs twice in a list. *)
Fixpoint no_repeat (l : list string) : bool :=
  match l with
  | [] => true
  | x :: l' => negb (existsb (String.eqb x) l') && no_repeat l'
  end.

(* ===================================================================== *)
(** * Properties *)
(* ===================================================================== *)

(** ** Initialisation *)

(** Every pattern of the catalog compiles: no [MustCompile] panics. *)
Lemma unboundMetrics_initialised : unboundMetrics_init = Some unboundMetrics.
Proof. vm_compute. reflexivity. Qed.

Lemma histogramPattern_compiled :
  regexp.Compile "^histogram\.(\d+\.\d+)\.to\.(\d+\.\d+)$" = Some histogramPattern.
Proof. vm_compute. reflexivity. Qed.

(** ** The scan loop *)

Lemma scan_app (l1 l2 : list string) (st : scrape) :
  scan (l1 ++ l2) st =
  match scan l1 st with
  | (st', None) => scan l2 st'
  | (st', Some err) => (st', Some err)
  end.
Proof.
  revert st. induction l1 as [|text l1 IH]; intros st; simpl.
  - reflexivity.
  - destruct (scan_line text st) as [st' [err|]]; [reflexivity | apply IH].
Qed.

Lemma scrape_eta (st : scrape) :
  {| ch := ch st; histogramCount := histogramCount st;
     histogramSum := histogramSum st; histogramBuckets := histogramBuckets st |} = st.
Proof. destruct st; reflexivity. Qed.

Lemma resolve_unmatched (metrics : list unboundMetric) (key value : string)
      (ch0 : list Metric) :
  unmatched metrics key -> resolve metrics key value ch0 = (ch0, None).
Proof.
  induction 1 as [|m ms Hm _ IH]; simpl; [reflexivity|].
  rewrite Hm. exact IH.
Qed.

(** The loop over the catalog stops at the first definition that matches. *)
Lemma resolve_first_match (before after : list unboundMetric) (metric : unboundMetric)
      (key value : string) (matches : list string) (ch0 : list Metric) :
  unmatched before key ->
  regexp.FindStringSubmatch (pattern metric) key = Some matches ->
  resolve (before ++ metric :: after) key value ch0 =
  match strconv.ParseFloat value with
  | (v, None) =>
      (ch0 ++ [MustNewConstMetric (desc metric) (valueType metric) v (tl matches)], None)
  | (_, Some err) => (ch0, Some (NumError err))
  end.
Proof.
  intros Hb Hm. induction Hb as [|m ms Hn _ IH]; simpl.
  - rewrite Hm. destruct (strconv.ParseFloat value) as [v [e|]]; reflexivity.
  - rewrite Hn. exact IH.
Qed.

(** Either no definition matches, or there is a first one that does. *)
Lemma catalog_split (metrics : list unboundMetric) (key : string) :
  unmatched metrics key \/
  exists before metric after matches,
    metrics = before ++ metric :: after /\
    unmatched before key /\
    regexp.FindStringSubmatch (pattern metric) key = Some matches.
Proof.
  induction metrics as [|m ms IH].
  - left. constructor.
  - destruct (regexp.FindStringSubmatch (pattern m) key) as [matches|] eqn:Hm.
    + right. exists [], m, ms, matches. repeat split; [constructor | exact Hm].
    + destruct IH as [Hu | (before & metric & after & matches & -> & Hb & Hf)].
      * left. constructor; assumption.
      * right. exists (m :: before), metric, after, matches.
        repeat split; [constructor; assumption | exact Hf].
Qed.

(** What [resolve] adds to the channel: nothing, or one sample of a
    definition of the catalog. *)
Lemma resolve_adds (metrics : list unboundMetric) (key value : string)
      (ch0 : list Metric) :
  exists new,
    fst (resolve metrics key value ch0) = ch0 ++ new /\
    (List.length new <= 1)%nat /\
    Forall (sample_of metrics) new /\
    (snd (resolve metrics key value ch0) <> None -> new = []).
Proof.
  destruct (catalog_split metrics key)
    as [Hu | (before & metric & after & matches & -> & Hb & Hf)].
  - rewrite (resolve_unmatched _ _ value ch0 Hu). exists []. simpl.
    rewrite app_nil_r. repeat split; auto.
  - rewrite (resolve_first_match _ _ _ _ value _ ch0 Hb Hf).
    destruct (strconv.ParseFloat value) as [v [e|]]; simpl.
    + exists []. rewrite app_nil_r. repeat split; auto.
    + eexists [_]. repeat split; simpl; auto.
      * constructor; [|constructor]. exists metric, v, (tl matches).
        split; [|reflexivity]. apply in_or_app. right. left. reflexivity.
      * intros H. contradiction.
Qed.

(** ** The matcher *)

Lemma append_nil_r (s : string) : (s ++ "")%string = s.
Proof. induction s as [|c s IH]; simpl; [reflexivity | rewrite IH; reflexivity]. Qed.

Lemma append_assoc (s1 s2 s3 : string) :
  ((s1 ++ s2) ++ s3)%string = (s1 ++ (s2 ++ s3))%string.
Proof. induction s1 as [|c s1 IH]; simpl; [reflexivity | rewrite IH; reflexivity]. Qed.

Lemma all_bytes_app (p : ascii -> bool) (s1 s2 : string) :
  all_bytes p (s1 ++ s2) = all_bytes p s1 && all_bytes p s2.
Proof.
  induction s1 as [|c s1 IH]; simpl; [reflexivity|].
  rewrite IH, andb_assoc. reflexivity.
Qed.

Lemma many_sound (a : regexp.atom) (s m r : string) :
  In (m, r) (regexp.many a s) ->
  s = (m ++ r)%string /\ m <> EmptyString /\ all_bytes (regexp.atom_matches a) m = true.
Proof.
  revert m r. induction s as [|c s IH]; intros m r; simpl; [tauto|].
  destruct (regexp.atom_matches a c) eqn:Hc; [|simpl; tauto].
  rewrite in_app_iff, in_map_iff. intros [((m', r') & Heq & Hin) | [Heq | []]].
  - inversion Heq; subst. simpl in *. destruct (IH _ _ Hin) as (-> & _ & Hall).
    repeat split; [discriminate | simpl; rewrite Hc, Hall; reflexivity].
  - inversion Heq; subst. repeat split; [discriminate | simpl; rewrite Hc; reflexivity].
Qed.

Lemma match_item_sound (i : regexp.item) (s m r : string) :
  In (m, r) (regexp.match_item i s) -> s = (m ++ r)%string /\ items_sem [i] m.
Proof.
  destruct i as [a|a]; simpl.
  - destruct s as [|c s]; simpl; [tauto|].
    destruct (regexp.atom_matches a c) eqn:Hc; simpl; [|tauto].
    intros [Heq | []]. inversion Heq; subst. split; [reflexivity|].
    exists c, EmptyString. auto.
  - intros Hin. destruct (many_sound _ _ _ _ Hin) as (-> & Hne & Hall).
    split; [reflexivity|]. exists m, EmptyString. rewrite append_nil_r. auto.
Qed.

Lemma items_sem_app (i : regexp.item) (its : list regexp.item) (m1 m2 : string) :
  items_sem [i] m1 -> items_sem its m2 -> items_sem (i :: its) (m1 ++ m2)%string.
Proof.
  destruct i as [a|a]; simpl.
  - intros (c & m' & -> & Hc & ->) H2. exists c, m2. auto.
  - intros (n1 & n2 & -> & Hne & Hall & ->) H2. rewrite append_nil_r.
    exists n1, m2. auto.
Qed.

Lemma match_items_sound (its : list regexp.item) (s m r : string) :
  In (m, r) (regexp.match_items its s) -> s = (m ++ r)%string /\ items_sem its m.
Proof.
  revert s m r. induction its as [|i its IH]; intros s m r; simpl.
  - intros [Heq | []]. inversion Heq; subst. auto.
  - rewrite in_flat_map. intros ((m1, r1) & Hi & Hin).
    rewrite in_map_iff in Hin. destruct Hin as ((m2, r2) & Heq & Hin).
    inversion Heq; subst; simpl in *.
    destruct (match_item_sound _ _ _ _ Hi) as (-> & H1).
    destruct (IH _ _ _ Hin) as (-> & H2).
    split; [rewrite append_assoc; reflexivity | apply items_sem_app; assumption].
Qed.

Lemma match_pieces_sound (ps : list regexp.piece) (s : string) (caps : list string)
      (r : string) :
  In (caps, r) (regexp.match_pieces ps s) -> pieces_sem ps s caps r.
Proof.
  revert s caps r. induction ps as [|[i|body] ps IH]; intros s caps r; simpl.
  - intros [Heq | []]. inversion Heq; auto.
  - rewrite in_flat_map. intros ((m1, r1) & Hi & Hin). simpl in Hin.
    destruct (match_item_sound _ _ _ _ Hi) as (-> & H1).
    exists m1, r1. auto.
  - rewrite in_flat_map. intros ((m1, r1) & Hi & Hin).
    rewrite in_map_iff in Hin. destruct Hin as ((caps', r2) & Heq & Hin).
    inversion Heq; subst; simpl in *.
    destruct (match_items_sound _ _ _ _ Hi) as (-> & H1).
    exists m1, r1, caps'. auto.
Qed.

(** A submatch is the key, then one text per group. *)
Lemma FindStringSubmatch_sound (re : regexp.Regexp) (s : string) (matches : list string) :
  regexp.FindStringSubmatch re s = Some matches ->
  exists caps, matches = s :: caps /\ pieces_sem (regexp.pieces re) s caps EmptyString.
Proof.
  unfold regexp.FindStringSubmatch.
  destruct (find regexp.at_end (regexp.match_pieces (regexp.pieces re) s))
    as [[caps r]|] eqn:Hf; [|discriminate].
  intros Heq. inversion Heq; subst. exists caps. split; [reflexivity|].
  apply find_some in Hf. destruct Hf as [Hin Hend].
  unfold regexp.at_end in Hend. simpl in Hend. destruct r; [|discriminate].
  apply match_pieces_sound. exact Hin.
Qed.

Lemma pieces_sem_arity (ps : list regexp.piece) (s : string) (caps : list string)
      (r : string) :
  pieces_sem ps s caps r ->
  List.length caps = regexp.NumSubexp {| regexp.pieces := ps |}.
Proof.
  unfold regexp.NumSubexp. simpl.
  revert s caps. induction ps as [|[i|body] ps IH]; intros s caps; simpl.
  - intros [-> _]. reflexivity.
  - intros (m & s' & _ & _ & H). exact (IH _ _ H).
  - intros (m & s' & caps' & _ & _ & -> & H). simpl. f_equal. exact (IH _ _ H).
Qed.

(** The label values sent with a metric are as many as the labels of its
    descriptor: [MustNewConstMetric] does not panic. *)
Lemma catalog_label_arity (metric : unboundMetric) (key : string) (matches : list string) :
  In metric unboundMetrics ->
  regexp.FindStringSubmatch (pattern metric) key = Some matches ->
  List.length (tl matches) = List.length (variableLabels (desc metric)).
Proof.
  intros Hin Hf.
  destruct (FindStringSubmatch_sound _ _ _ Hf) as (caps & -> & Hsem). simpl.
  destruct (pattern metric) as [ps] eqn:Hp. simpl in Hsem.
  rewrite (pieces_sem_arity _ _ _ _ Hsem), <- Hp.
  assert (Hall : Forall (fun m => regexp.NumSubexp (pattern m)
                                  = List.length (variableLabels (desc m))) unboundMetrics)
    by (unfold unboundMetrics; repeat constructor).
  rewrite Forall_forall in Hall. exact (Hall _ Hin).
Qed.

(** A key that begins with [h] matches no definition of the catalog. *)
Lemma catalog_rejects_h (rest : string) : unmatched unboundMetrics (String "h" rest).
Proof. unfold unmatched, unboundMetrics. repeat constructor. Qed.

(** ** The pattern of the bucket lines *)

Lemma pieces_sem_lit (c : ascii) (ps : list regexp.piece) (s : string)
      (caps : list string) (r : string) :
  pieces_sem (regexp.Plain (regexp.One (regexp.Lit c)) :: ps) s caps r ->
  exists s', s = String c s' /\ pieces_sem ps s' caps r.
Proof.
  cbn [pieces_sem items_sem].
  intros (m & s' & -> & (c' & m' & -> & Hc & ->) & H).
  simpl in Hc. apply Ascii.eqb_eq in Hc. subst c'.
  exists s'. split; [reflexivity | exact H].
Qed.

Lemma all_bytes_ext (p q : ascii -> bool) (s : string) :
  (forall c, p c = q c) -> all_bytes p s = all_bytes q s.
Proof.
  intros Hpq. induction s as [|c s IH]; simpl; [reflexivity|].
  rewrite Hpq, IH. reflexivity.
Qed.

Lemma items_sem_bound (m : string) :
  items_sem [regexp.Many (regexp.Class regexp.perl_d);
             regexp.One (regexp.Lit ".");
             regexp.Many (regexp.Class regexp.perl_d)] m ->
  exists a b, digits a /\ digits b /\ m = (a ++ "." ++ b)%string.
Proof.
  cbn [items_sem].
  intros (a & m2 & -> & Hna & Ha & (c & m3 & -> & Hc & (b & m4 & -> & Hnb & Hb & ->))).
  cbn [regexp.atom_matches] in Hc. apply Ascii.eqb_eq in Hc. subst c.
  assert (Hd : forall c, regexp.atom_matches (regexp.Class regexp.perl_d) c = is_digit c)
    by (intros c; simpl; apply orb_false_r).
  rewrite (all_bytes_ext _ _ _ Hd) in Ha. rewrite (all_bytes_ext _ _ _ Hd) in Hb.
  exists a, b. rewrite append_nil_r. repeat split; assumption.
Qed.

Lemma pieces_sem_bound (ps : list regexp.piece) (s : string) (caps : list string)
      (r : string) :
  pieces_sem (regexp.Group [regexp.Many (regexp.Class regexp.perl_d);
                            regexp.One (regexp.Lit ".");
                            regexp.Many (regexp.Class regexp.perl_d)] :: ps) s caps r ->
  exists a b s' caps',
    digits a /\ digits b /\ s = ((a ++ "." ++ b) ++ s')%string /\
    caps = (a ++ "." ++ b)%string :: caps' /\ pieces_sem ps s' caps' r.
Proof.
  cbn [pieces_sem].
  intros (m & s' & caps' & -> & Hm & -> & H).
  destruct (items_sem_bound _ Hm) as (a & b & Ha & Hb & ->).
  exists a, b, s', caps'. auto.
Qed.

(** A key the pattern matches is [histogram.<digits>.<digits>.to.<digits>.<digits>],
    and the two groups are the bounds. *)
Lemma histogram_shape (key : string) (matches : list string) :
  regexp.FindStringSubmatch histogramPattern key = Some matches ->
  exists a b c d,
    digits a /\ digits b /\ digits c /\ digits d /\
    key = ("histogram." ++ (a ++ "." ++ b) ++ ".to." ++ (c ++ "." ++ d))%string /\
    matches = [key; (a ++ "." ++ b)%string; (c ++ "." ++ d)%string].
Proof.
  intros Hf. destruct (FindStringSubmatch_sound _ _ _ Hf) as (caps & -> & Hsem).
  clear Hf. unfold histogramPattern in Hsem. cbn [regexp.pieces] in Hsem.
  do 10 (apply pieces_sem_lit in Hsem; destruct Hsem as (? & -> & Hsem)).
  apply pieces_sem_bound in Hsem.
  destruct Hsem as (a & b & s' & caps' & Ha & Hb & -> & -> & Hsem).
  do 4 (apply pieces_sem_lit in Hsem; destruct Hsem as (? & -> & Hsem)).
  apply pieces_sem_bound in Hsem.
  destruct Hsem as (c & d & s' & caps'' & Hc & Hd & -> & -> & Hsem).
  cbn [pieces_sem] in Hsem. destruct Hsem as [-> ->].
  exists a, b, c, d. rewrite append_nil_r. simpl.
  repeat (split; [assumption|]). split; reflexivity.
Qed.

Lemma histogram_key_unmatched (key : string) (matches : list string) :
  regexp.FindStringSubmatch histogramPattern key = Some matches ->
  unmatched unboundMetrics key.
Proof.
  intros Hf. destruct (histogram_shape _ _ Hf) as (a & b & c & d & _ & _ & _ & _ & -> & _).
  apply catalog_rejects_h.
Qed.

(** ** Rounding never yields a NaN *)

Lemma shr_1_nonneg (mrs : shr_record) : 0 <= shr_m mrs -> 0 <= shr_m (shr_1 mrs).
Proof.
  destruct mrs as [m r s]. simpl.
  destruct m as [|[p|p|]|p]; simpl; lia.
Qed.

Lemma iter_shr_1_nonneg (p : positive) (mrs : shr_record) :
  0 <= shr_m mrs -> 0 <= shr_m (iter_pos shr_1 p mrs).
Proof.
  revert mrs. induction p as [p IH|p IH|]; intros mrs H; simpl.
  - apply IH, IH, shr_1_nonneg, H.
  - apply IH, IH, H.
  - apply shr_1_nonneg, H.
Qed.

Lemma shr_fexp_nonneg (m e : Z) (l : location) :
  0 <= m -> 0 <= shr_m (fst (shr_fexp prec emax m e l)).
Proof.
  intros Hm. unfold shr_fexp, shr.
  assert (H0 : 0 <= shr_m (shr_record_of_loc m l))
    by (destruct l as [|[]]; simpl; exact Hm).
  destruct (fexp prec emax (Zdigits2 m + e) - e); simpl;
    [exact H0 | apply iter_shr_1_nonneg, H0 | exact H0].
Qed.

Lemma binary_round_aux_signed (sx : bool) (mx ex : Z) (lx : location) :
  0 <= mx -> signed sx (binary_round_aux prec emax sx mx ex lx).
Proof.
  intros Hm. unfold binary_round_aux.
  pose proof (shr_fexp_nonneg mx ex lx Hm) as H1.
  destruct (shr_fexp prec emax mx ex lx) as [mrs' e']. simpl in H1.
  set (m1 := round_nearest_even (shr_m mrs') (loc_of_shr_record mrs')).
  assert (Hm1 : 0 <= m1).
  { unfold m1, round_nearest_even.
    destruct (loc_of_shr_record mrs') as [|[]]; try lia.
    destruct (Z.even (shr_m mrs')); lia. }
  pose proof (shr_fexp_nonneg m1 e' loc_Exact Hm1) as H2.
  destruct (shr_fexp prec emax m1 e' loc_Exact) as [mrs'' e'']. simpl in H2.
  destruct (shr_m mrs'') as [|p|p]; [exact eq_refl | | lia].
  destruct (e'' <=? emax - prec); exact eq_refl.
Qed.

Lemma round_ratio_signed (neg : bool) (num den : positive) :
  signed neg (round_ratio neg num den).
Proof.
  unfold round_ratio, SFdiv.
  destruct (SFdiv_core_binary prec emax (Z.pos num) 0 (Z.pos den) 0) as [[mz ez] lz] eqn:Hc.
  rewrite xorb_false_r. apply binary_round_aux_signed.
  unfold SFdiv_core_binary in Hc.
  set (m' := match (0 - 0 - Z.min (fexp prec emax (Zdigits2 (Z.pos num) + 0 - (Zdigits2 (Z.pos den) + 0))) (0 - 0)) with
             | Z.pos _ => Z.shiftl (Z.pos num) (0 - 0 - Z.min (fexp prec emax (Zdigits2 (Z.pos num) + 0 - (Zdigits2 (Z.pos den) + 0))) (0 - 0))
             | 0 => Z.pos num | Z.neg _ => 0 end) in Hc.
  assert (Hm' : 0 <= m').
  { unfold m'. destruct (0 - 0 - Z.min _ (0 - 0)); try lia. apply Z.shiftl_nonneg. lia. }
  pose proof (Z_div_mod m' (Z.pos den) eq_refl) as Hd.
  destruct (Z.div_eucl m' (Z.pos den)) as [q r]. inversion Hc; subst.
  destruct Hd as [Hd1 Hd2]. nia.
Qed.

(** ** [ParseFloat] on the bounds of a bucket *)

Lemma is_digit_cases (c : ascii) :
  is_digit c = true ->
  In c ["0"; "1"; "2"; "3"; "4"; "5"; "6"; "7"; "8"; "9"]%char.
Proof.
  destruct c as [[] [] [] [] [] [] [] []]; intros H; try discriminate H;
    simpl; tauto.
Qed.

(** What the bytes of a number are to the loops of [readFloat]. *)
Lemma digit_is_plain (c : ascii) :
  is_digit c = true ->
  Ascii.eqb c "_" = false /\ Ascii.eqb c "." = false /\
  Ascii.eqb c "+" = false /\ Ascii.eqb c "-" = false /\
  Ascii.eqb c "i" = false /\ Ascii.eqb c "I" = false /\
  Ascii.eqb c "n" = false /\ Ascii.eqb c "N" = false /\
  Ascii.eqb (lower c) "x" = false.
Proof.
  intros H. apply is_digit_cases in H. simpl in H.
  repeat (destruct H as [<- | H]; [repeat split; reflexivity|]). contradiction.
Qed.

Lemma read_mantissa_digits (a t : string) (st : strconv.mant) :
  all_bytes is_digit a = true ->
  exists st',
    strconv.read_mantissa false (a ++ t) st = strconv.read_mantissa false t st' /\
    strconv.sawdot st' = strconv.sawdot st /\
    strconv.underscores st' = strconv.underscores st /\
    (strconv.sawdigits st' = true <-> a <> EmptyString \/ strconv.sawdigits st = true).
Proof.
  revert st. induction a as [|c a IH]; intros st Ha.
  - exists st. simpl. repeat split; auto. intros [H|H]; [congruence | exact H].
  - simpl in Ha. apply andb_prop in Ha. destruct Ha as [Hc Ha].
    destruct (digit_is_plain c Hc) as (H1 & H2 & _).
    cbn [append strconv.read_mantissa]. rewrite H1, H2, Hc.
    destruct (Ascii.eqb c "0" && (strconv.nd st =? 0)).
    + destruct (IH {| strconv.sawdot := strconv.sawdot st; strconv.sawdigits := true;
                      strconv.nd := strconv.nd st; strconv.dp := strconv.dp st - 1;
                      strconv.mantissa := strconv.mantissa st;
                      strconv.underscores := strconv.underscores st |} Ha)
        as (st' & E & Hd & Hu & Hs).
      exists st'. simpl in *. repeat split; auto; try tauto.
      intros _. left. discriminate.
    + destruct (IH {| strconv.sawdot := strconv.sawdot st; strconv.sawdigits := true;
                      strconv.nd := strconv.nd st + 1; strconv.dp := strconv.dp st;
                      strconv.mantissa := strconv.mantissa st * 10 + digit_val c;
                      strconv.underscores := strconv.underscores st |} Ha)
        as (st' & E & Hd & Hu & Hs).
      exists st'. simpl in *. repeat split; auto; try tauto.
      intros _. left. discriminate.
Qed.

(** [readFloat] reads a bound to its end, as a decimal number without sign. *)
Lemma readFloat_bound (a b : string) :
  digits a -> digits b ->
  exists p,
    strconv.readFloat (a ++ "." ++ b) = Some p /\
    strconv.neg p = false /\ strconv.hex p = false /\ strconv.unread p = EmptyString.
Proof.
  intros [Hna Ha] [Hnb Hb].
  destruct a as [|c a]; [congruence|]. clear Hna.
  pose proof Ha as Ha'. simpl in Ha'. apply andb_prop in Ha'. destruct Ha' as [Hc _].
  destruct (digit_is_plain c Hc) as (_ & _ & Hp & Hm & _).
  change (String c a ++ "." ++ b)%string with (String c (a ++ "." ++ b)).
  unfold strconv.readFloat.
  assert (Hs : strconv.skip_sign (String c (a ++ "." ++ b)) = String c (a ++ "." ++ b))
    by (unfold strconv.skip_sign; rewrite Hp, Hm; reflexivity).
  rewrite Hs, Hm.
  assert (Hx : strconv.base_prefix (String c (a ++ "." ++ b))
               = (false, String c (a ++ "." ++ b))).
  { unfold strconv.base_prefix. destruct (a ++ "." ++ b)%string as [|x [|y rest]] eqn:Hab;
      try reflexivity.
    assert (Hlx : Ascii.eqb (lower x) "x" = false).
    { destruct a as [|c2 a]; simpl in Hab; inversion Hab; subst; [reflexivity|].
      simpl in Ha. apply andb_prop in Ha. destruct Ha as [_ Ha].
      apply andb_prop in Ha. destruct Ha as [Hc2 _].
      apply digit_is_plain in Hc2. tauto. }
    rewrite Hlx, andb_false_r. reflexivity. }
  rewrite Hx.
  change (String c (a ++ "." ++ b)) with (String c a ++ "." ++ b)%string.
  set (st0 := {| strconv.sawdot := false; strconv.sawdigits := false; strconv.nd := 0;
                 strconv.dp := 0; strconv.mantissa := 0; strconv.underscores := false |}).
  destruct (read_mantissa_digits (String c a) ("." ++ b) st0 Ha)
    as (st1 & E1 & Hd1 & Hu1 & Hs1).
  rewrite E1. change ("." ++ b)%string with (String "." b).
  cbn [strconv.read_mantissa].
  change (Ascii.eqb "." "_") with false. change (Ascii.eqb "." ".") with true.
  cbv iota. rewrite Hd1. cbn [strconv.sawdot st0].
  set (st2 := {| strconv.sawdot := true; strconv.sawdigits := strconv.sawdigits st1;
                 strconv.nd := strconv.nd st1; strconv.dp := strconv.nd st1;
                 strconv.mantissa := strconv.mantissa st1;
                 strconv.underscores := strconv.underscores st1 |}).
  rewrite <- (append_nil_r b).
  destruct (read_mantissa_digits b "" st2 Hb) as (st3 & E3 & Hd3 & Hu3 & Hs3).
  rewrite E3. cbn [strconv.read_mantissa].
  assert (Hsd : strconv.sawdigits st3 = true) by (apply Hs3; left; exact Hnb).
  assert (Hus : strconv.underscores st3 = false)
    by (rewrite Hu3; unfold st2; simpl; rewrite Hu1; reflexivity).
  rewrite Hsd, Hus. cbn [negb andb].
  eexists. split; [reflexivity|]. simpl. auto.
Qed.

(** The bounds of a bucket always convert: the text is a number, so the
    only error left is the range error of a number too large for a
    [float64], which comes with the value [+Inf]. *)
Lemma ParseFloat_bound (a b : string) :
  digits a -> digits b ->
  let s := (a ++ "." ++ b)%string in
  signed false (fst (strconv.ParseFloat s)) /\
  (snd (strconv.ParseFloat s) = None \/
   (snd (strconv.ParseFloat s) = Some (strconv.rangeError "ParseFloat" s) /\
    fst (strconv.ParseFloat s) = S754_infinity false)).
Proof.
  intros Ha Hb s.
  destruct (readFloat_bound a b Ha Hb) as (p & Hr & Hneg & Hhex & Hun).
  fold s in Hr. unfold strconv.ParseFloat.
  assert (Hsp : strconv.special s = None).
  { destruct Ha as [Hna Ha]. unfold s. destruct a as [|c a]; [congruence|].
    simpl in Ha. apply andb_prop in Ha. destruct Ha as [Hc _].
    destruct (digit_is_plain c Hc) as (_ & _ & H1 & H2 & H3 & H4 & H5 & H6 & _).
    cbn [append strconv.special]. rewrite H1, H2, H3, H4, H5, H6. reflexivity. }
  rewrite Hsp, Hr, Hun.
  assert (Hsg : signed false (strconv.float_of_parts p)).
  { unfold strconv.float_of_parts. rewrite Hhex, Hneg.
    destruct (strconv.mant_val p); try exact eq_refl.
    destruct (0 <=? strconv.exp_val p); apply round_ratio_signed. }
  cbv zeta. destruct (strconv.float_of_parts p) as [sg|sg| |sg m e]; simpl in *;
    try contradiction; subst; auto.
Qed.

(** ** The order of [float64] *)

Ltac rank_cases :=
  let Hc := fresh "Hc" in
  let Hx := fresh "Hx" in
  let Hy := fresh "Hy" in
  let Hr := fresh "Hr" in
  split;
  [ intros Hc; try discriminate Hc; repeat split; try reflexivity; lia
  | intros (Hx & Hy & Hr); try discriminate Hx; try discriminate Hy;
    try reflexivity; exfalso; lia ].

Lemma flt_rank (x y : float64) :
  flt x y = true <-> isNaN x = false /\ isNaN y = false /\ rank_lt (rank x) (rank y).
Proof.
  unfold flt, SFltb, SFcompare, rank_lt.
  destruct x as [sx|sx| |sx mx ex], y as [sy|sy| |sy my ey];
    try destruct sx; try destruct sy;
    try change (Pos.compare_cont Eq mx my) with (mx ?= my)%positive;
    try destruct (Z.compare_spec ex ey);
    try destruct (Pos.compare_spec mx my);
    cbn [rank isNaN fst snd CompOpp]; rank_cases.
Qed.

Lemma feq_rank (x y : float64) :
  feq x y = true <-> isNaN x = false /\ isNaN y = false /\ rank x = rank y.
Proof.
  unfold feq, SFeqb, SFcompare.
  destruct x as [sx|sx| |sx mx ex], y as [sy|sy| |sy my ey];
    try destruct sx; try destruct sy;
    try change (Pos.compare_cont Eq mx my) with (mx ?= my)%positive;
    try destruct (Z.compare_spec ex ey);
    try destruct (Pos.compare_spec mx my);
    cbn [rank isNaN fst snd CompOpp];
    (split;
     [ intros Hc; try discriminate Hc; repeat split; try reflexivity; subst; reflexivity
     | intros (Hx & Hy & Hr); try discriminate Hx; try discriminate Hy;
       try reflexivity; exfalso; inversion Hr; lia ]).
Qed.

Lemma feq_refl (x : float64) : isNaN x = false -> feq x x = true.
Proof. intros H. apply feq_rank. auto. Qed.

Lemma feq_sym (x y : float64) : feq x y = feq y x.
Proof.
  destruct (feq x y) eqn:E1, (feq y x) eqn:E2; try reflexivity.
  - apply feq_rank in E1. destruct E1 as (? & ? & ?).
    rewrite <- E2. symmetry. apply feq_rank. auto.
  - apply feq_rank in E2. destruct E2 as (? & ? & ?).
    rewrite <- E1. apply feq_rank. auto.
Qed.

Lemma feq_trans (x y z : float64) : feq x y = true -> feq y z = true -> feq x z = true.
Proof.
  rewrite !feq_rank. intros (? & ? & E1) (? & ? & E2). rewrite E1, E2. auto.
Qed.

Lemma flt_irrefl (x : float64) : flt x x = false.
Proof.
  destruct (flt x x) eqn:E; [|reflexivity].
  apply flt_rank in E. destruct E as (_ & _ & E). unfold rank_lt in E. lia.
Qed.

Lemma flt_trans (x y z : float64) : flt x y = true -> flt y z = true -> flt x z = true.
Proof.
  rewrite !flt_rank. unfold rank_lt. intros (? & ? & E1) (? & ? & E2).
  repeat split; auto. lia.
Qed.

Lemma flt_asym (x y : float64) : flt x y = true -> flt y x = false.
Proof.
  intros H. destruct (flt y x) eqn:E; [|reflexivity].
  rewrite <- (flt_irrefl x). symmetry. exact (flt_trans _ _ _ H E).
Qed.

(** Two floats that are not NaN are equal, or one is below the other. *)
Lemma flt_total (x y : float64) :
  isNaN x = false -> isNaN y = false ->
  flt x y = true \/ feq x y = true \/ flt y x = true.
Proof.
  intros Hx Hy. rewrite !flt_rank, feq_rank. unfold rank_lt.
  destruct (rank x) as [[a1 a2] a3] eqn:Ex, (rank y) as [[b1 b2] b3] eqn:Ey. simpl.
  destruct (Z.lt_trichotomy a1 b1) as [?|[?|?]];
  destruct (Z.lt_trichotomy a2 b2) as [?|[?|?]];
  destruct (Z.lt_trichotomy a3 b3) as [?|[?|?]];
    try (left; repeat split; auto; lia);
    try (right; right; repeat split; auto; lia).
  right; left. subst. auto.
Qed.

Lemma feq_flt_l (x y z : float64) : feq x y = true -> flt x z = flt y z.
Proof.
  intros E. apply feq_rank in E. destruct E as (Hx & Hy & E).
  destruct (flt x z) eqn:E1, (flt y z) eqn:E2; try reflexivity.
  - rewrite <- E2. symmetry. apply flt_rank. apply flt_rank in E1. rewrite <- E. tauto.
  - rewrite <- E1. apply flt_rank. apply flt_rank in E2. rewrite E. tauto.
Qed.

Lemma feq_flt_r (x y z : float64) : feq x y = true -> flt z x = flt z y.
Proof.
  intros E. apply feq_rank in E. destruct E as (Hx & Hy & E).
  destruct (flt z x) eqn:E1, (flt z y) eqn:E2; try reflexivity.
  - rewrite <- E2. symmetry. apply flt_rank. apply flt_rank in E1. rewrite <- E. tauto.
  - rewrite <- E1. apply flt_rank. apply flt_rank in E2. rewrite E. tauto.
Qed.

Lemma feq_not_flt (x y : float64) : feq x y = true -> flt x y = false.
Proof.
  intros E. rewrite (feq_flt_l _ _ _ E). apply flt_irrefl.
Qed.

Lemma signed_not_nan (s : bool) (x : float64) : signed s x -> isNaN x = false.
Proof. destruct x; simpl; [reflexivity | reflexivity | contradiction | reflexivity]. Qed.

(** ** The bucket map *)

Lemma map_get_set (m : bucketMap) (k q : float64) (v : Z) :
  map_get (map_set m k v) q = if feq k q then v else map_get m q.
Proof.
  induction m as [|[k' v'] m IH]; simpl.
  - reflexivity.
  - destruct (feq k' k) eqn:Ek; simpl.
    + destruct (feq k q) eqn:Eq; [reflexivity|].
      destruct (feq k' q) eqn:Eq'; [|reflexivity].
      rewrite feq_sym in Ek. rewrite (feq_trans _ _ _ Ek Eq') in Eq. discriminate.
    + rewrite IH. destruct (feq k' q) eqn:Eq'; [|reflexivity].
      destruct (feq k q) eqn:Eq; [|reflexivity].
      rewrite feq_sym in Eq. rewrite (feq_trans _ _ _ Eq' Eq) in Ek. discriminate.
Qed.

Lemma distinct_inv (k : float64) (ks : list float64) :
  distinct (k :: ks) -> Forall (fun k' => feq k k' = false) ks /\ distinct ks.
Proof. intros H. inversion H; subst. auto. Qed.

(** Writing at a key of the map keeps the keys. *)
Lemma map_keys_set (m : bucketMap) (k : float64) (v : Z) :
  no_nan (map_keys m) -> distinct (map_keys m) -> In k (map_keys m) ->
  map_keys (map_set m k v) = map_keys m.
Proof.
  induction m as [|[k' v'] m IH]; simpl; [tauto|].
  intros Hn Hd Hin. inversion Hn as [|? ? Hk' Hn']; subst.
  apply distinct_inv in Hd. destruct Hd as [Hf Hd].
  destruct Hin as [-> | Hin].
  - rewrite (feq_refl _ Hk'). reflexivity.
  - rewrite Forall_forall in Hf. rewrite (Hf _ Hin). simpl.
    f_equal. apply IH; assumption.
Qed.

(** Writing at a key equal to none of the map adds an entry at the end. *)
Lemma map_set_fresh (m : bucketMap) (k : float64) (v : Z) :
  Forall (fun k' => feq k' k = false) (map_keys m) -> map_set m k v = m ++ [(k, v)].
Proof.
  induction m as [|[k' v'] m IH]; simpl; [reflexivity|].
  intros H. inversion H; subst. rewrite H2. f_equal. apply IH. assumption.
Qed.

(** ** [sort.Float64s] *)

Lemma insert_sorted_perm (x : float64) (l : list float64) :
  Permutation (insert_sorted x l) (x :: l).
Proof.
  induction l as [|y l IH]; simpl; [reflexivity|].
  destruct (less y x); [|reflexivity].
  rewrite IH. apply perm_swap.
Qed.

Lemma Float64s_perm (l : list float64) : Permutation (Float64s l) l.
Proof.
  induction l as [|x l IH]; simpl; [reflexivity|].
  rewrite insert_sorted_perm. constructor. exact IH.
Qed.

Lemma less_flt (x y : float64) : isNaN x = false -> less x y = flt x y.
Proof. intros H. unfold less. rewrite H. apply orb_false_r. Qed.

Lemma not_flt_trans (x y z : float64) :
  isNaN x = false -> isNaN y = false -> isNaN z = false ->
  flt y x = false -> flt z y = false -> flt z x = false.
Proof.
  intros Hx Hy Hz H1 H2. destruct (flt z x) eqn:E; [|reflexivity].
  destruct (flt_total x y Hx Hy) as [L | [L | L]].
  - rewrite (flt_trans _ _ _ E L) in H2. discriminate.
  - rewrite (feq_flt_r _ _ _ L) in E. congruence.
  - congruence.
Qed.

Lemma insert_sorted_ascending (x : float64) (l : list float64) :
  isNaN x = false -> no_nan l -> ascending l -> ascending (insert_sorted x l).
Proof.
  intros Hx Hn Hs. induction l as [|y l IH]; simpl.
  - repeat constructor.
  - inversion Hn as [|? ? Hy Hn']; subst. inversion Hs as [|? ? Hs' Hy']; subst.
    rewrite (less_flt _ _ Hy). destruct (flt y x) eqn:E.
    + constructor; [apply IH; assumption|].
      rewrite Forall_forall. intros z Hz.
      apply (Permutation_in _ (insert_sorted_perm x l)) in Hz.
      destruct Hz as [<- | Hz]; [apply flt_asym; exact E|].
      rewrite Forall_forall in Hy'. apply Hy'. exact Hz.
    + constructor; [exact Hs|]. constructor; [exact E|].
      rewrite Forall_forall in *. intros z Hz.
      apply (not_flt_trans x y z); auto.
Qed.

Lemma no_nan_perm (l l' : list float64) : Permutation l l' -> no_nan l -> no_nan l'.
Proof. intros HP. unfold no_nan. apply Permutation_Forall. exact HP. Qed.

Lemma Float64s_ascending (l : list float64) : no_nan l -> ascending (Float64s l).
Proof.
  induction l as [|x l IH]; intros Hn; simpl; [constructor|].
  inversion Hn; subst. apply insert_sorted_ascending; auto.
  apply (no_nan_perm l); [symmetry; apply Float64s_perm | assumption].
Qed.

Lemma distinct_app_one (l : list float64) (x : float64) :
  distinct l -> Forall (fun k => feq k x = false) l -> distinct (l ++ [x]).
Proof.
  induction l as [|y l IH]; simpl; intros Hd Hf.
  - repeat constructor.
  - apply distinct_inv in Hd. destruct Hd as [Hy Hd]. inversion Hf; subst.
    constructor; [|apply IH; assumption].
    apply Forall_app. split; [exact Hy | repeat constructor; assumption].
Qed.

Lemma distinct_perm (l l' : list float64) : Permutation l l' -> distinct l -> distinct l'.
Proof.
  induction 1 as [| x l l' HP IH | x y l | l l' l'' HP1 IH1 HP2 IH2]; intros Hd.
  - exact Hd.
  - apply distinct_inv in Hd. destruct Hd as [Hx Hd].
    constructor; [apply (Permutation_Forall HP); exact Hx | apply IH; exact Hd].
  - apply distinct_inv in Hd. destruct Hd as [Hy Hd].
    apply distinct_inv in Hd. destruct Hd as [Hx Hd].
    inversion Hy; subst.
    constructor; [constructor; [rewrite feq_sym; assumption | assumption]|].
    constructor; assumption.
  - auto.
Qed.

(** ** The conversion to cumulative counts *)

Lemma cumulate_other (ks : list float64) (m : bucketMap) (prev : Z) (q : float64) :
  Forall (fun k => feq q k = false) ks ->
  map_get (cumulate ks m prev) q = map_get m q.
Proof.
  revert m prev. induction ks as [|k ks IH]; intros m prev H; simpl; [reflexivity|].
  inversion H; subst. rewrite IH by assumption.
  rewrite map_get_set, feq_sym. rewrite H2. reflexivity.
Qed.

Lemma cumulate_keys (ks : list float64) (m : bucketMap) (prev : Z) :
  no_nan (map_keys m) -> distinct (map_keys m) -> incl ks (map_keys m) ->
  map_keys (cumulate ks m prev) = map_keys m.
Proof.
  revert m prev. induction ks as [|k ks IH]; intros m prev Hn Hd Hi; simpl; [reflexivity|].
  assert (Hk : map_keys (map_set m k (add64 (map_get m k) prev)) = map_keys m)
    by (apply map_keys_set; auto; apply Hi; left; reflexivity).
  rewrite IH; rewrite Hk; auto.
  intros x Hx. apply Hi. right. exact Hx.
Qed.

Lemma sum_at_set (m : bucketMap) (k : float64) (v : Z) (ks : list float64) :
  Forall (fun k' => feq k k' = false) ks -> sum_at (map_set m k v) ks = sum_at m ks.
Proof.
  induction 1 as [|k' ks Hk _ IH]; simpl; [reflexivity|].
  rewrite map_get_set, Hk, IH. reflexivity.
Qed.

Lemma sum_at_nonneg (m : bucketMap) (ks : list float64) :
  Forall (fun k => 0 <= map_get m k) ks -> 0 <= sum_at m ks.
Proof. induction 1; simpl; lia. Qed.

Lemma add64_small (a b : Z) : 0 <= a + b < two64 -> add64 a b = a + b.
Proof. intros H. unfold add64. apply Z.mod_small. exact H. Qed.

Lemma cumulable_step (k : float64) (ks : list float64) (m : bucketMap) (prev : Z) :
  cumulable (k :: ks) m prev ->
  let c := map_get m k + prev in
  let m' := map_set m k (add64 (map_get m k) prev) in
  add64 (map_get m k) prev = c /\ map_get m' k = c /\ prev <= c /\
  c + sum_at m ks < two64 /\
  Forall (fun k' => feq k k' = false) ks /\ cumulable ks m' c.
Proof.
  intros (Hn & Hd & Ha & Hp & Hv & Hs) c m'.
  inversion Hn as [|? ? Hk Hn']; subst. apply distinct_inv in Hd. destruct Hd as [Hf Hd].
  inversion Ha as [|? ? Ha' _]; subst. inversion Hv as [|? ? Hvk Hv']; subst.
  simpl in Hs. pose proof (sum_at_nonneg m ks Hv') as Hs0.
  assert (Hc : add64 (map_get m k) prev = c) by (apply add64_small; unfold c; lia).
  split; [exact Hc|]. split.
  { unfold m'. rewrite map_get_set, (feq_refl _ Hk). exact Hc. }
  split; [unfold c; lia|]. split; [unfold c; lia|]. split; [exact Hf|].
  unfold cumulable. repeat split; auto.
  - unfold c. lia.
  - unfold m'. rewrite Forall_forall in *. intros k' Hk'.
    rewrite map_get_set, (Hf _ Hk'). auto.
  - unfold m'. rewrite (sum_at_set _ _ _ _ Hf). unfold c. lia.
Qed.

Lemma cumulate_bounds (ks : list float64) (m : bucketMap) (prev : Z) :
  cumulable ks m prev ->
  forall k, In k ks ->
    prev <= map_get (cumulate ks m prev) k <= prev + sum_at m ks.
Proof.
  revert m prev. induction ks as [|k0 ks IH]; intros m prev Hc k Hin; [contradiction|].
  pose proof (cumulable_step _ _ _ _ Hc) as (Hadd & Hget & Hle & Hlt & Hf & Hc').
  assert (Hs0 : 0 <= sum_at m ks).
  { destruct Hc as (_ & _ & _ & _ & Hv & _). inversion Hv; subst.
    apply sum_at_nonneg. assumption. }
  cbn [cumulate sum_at fold_right]. fold (sum_at m ks). rewrite Hget.
  destruct Hin as [<- | Hin].
  - rewrite cumulate_other, Hget by exact Hf. lia.
  - specialize (IH _ _ Hc' k Hin). rewrite (sum_at_set _ _ _ _ Hf) in IH. lia.
Qed.

(** Counts grow with the keys. *)
Lemma cumulate_monotone (ks : list float64) (m : bucketMap) (prev : Z) :
  cumulable ks m prev ->
  forall k1 k2, In k1 ks -> In k2 ks -> flt k1 k2 = true ->
    map_get (cumulate ks m prev) k1 <= map_get (cumulate ks m prev) k2.
Proof.
  revert m prev. induction ks as [|k0 ks IH]; intros m prev Hc k1 k2 H1 H2 Hlt;
    [contradiction|].
  pose proof (cumulable_step _ _ _ _ Hc) as (Hadd & Hget & Hle & Hlt' & Hf & Hc').
  destruct Hc as (_ & _ & Ha & _). inversion Ha as [|? ? _ Hasc]; subst.
  rewrite Forall_forall in Hasc.
  cbn [cumulate]. rewrite Hget.
  destruct H1 as [<- | H1], H2 as [<- | H2].
  - rewrite flt_irrefl in Hlt. discriminate.
  - rewrite (cumulate_other ks _ _ k0 Hf), Hget.
    apply (cumulate_bounds _ _ _ Hc' k2 H2).
  - rewrite (Hasc _ H1) in Hlt. discriminate.
  - apply IH; assumption.
Qed.

(** The greatest key holds the sum of all the counts. *)
Lemma cumulate_greatest (ks : list float64) (m : bucketMap) (prev : Z) :
  cumulable ks m prev ->
  forall k, In k ks -> (forall k', In k' ks -> flt k k' = false) ->
    map_get (cumulate ks m prev) k = prev + sum_at m ks.
Proof.
  revert m prev. induction ks as [|k0 ks IH]; intros m prev Hc k Hin Hmax;
    [contradiction|].
  pose proof (cumulable_step _ _ _ _ Hc) as (Hadd & Hget & Hle & Hlt' & Hf & Hc').
  destruct Hc as (Hn & _ & Ha & _). inversion Ha as [|? ? _ Hasc]; subst.
  inversion Hn as [|? ? Hk0 Hn']; subst.
  rewrite Forall_forall in Hasc, Hf, Hn'.
  cbn [cumulate sum_at fold_right]. fold (sum_at m ks). rewrite Hget.
  destruct ks as [|k1 ks].
  - destruct Hin as [<- | []]. simpl. rewrite Hget. lia.
  - assert (Hin' : In k (k1 :: ks)).
    { destruct Hin as [<- | Hin]; [exfalso | exact Hin].
      assert (I1 : In k1 (k1 :: ks)) by (left; reflexivity).
      destruct (flt_total k0 k1 Hk0 (Hn' _ I1)) as [L | [L | L]].
      - rewrite Hmax in L; [discriminate | right; exact I1].
      - rewrite (Hf _ I1) in L. discriminate.
      - rewrite (Hasc _ I1) in L. discriminate. }
    rewrite (IH _ _ Hc' k Hin').
    + rewrite sum_at_set; [lia|]. rewrite Forall_forall. exact Hf.
    + intros k' Hk'. apply Hmax. right. exact Hk'.
Qed.

(** ** The bucket lines of a stream *)

(** One line: what it does to the histogram variables, and to the channel. *)
Lemma scan_line_histogram (text : string) (st st' : scrape) :
  scan_line text st = (st', None) ->
  match bucket_of_line text with
  | Some b =>
      histogramCount st' = add64 (histogramCount st) (observations b) /\
      histogramSum st' = fadd (histogramSum st) (contribution b) /\
      histogramBuckets st' = map_set (histogramBuckets st) (upperBound b) (observations b)
  | None =>
      histogramCount st' = histogramCount st /\
      histogramSum st' = histogramSum st /\
      histogramBuckets st' = histogramBuckets st
  end.
Proof.
  unfold scan_line, bucket_of_line.
  destruct (Split text "=") as [|key [|value [|x l]]]; try discriminate.
  destruct (resolve unboundMetrics key value (ch st)) as [ch' [e|]]; [discriminate|].
  destruct (regexp.FindStringSubmatch histogramPattern key) as [matches|].
  - destruct (strconv.ParseUint value) as [n [e|]]; [discriminate|].
    intros H. inversion H; subst. simpl. auto.
  - intros H. inversion H; subst. simpl. auto.
Qed.

Lemma scan_line_channel (text : string) (st st' : scrape) (r : option error) :
  scan_line text st = (st', r) ->
  exists new, ch st' = ch st ++ new /\ Forall is_sample new /\
              (List.length new <= 1)%nat /\ (r <> None -> new = []).
Proof.
  unfold scan_line.
  destruct (Split text "=") as [|key [|value [|x l]]];
    try solve [intros E; inversion E; subst; exists []; rewrite app_nil_r;
               repeat split; simpl; auto].
  destruct (resolve_adds unboundMetrics key value (ch st)) as (new & E & Hl & Hs & Hn).
  fold is_sample in Hs.
  destruct (regexp.FindStringSubmatch histogramPattern key) as [matches|] eqn:Hf.
  - rewrite (resolve_unmatched _ _ value (ch st) (histogram_key_unmatched _ _ Hf)).
    destruct (strconv.ParseUint value) as [n [e|]];
      intros E'; inversion E'; subst; simpl; exists []; rewrite app_nil_r; auto.
  - destruct (resolve unboundMetrics key value (ch st)) as [ch' [e|]]; simpl in *;
      intros E'; inversion E'; subst; simpl; exists new; repeat split; auto.
Qed.

Lemma fold_left_app_one {A B : Type} (f : A -> B -> A) (o : option B) (l : list B) (a : A) :
  fold_left f (match o with Some b => [b] | None => [] end ++ l) a =
  fold_left f l (match o with Some b => f a b | None => a end).
Proof. destruct o; reflexivity. Qed.

(** The loop: the histogram variables fold over the bucket lines. *)
Lemma scan_histogram (texts : list string) (st st' : scrape) :
  scan texts st = (st', None) ->
  histogramCount st' =
    fold_left (fun n b => add64 n (observations b)) (bucket_lines texts) (histogramCount st) /\
  histogramSum st' =
    fold_left (fun s b => fadd s (contribution b)) (bucket_lines texts) (histogramSum st) /\
  histogramBuckets st' =
    fold_left (fun m b => map_set m (upperBound b) (observations b)) (bucket_lines texts)
              (histogramBuckets st).
Proof.
  revert st. induction texts as [|text texts IH]; intros st; simpl.
  - intros E. inversion E; subst. auto.
  - destruct (scan_line text st) as [st1 [e|]] eqn:E1; [discriminate|].
    intros E. destruct (IH _ E) as (Hc & Hs & Hb).
    apply scan_line_histogram in E1. rewrite !fold_left_app_one.
    rewrite Hc, Hs, Hb.
    destruct (bucket_of_line text) as [b|]; destruct E1 as (-> & -> & ->); auto.
Qed.

(** The loop sends samples only, whether it ends or returns an error. *)
Lemma scan_channel (texts : list string) (st st' : scrape) (r : option error) :
  scan texts st = (st', r) ->
  exists new, ch st' = ch st ++ new /\ Forall is_sample new.
Proof.
  revert st. induction texts as [|text texts IH]; intros st; simpl.
  - intros E. inversion E; subst. exists []. rewrite app_nil_r. auto.
  - destruct (scan_line text st) as [st1 [e|]] eqn:E1.
    + intros E. inversion E; subst.
      destruct (scan_line_channel _ _ _ _ E1) as (new & -> & Hs & _).
      exists new. auto.
    + intros E. destruct (IH _ E) as (new2 & -> & Hs2).
      destruct (scan_line_channel _ _ _ _ E1) as (new1 & -> & Hs1 & _).
      exists (new1 ++ new2). rewrite app_assoc. split; [reflexivity|].
      apply Forall_app. auto.
Qed.

Lemma parseUint_loop_range (s : string) (n v : Z) :
  0 <= n < two64 -> strconv.parseUint_loop s n = (v, None) -> 0 <= v < two64.
Proof.
  revert n. induction s as [|c s IH]; intros n Hn; simpl.
  - intros E. inversion E; subst. exact Hn.
  - destruct (is_digit c); [|discriminate].
    destruct (strconv.cutoff <=? n); [discriminate|].
    destruct ((add64 (n * 10) (digit_val c) <? n * 10)
              || (strconv.maxUint64 <? add64 (n * 10) (digit_val c))); [discriminate|].
    apply IH. unfold add64. apply Z.mod_pos_bound. reflexivity.
Qed.

Lemma ParseUint_range (s : string) (v : Z) :
  strconv.ParseUint s = (v, None) -> 0 <= v < two64.
Proof.
  unfold strconv.ParseUint. destruct s as [|c s]; [discriminate|].
  destruct (strconv.parseUint_loop (String c s) 0) as [n [e|]] eqn:E; [discriminate|].
  intros H. inversion H; subst.
  apply (parseUint_loop_range _ 0 _ ltac:(unfold two64; lia) E).
Qed.

(** The bounds of a recognized bucket line are numbers, its count fits
    64 bits. *)
Lemma bucket_of_line_wf (text : string) (b : bucketLine) :
  bucket_of_line text = Some b ->
  signed false (lowerBound b) /\ signed false (upperBound b) /\
  0 <= observations b < two64.
Proof.
  unfold bucket_of_line.
  destruct (Split text "=") as [|key [|value [|x l]]]; try discriminate.
  destruct (regexp.FindStringSubmatch histogramPattern key) as [matches|] eqn:Hf;
    [|discriminate].
  destruct (strconv.ParseUint value) as [n [e|]] eqn:Hu; [discriminate|].
  intros E. inversion E; subst. simpl.
  destruct (histogram_shape _ _ Hf) as (a & b0 & c & d & Ha & Hb & Hc & Hd & _ & ->).
  simpl. split; [apply (ParseFloat_bound a b0 Ha Hb)|].
  split; [apply (ParseFloat_bound c d Hc Hd) | apply (ParseUint_range _ _ Hu)].
Qed.

Lemma bucket_lines_wf (texts : list string) :
  Forall (fun b => signed false (lowerBound b) /\ signed false (upperBound b) /\
                   0 <= observations b < two64) (bucket_lines texts).
Proof.
  unfold bucket_lines. rewrite Forall_forall. intros b Hb.
  apply in_flat_map in Hb. destruct Hb as (text & _ & Hb).
  destruct (bucket_of_line text) as [b'|] eqn:E; [|contradiction].
  destruct Hb as [<- | []]. apply (bucket_of_line_wf _ _ E).
Qed.

(** ** The line parser *)

Lemma Split_length (s : string) (sep : ascii) :
  List.length (Split s sep) = S (count_byte sep s).
Proof.
  induction s as [|c s IH]; simpl; [reflexivity|].
  destruct (Ascii.eqb c sep); simpl; [rewrite IH; reflexivity|].
  destruct (Split s sep) as [|f fs]; simpl in *; [discriminate | exact IH].
Qed.

Lemma Split_one (s : string) (sep : ascii) (value : string) :
  Split s sep = [value] -> s = value /\ count_byte sep value = O.
Proof.
  revert value. induction s as [|c s IH]; intros value; simpl.
  - intros E. inversion E. auto.
  - destruct (Ascii.eqb c sep) eqn:Ec.
    + pose proof (Split_length s sep) as Hl. intros E. inversion E as [[Hk Hv]].
      rewrite Hv in Hl. discriminate.
    + pose proof (Split_length s sep) as Hl.
      destruct (Split s sep) as [|f fs]; [discriminate|].
      intros E. inversion E; subst. destruct (IH f eq_refl) as (-> & Hc).
      simpl. rewrite Ec. auto.
Qed.

Lemma Split_two (s : string) (sep : ascii) (key value : string) :
  Split s sep = [key; value] ->
  s = (key ++ String sep value)%string /\
  count_byte sep key = O /\ count_byte sep value = O.
Proof.
  revert key. induction s as [|c s IH]; intros key; simpl; [discriminate|].
  destruct (Ascii.eqb c sep) eqn:Ec.
  - intros E. inversion E as [[Hk Hv]]. apply Ascii.eqb_eq in Ec. subst c.
    destruct (Split_one _ _ _ Hv) as (-> & Hc). auto.
  - destruct (Split s sep) as [|f fs] eqn:Es; [discriminate|].
    intros E. inversion E; subst. destruct (IH f eq_refl) as (-> & Hk & Hv).
    simpl. rewrite Ec. auto.
Qed.

Lemma ParseFloat_error (s : string) (f : float64) (e : strconv.NumError) :
  strconv.ParseFloat s = (f, Some e) ->
  strconv.Func e = "ParseFloat" /\ strconv.Num e = s.
Proof.
  unfold strconv.ParseFloat.
  destruct (strconv.special s) as [[f0 n]|].
  - destruct (n =? String.length s)%nat; intros E; inversion E; subst; auto.
  - destruct (strconv.readFloat s) as [p|]; [|intros E; inversion E; subst; auto].
    destruct (strconv.unread p); [|intros E; inversion E; subst; auto].
    cbv zeta. destruct (isInf (strconv.float_of_parts p));
      intros E; inversion E; subst; auto.
Qed.

Lemma ParseUint_error (s : string) (n : Z) (e : strconv.NumError) :
  strconv.ParseUint s = (n, Some e) ->
  strconv.Func e = "ParseUint" /\ strconv.Num e = s.
Proof.
  unfold strconv.ParseUint. destruct s as [|c s].
  - intros E. inversion E; subst. auto.
  - destruct (strconv.parseUint_loop (String c s) 0) as [n' [e'|]];
      intros E; inversion E; subst; auto.
Qed.

(** A line with two fields fails with a conversion error or not at all. *)
Lemma scan_line_two_fields (text key value : string) (st : scrape) :
  Split text "=" = [key; value] ->
  forall st' err, scan_line text st = (st', Some err) ->
    st' = st /\
    exists e, err = NumError e /\ strconv.Num e = value /\
              (strconv.Func e = "ParseFloat" \/ strconv.Func e = "ParseUint").
Proof.
  intros Hs st' err. unfold scan_line. rewrite Hs.
  destruct (regexp.FindStringSubmatch histogramPattern key) as [matches|] eqn:Hf.
  - rewrite (resolve_unmatched _ _ value (ch st) (histogram_key_unmatched _ _ Hf)).
    destruct (strconv.ParseUint value) as [n [e|]] eqn:Hu; intros E; inversion E; subst.
    split; [apply scrape_eta|]. exists e. split; [reflexivity|].
    destruct (ParseUint_error _ _ _ Hu). auto.
  - destruct (catalog_split unboundMetrics key)
      as [Hu | (before & metric & after & matches & Hc & Hb & Hm)].
    + rewrite (resolve_unmatched _ _ value (ch st) Hu). discriminate.
    + rewrite Hc, (resolve_first_match _ _ _ _ value _ (ch st) Hb Hm).
      destruct (strconv.ParseFloat value) as [v [e|]] eqn:Hp; intros E; inversion E; subst.
      split; [apply scrape_eta|]. exists e. split; [reflexivity|].
      destruct (ParseFloat_error _ _ _ Hp). auto.
Qed.

(** The scrape returns at the first line that fails, with what the lines
    before it sent. *)
Lemma scan_abort (before after : list string) (text : string) (st0 st st' : scrape)
      (err : error) :
  scan before st0 = (st, None) -> scan_line text st = (st', Some err) ->
  scan (before ++ text :: after) st0 = (st', Some err).
Proof. intros H1 H2. rewrite scan_app, H1. simpl. rewrite H2. reflexivity. Qed.

Lemma scan_skip (before after : list string) (text : string) (st0 : scrape) :
  (forall st, scan_line text st = (st, None)) ->
  scan (before ++ text :: after) st0 = scan (before ++ after) st0.
Proof.
  intros H. rewrite !scan_app. destruct (scan before st0) as [st [e|]]; [reflexivity|].
  simpl. rewrite H. reflexivity.
Qed.

(** A line whose key matches no pattern changes nothing. *)
Lemma scan_line_unrecognized (text key value : string) (st : scrape) :
  Split text "=" = [key; value] ->
  unmatched unboundMetrics key ->
  regexp.FindStringSubmatch histogramPattern key = None ->
  scan_line text st = (st, None).
Proof.
  intros Hs Hu Hh. unfold scan_line.
  rewrite Hs, (resolve_unmatched _ _ value (ch st) Hu), Hh, scrape_eta. reflexivity.
Qed.

(** ** The order of the iteration over the map does not matter

    Go leaves the order in which [range] meets the keys of a map open.  The
    keys of the bucket map are never NaN and pairwise different, so that
    sorting them gives the same list whatever the order was. *)

Lemma map_set_keys_in (m : bucketMap) (k x : float64) (v : Z) :
  In x (map_keys (map_set m k v)) -> x = k \/ In x (map_keys m).
Proof.
  induction m as [|[k' v'] m IH]; simpl.
  - intros [<- | []]. auto.
  - destruct (feq k' k); simpl.
    + intros [<- | H]; auto.
    + intros [<- | H]; auto. destruct (IH H); auto.
Qed.

Lemma map_set_keys_wf (m : bucketMap) (k : float64) (v : Z) :
  isNaN k = false -> no_nan (map_keys m) -> distinct (map_keys m) ->
  no_nan (map_keys (map_set m k v)) /\ distinct (map_keys (map_set m k v)).
Proof.
  intros Hk. induction m as [|[k' v'] m IH]; simpl; intros Hn Hd.
  - split; repeat constructor. exact Hk.
  - inversion Hn as [|? ? Hk' Hn']; subst.
    apply distinct_inv in Hd. destruct Hd as [Hf Hd].
    destruct (feq k' k) eqn:E; simpl.
    + split; [constructor; assumption|]. constructor; [|exact Hd].
      rewrite Forall_forall in *. intros x Hx. specialize (Hf x Hx).
      destruct (feq k x) eqn:E'; [|reflexivity].
      rewrite (feq_trans _ _ _ E E') in Hf. discriminate.
    + destruct (IH Hn' Hd) as [IHn IHd].
      split; [constructor; assumption|]. constructor; [|exact IHd].
      rewrite Forall_forall in *. intros x Hx.
      destruct (map_set_keys_in _ _ _ _ Hx) as [-> | Hx']; [exact E | exact (Hf x Hx')].
Qed.

Lemma scan_line_keys_wf (text : string) (st st' : scrape) (r : option error) :
  scan_line text st = (st', r) ->
  no_nan (map_keys (histogramBuckets st)) /\ distinct (map_keys (histogramBuckets st)) ->
  no_nan (map_keys (histogramBuckets st')) /\ distinct (map_keys (histogramBuckets st')).
Proof.
  unfold scan_line.
  destruct (Split text "=") as [|key [|value [|x l]]];
    try solve [intros E; inversion E; subst; auto].
  destruct (resolve unboundMetrics key value (ch st)) as [ch' [e|]];
    [intros E; inversion E; subst; auto|].
  destruct (regexp.FindStringSubmatch histogramPattern key) as [matches|] eqn:Hf;
    [|intros E; inversion E; subst; auto].
  destruct (strconv.ParseUint value) as [n [e|]];
    intros E; inversion E; subst; simpl; auto.
  intros [Hn Hd]. apply map_set_keys_wf; auto.
  destruct (histogram_shape _ _ Hf) as (a & b & c & d & _ & _ & Hc & Hd' & _ & ->).
  simpl. apply (signed_not_nan false). apply (ParseFloat_bound c d Hc Hd').
Qed.

Lemma scan_keys_wf (texts : list string) (st st' : scrape) (r : option error) :
  scan texts st = (st', r) ->
  no_nan (map_keys (histogramBuckets st)) /\ distinct (map_keys (histogramBuckets st)) ->
  no_nan (map_keys (histogramBuckets st')) /\ distinct (map_keys (histogramBuckets st')).
Proof.
  revert st. induction texts as [|text texts IH]; intros st; simpl.
  - intros E. inversion E; subst. auto.
  - destruct (scan_line text st) as [st1 [e|]] eqn:E1.
    + intros E. inversion E; subst. apply (scan_line_keys_wf _ _ _ _ E1).
    + intros E H. apply (IH _ E). apply (scan_line_keys_wf _ _ _ _ E1 H).
Qed.

Lemma ascending_unique (l l' : list float64) :
  Permutation l l' -> ascending l -> ascending l' -> no_nan l -> distinct l -> l = l'.
Proof.
  revert l'. induction l as [|x t IH]; intros l' HP Ha Ha' Hn Hd.
  - apply Permutation_nil in HP. subst. reflexivity.
  - destruct l' as [|y t']; [apply Permutation_sym, Permutation_nil in HP; discriminate|].
    inversion Ha as [|? ? Hat Hx]; subst. inversion Ha' as [|? ? Hat' Hy]; subst.
    inversion Hn as [|? ? Hnx Hnt]; subst.
    apply distinct_inv in Hd. destruct Hd as [Hf Hd].
    rewrite Forall_forall in Hx, Hy, Hf, Hnt.
    assert (E : x = y).
    { assert (Hy' : In y (x :: t))
        by (apply (Permutation_in _ (Permutation_sym HP)); left; reflexivity).
      destruct Hy' as [E | Hy']; [exact E|].
      assert (Hx' : In x (y :: t')) by (apply (Permutation_in _ HP); left; reflexivity).
      destruct Hx' as [E | Hx']; [symmetry; exact E|]. exfalso.
      destruct (flt_total x y Hnx (Hnt _ Hy')) as [L | [L | L]].
      - rewrite (Hy _ Hx') in L. discriminate.
      - rewrite (Hf _ Hy') in L. discriminate.
      - rewrite (Hx _ Hy') in L. discriminate. }
    subst y. f_equal. apply IH; auto.
    + apply (Permutation_cons_inv HP).
    + unfold no_nan. rewrite Forall_forall. exact Hnt.
Qed.

Lemma Float64s_order_free (l l' : list float64) :
  Permutation l l' -> no_nan l -> distinct l -> Float64s l = Float64s l'.
Proof.
  intros HP Hn Hd. apply ascending_unique.
  - rewrite (Float64s_perm l), (Float64s_perm l'). exact HP.
  - apply Float64s_ascending. exact Hn.
  - apply Float64s_ascending. apply (no_nan_perm l); assumption.
  - apply (no_nan_perm l); [symmetry; apply Float64s_perm | exact Hn].
  - apply (distinct_perm l); [symmetry; apply Float64s_perm | exact Hd].
Qed.

(** In whatever order the keys of the bucket map are met, the sorted keys
    are the same, and with them the histogram that is sent. *)
Lemma bucket_keys_order_free (texts : list string) (ch0 : list Metric) (st : scrape)
      (r : option error) (ks : list float64) :
  scan texts (start ch0) = (st, r) ->
  Permutation ks (map_keys (histogramBuckets st)) ->
  Float64s ks = Float64s (map_keys (histogramBuckets st)).
Proof.
  intros Hscan HP.
  destruct (scan_keys_wf _ _ _ _ Hscan) as [Hn Hd]; [split; constructor|].
  symmetry. apply Float64s_order_free; [symmetry; exact HP | exact Hn | exact Hd].
Qed.

(** The sum of the two bucket lines of the spec does not depend on whether
    the product and the sum are rounded one after the other or at once,
    which Go leaves to the compiler: it is the [float64] nearest to five
    times the [float64] nearest to 0.000001. *)
Lemma two_bucket_sum_exact :
  f64 "0.000001" = S754_finite false 4722366482869645 (-72) /\
  fadd (fmul (fsub (f64 "0.000001") (f64 "0.0")) (float64_of_uint64 2))
       (fmul (fsub (f64 "0.000002") (f64 "0.000001")) (float64_of_uint64 3)) =
  binary_normalize prec emax (5 * 4722366482869645) (-72) false.
Proof. vm_compute. auto. Qed.

(** ** The scrape as a whole *)

(** What [CollectFromReader] returns when the loop returns an error, and
    when it ends. *)
Lemma CollectFromReader_error (file : Reader) (ch0 : list Metric) (st : scrape)
      (err : error) :
  scan (lines file) (start ch0) = (st, Some err) ->
  CollectFromReader file ch0 = (ch st, Some err).
Proof. intros E. unfold CollectFromReader. fold (start ch0). rewrite E. reflexivity. Qed.

Lemma CollectFromReader_end (file : Reader) (ch0 : list Metric) (st : scrape) :
  scan (lines file) (start ch0) = (st, None) ->
  CollectFromReader file ch0 =
  (ch st ++ [MustNewConstHistogram unboundHistogram (histogramCount st) (histogramSum st)
               (cumulate (Float64s (map_keys (histogramBuckets st)))
                         (histogramBuckets st) 0)],
   scanErr file).
Proof. intros E. unfold CollectFromReader. fold (start ch0). rewrite E. reflexivity. Qed.

Lemma is_sample_not_up (m : Metric) (v : float64) : is_sample m -> m <> up v.
Proof.
  intros (metric & v' & l & Hin & ->) E. unfold up, MustNewConstMetric in E.
  inversion E as [[Hd Ht Hv Hl]]. clear E Ht Hv Hl.
  assert (Hall : Forall (fun m => fqName (desc m) <> fqName unboundUpDesc) unboundMetrics)
    by (unfold unboundMetrics; repeat constructor; discriminate).
  rewrite Forall_forall in Hall. apply (Hall _ Hin). rewrite Hd. reflexivity.
Qed.

(** ** The accumulator over the bucket lines *)

Lemma fold_add64 (bs : list bucketLine) (a : Z) :
  fold_left (fun n b => add64 n (observations b)) bs (a mod two64) =
  (a + total bs) mod two64.
Proof.
  revert a. induction bs as [|b bs IH]; intros a; simpl.
  - unfold total. simpl. rewrite Z.add_0_r. reflexivity.
  - unfold add64 at 2. rewrite Zplus_mod_idemp_l, IH. unfold total. simpl.
    f_equal. lia.
Qed.

Lemma total_nonneg (bs : list bucketLine) :
  Forall (fun b => 0 <= observations b) bs -> 0 <= total bs.
Proof. unfold total. induction 1; simpl; lia. Qed.

Lemma fold_set_other (bs : list bucketLine) (m : bucketMap) (q : float64) :
  Forall (fun b => feq (upperBound b) q = false) bs ->
  map_get (fold_left (fun m b => map_set m (upperBound b) (observations b)) bs m) q =
  map_get m q.
Proof.
  revert m. induction bs as [|b bs IH]; intros m H; simpl; [reflexivity|].
  inversion H; subst. rewrite IH by assumption. rewrite map_get_set, H2. reflexivity.
Qed.

Lemma distinct_app_l (l1 l2 : list float64) (x : float64) :
  distinct (l1 ++ x :: l2) -> Forall (fun k => feq k x = false) l1.
Proof.
  induction l1 as [|y l1 IH]; simpl; intros H; [constructor|].
  apply distinct_inv in H. destruct H as [Hy H].
  constructor; [|apply IH; exact H].
  rewrite Forall_forall in Hy. apply Hy. apply in_or_app. right. left. reflexivity.
Qed.

(** With upper bounds that differ, each bucket line adds its entry. *)
Lemma fold_set_distinct (bs : list bucketLine) (m : bucketMap) :
  distinct (map_keys m ++ map upperBound bs) ->
  fold_left (fun m b => map_set m (upperBound b) (observations b)) bs m =
  m ++ map entry bs.
Proof.
  revert m. induction bs as [|b bs IH]; intros m H; simpl.
  - rewrite app_nil_r. reflexivity.
  - simpl in H. rewrite (map_set_fresh _ _ _ (distinct_app_l _ _ _ H)).
    rewrite IH.
    + rewrite <- app_assoc. reflexivity.
    + unfold map_keys in *. rewrite map_app, <- app_assoc. exact H.
Qed.

Lemma map_get_nonneg (m : bucketMap) (k : float64) :
  Forall (fun e => 0 <= snd e) m -> 0 <= map_get m k.
Proof.
  induction 1 as [|[k' v] m Hv _ IH]; simpl; [lia|].
  destruct (feq k' k); [exact Hv | exact IH].
Qed.

Lemma sum_at_perm (m : bucketMap) (ks ks' : list float64) :
  Permutation ks ks' -> sum_at m ks = sum_at m ks'.
Proof. induction 1; simpl; lia. Qed.

Lemma sum_at_cons (k : float64) (v : Z) (m : bucketMap) (ks : list float64) :
  Forall (fun k' => feq k k' = false) ks -> sum_at ((k, v) :: m) ks = sum_at m ks.
Proof.
  induction 1 as [|k' ks Hk _ IH]; simpl; [reflexivity|].
  rewrite Hk, IH. reflexivity.
Qed.

Lemma sum_at_self (m : bucketMap) :
  no_nan (map_keys m) -> distinct (map_keys m) ->
  sum_at m (map_keys m) = fold_right Z.add 0 (map snd m).
Proof.
  induction m as [|[k v] m IH]; simpl; intros Hn Hd; [reflexivity|].
  inversion Hn; subst. apply distinct_inv in Hd. destruct Hd as [Hf Hd].
  rewrite (feq_refl _ H1). fold (sum_at ((k, v) :: m) (map_keys m)).
  rewrite (sum_at_cons _ _ _ _ Hf), IH by assumption. reflexivity.
Qed.

Lemma is_sample_not_histogram (d : Desc) (count : Z) (sum : float64) (buckets : bucketMap) :
  ~ is_sample (ConstHistogram d count sum buckets).
Proof. intros (metric & v & l & _ & E). discriminate E. Qed.

(** The histogram a scrape sends on an empty channel is the one of the end
    of the loop. *)
Lemma sent_histogram (file : Reader) (d : Desc) (count : Z) (sum : float64)
      (buckets : bucketMap) :
  In (ConstHistogram d count sum buckets) (fst (CollectFromReader file [])) ->
  exists st,
    scan (lines file) (start []) = (st, None) /\
    count = histogramCount st /\ sum = histogramSum st /\
    buckets = cumulate (Float64s (map_keys (histogramBuckets st))) (histogramBuckets st) 0.
Proof.
  destruct (scan (lines file) (start [])) as [st [err|]] eqn:Hscan.
  - rewrite (CollectFromReader_error _ _ _ _ Hscan). simpl.
    destruct (scan_channel _ _ _ _ Hscan) as (new & -> & Hs). simpl.
    rewrite Forall_forall in Hs. intros Hin.
    destruct (is_sample_not_histogram _ _ _ _ (Hs _ Hin)).
  - rewrite (CollectFromReader_end _ _ _ Hscan). simpl.
    destruct (scan_channel _ _ _ _ Hscan) as (new & Hch & Hs). simpl in Hch.
    rewrite Forall_forall in Hs. rewrite Hch. intros Hin.
    apply in_app_or in Hin. destruct Hin as [Hin | [E | []]].
    + destruct (is_sample_not_histogram _ _ _ _ (Hs _ Hin)).
    + inversion E; subst. exists st. auto.
Qed.

(** The map after the loop, when the upper bounds differ, and what the
    conversion needs of it. *)
Lemma raw_buckets_cumulable (bs : list bucketLine) :
  Forall (fun b => signed false (lowerBound b) /\ signed false (upperBound b) /\
                   0 <= observations b < two64) bs ->
  distinct (map upperBound bs) ->
  total bs < two64 ->
  let m := map entry bs in
  map_keys m = map upperBound bs /\
  no_nan (map_keys m) /\ distinct (map_keys m) /\
  sum_at m (Float64s (map_keys m)) = total bs /\
  cumulable (Float64s (map_keys m)) m 0.
Proof.
  intros Hwf Hd Ht m.
  assert (Hk : map_keys m = map upperBound bs).
  { unfold m, map_keys. rewrite map_map. reflexivity. }
  assert (Hn : no_nan (map_keys m)).
  { rewrite Hk. unfold no_nan. rewrite Forall_map.
    eapply Forall_impl; [|exact Hwf]. intros b (_ & Hu & _).
    apply (signed_not_nan _ _ Hu). }
  assert (Hd' : distinct (map_keys m)) by (rewrite Hk; exact Hd).
  assert (Hv : Forall (fun e => 0 <= snd e) m).
  { unfold m. rewrite Forall_map. eapply Forall_impl; [|exact Hwf].
    intros b (_ & _ & Ho). simpl. lia. }
  assert (Hs : sum_at m (Float64s (map_keys m)) = total bs).
  { rewrite (sum_at_perm _ _ _ (Float64s_perm _)), (sum_at_self _ Hn Hd').
    unfold m, total. rewrite map_map. reflexivity. }
  repeat split; auto.
  - apply (no_nan_perm (map_keys m)); [symmetry; apply Float64s_perm | exact Hn].
  - apply (distinct_perm (map_keys m)); [symmetry; apply Float64s_perm | exact Hd'].
  - apply Float64s_ascending. exact Hn.
  - lia.
  - rewrite Forall_forall. intros k _. apply map_get_nonneg. exact Hv.
  - rewrite Hs. lia.
Qed.

(* ===================================================================== *)
(** * The claims *)
(* ===================================================================== *)

(** C1, the claim as it stands fails: the upper bounds differ, and the
    cumulative count of the greater bound is below the one of the smaller
    bound, because the counts of the two lines add up to 2^64 and the sum
    wraps around in [uint64]. *)
Lemma cumulative_counts_wrap_around :
  distinct (map upperBound
                (bucket_lines ["histogram.0.0.to.0.1=18446744073709551615";
                               "histogram.0.1.to.0.2=1"])) /\
  exists sum,
    CollectFromReader
      {| lines := ["histogram.0.0.to.0.1=18446744073709551615";
                   "histogram.0.1.to.0.2=1"];
         scanErr := None |} [] =
      ([MustNewConstHistogram unboundHistogram 0 sum
          [(f64 "0.1", 18446744073709551615); (f64 "0.2", 0)]], None) /\
    flt (f64 "0.1") (f64 "0.2") = true /\
    map_get [(f64 "0.1", 18446744073709551615); (f64 "0.2", 0)] (f64 "0.2") <
    map_get [(f64 "0.1", 18446744073709551615); (f64 "0.2", 0)] (f64 "0.1").
Proof.
  split.
  - vm_compute. repeat constructor.
  - eexists. split; [vm_compute; reflexivity|]. split; vm_compute; reflexivity.
Qed.

(** C1, amended. When no two recognized bucket lines share an upper bound
    and the counts of the recognized bucket lines add up to less than 2^64,
    the cumulative counts of the histogram that is sent do not decrease as
    the upper bound grows, and the count at the greatest upper bound is the
    total count, which is the sum of the counts of the lines. The upper
    bounds of the histogram are those of the lines. *)
Theorem cumulative_counts_are_monotone :
  forall (file : Reader) (d : Desc) (count : Z) (sum : float64) (buckets : bucketMap),
    In (ConstHistogram d count sum buckets) (fst (CollectFromReader file [])) ->
    distinct (map upperBound (bucket_lines (lines file))) ->
    total (bucket_lines (lines file)) < two64 ->
    (forall k1 k2,
        In k1 (map_keys buckets) -> In k2 (map_keys buckets) -> flt k1 k2 = true ->
        map_get buckets k1 <= map_get buckets k2) /\
    (forall k,
        In k (map_keys buckets) ->
        (forall k', In k' (map_keys buckets) -> flt k k' = false) ->
        map_get buckets k = count) /\
    count = total (bucket_lines (lines file)) /\
    map_keys buckets = map upperBound (bucket_lines (lines file)).
Proof.
  intros file d count sum buckets Hin Hd Ht.
  destruct (sent_histogram _ _ _ _ _ Hin) as (st & Hscan & -> & -> & ->).
  set (bs := bucket_lines (lines file)) in *.
  pose proof (bucket_lines_wf (lines file)) as Hwf. fold bs in Hwf.
  destruct (scan_histogram _ _ _ Hscan) as (Hc & _ & Hm). simpl in Hc, Hm. fold bs in Hc, Hm.
  rewrite (fold_set_distinct bs [] Hd) in Hm. simpl in Hm.
  assert (H0 : 0 <= total bs).
  { apply total_nonneg. eapply Forall_impl; [|exact Hwf]. intros b (_ & _ & Ho). lia. }
  assert (Hcount : histogramCount st = total bs).
  { rewrite Hc. change 0 with (0 mod two64) at 1. rewrite fold_add64.
    apply Z.mod_small. lia. }
  destruct (raw_buckets_cumulable bs Hwf Hd Ht) as (Hk & Hn & Hd' & Hs & Hcum).
  rewrite Hm, Hcount.
  set (m := map entry bs) in *. set (ks := Float64s (map_keys m)) in *.
  assert (Hi : incl ks (map_keys m)).
  { intros k Hk'. apply (Permutation_in _ (Float64s_perm _) Hk'). }
  assert (Hkeys : map_keys (cumulate ks m 0) = map_keys m)
    by (apply cumulate_keys; assumption).
  assert (Hks : forall k, In k (map_keys (cumulate ks m 0)) -> In k ks).
  { intros k Hk'. rewrite Hkeys in Hk'.
    apply (Permutation_in _ (Permutation_sym (Float64s_perm _)) Hk'). }
  split; [|split; [|split]].
  - intros k1 k2 H1 H2 Hlt. apply (cumulate_monotone _ _ _ Hcum); auto.
  - intros k Hk' Hmax.
    rewrite (cumulate_greatest _ _ _ Hcum k (Hks _ Hk')).
    + rewrite Hs. lia.
    + intros k' Hk''. apply Hmax. rewrite Hkeys. apply Hi. exact Hk''.
  - reflexivity.
  - rewrite Hkeys. exact Hk.
Qed.

(** The two bucket lines of the spec. *)
Lemma cumulative_counts_are_monotone_witness :
  map_get [(f64 "0.000001", 2); (f64 "0.000002", 5)] (f64 "0.000001") <=
  map_get [(f64 "0.000001", 2); (f64 "0.000002", 5)] (f64 "0.000002") /\
  map_get [(f64 "0.000001", 2); (f64 "0.000002", 5)] (f64 "0.000002") = 5.
Proof.
  destruct (cumulative_counts_are_monotone
              {| lines := ["histogram.0.000000.to.0.000001=2";
                           "histogram.0.000001.to.0.000002=3"];
                 scanErr := None |}
              unboundHistogram 5
              (fadd (fmul (fsub (f64 "0.000001") (f64 "0.0")) (float64_of_uint64 2))
                    (fmul (fsub (f64 "0.000002") (f64 "0.000001")) (float64_of_uint64 3)))
              [(f64 "0.000001", 2); (f64 "0.000002", 5)]
              ltac:(vm_compute; left; reflexivity)
              ltac:(vm_compute; repeat constructor)
              ltac:(vm_compute; reflexivity)) as (Hmono & Hmax & _).
  split.
  - apply Hmono; [left; reflexivity | right; left; reflexivity | vm_compute; reflexivity].
  - apply Hmax; [right; left; reflexivity|].
    intros k' [<- | [<- | []]]; vm_compute; reflexivity.
Defined.

(** C2. The stream of the two bucket lines
    [histogram.0.000000.to.0.000001=2] and [histogram.0.000001.to.0.000002=3]
    yields one histogram with the cumulative counts 0.000001: 2 and
    0.000002: 5, the total count 5 and the sum
    (0.000001 - 0.0) * 2 + (0.000002 - 0.000001) * 3; and every recognized
    bucket line adds (upper bound - lower bound) * count to the running
    sum. *)
Theorem histogram_of_two_bucket_lines :
  CollectFromReader
    {| lines := ["histogram.0.000000.to.0.000001=2";
                 "histogram.0.000001.to.0.000002=3"];
       scanErr := None |} [] =
  ([MustNewConstHistogram unboundHistogram 5
      (fadd (fmul (fsub (f64 "0.000001") (f64 "0.0")) (float64_of_uint64 2))
            (fmul (fsub (f64 "0.000002") (f64 "0.000001")) (float64_of_uint64 3)))
      [(f64 "0.000001", 2); (f64 "0.000002", 5)]],
   None)
  /\
  (forall (text : string) (st st' : scrape) (b : bucketLine),
      scan_line text st = (st', None) ->
      bucket_of_line text = Some b ->
      histogramSum st' =
      fadd (histogramSum st)
           (fmul (fsub (upperBound b) (lowerBound b))
                 (float64_of_uint64 (observations b)))).
Proof.
  split.
  - vm_compute. reflexivity.
  - intros text st st' b Hl Hb. apply scan_line_histogram in Hl.
    rewrite Hb in Hl. destruct Hl as (_ & Hs & _). exact Hs.
Qed.

(** The second bucket line of the spec, read after the first one. *)
Lemma histogram_of_two_bucket_lines_witness :
  histogramSum
    (fst (scan_line "histogram.0.000001.to.0.000002=3"
            {| ch := []; histogramCount := 2; histogramSum := f64 "0.000002";
               histogramBuckets := [(f64 "0.000001", 2)] |})) =
  fadd (f64 "0.000002")
       (fmul (fsub (f64 "0.000002") (f64 "0.000001")) (float64_of_uint64 3)).
Proof.
  refine (proj2 histogram_of_two_bucket_lines
            "histogram.0.000001.to.0.000002=3"
            {| ch := []; histogramCount := 2; histogramSum := f64 "0.000002";
               histogramBuckets := [(f64 "0.000001", 2)] |}
            _
            {| lowerBound := f64 "0.000001"; upperBound := f64 "0.000002";
               observations := 3 |} _ _).
  - vm_compute. reflexivity.
  - vm_compute. reflexivity.
Defined.

(** C3. For a key and a value, the loop over the catalog sends at most one
    sample: the one of the first definition, in the order of the catalog,
    whose pattern matches the key, with the texts of its capture groups in
    order as label values and the value converted to a float; a later
    definition that matches sends nothing. *)
Theorem resolver_first_match_only :
  forall (key value : string) (ch0 : list Metric),
    (exists new,
        fst (resolve unboundMetrics key value ch0) = ch0 ++ new /\
        (List.length new <= 1)%nat) /\
    (forall before metric after matches,
        unboundMetrics = before ++ metric :: after ->
        unmatched before key ->
        regexp.FindStringSubmatch (pattern metric) key = Some matches ->
        exists labelValues,
          matches = key :: labelValues /\
          List.length labelValues = regexp.NumSubexp (pattern metric) /\
          resolve unboundMetrics key value ch0 =
          match strconv.ParseFloat value with
          | (v, None) =>
              (ch0 ++ [MustNewConstMetric (desc metric) (valueType metric) v labelValues],
               None)
          | (_, Some err) => (ch0, Some (NumError err))
          end) /\
    (unmatched unboundMetrics key ->
     resolve unboundMetrics key value ch0 = (ch0, None)) /\
    (forall text st,
        exists new, ch (fst (scan_line text st)) = ch st ++ new /\
                    (List.length new <= 1)%nat).
Proof.
  intros key value ch0. split; [|split; [|split]].
  - destruct (resolve_adds unboundMetrics key value ch0) as (new & E & Hl & _).
    exists new. auto.
  - intros before metric after matches Hc Hb Hm.
    destruct (FindStringSubmatch_sound _ _ _ Hm) as (caps & -> & Hsem).
    exists caps. split; [reflexivity|]. split.
    + destruct (pattern metric) as [ps]. apply (pieces_sem_arity _ _ _ _ Hsem).
    + rewrite Hc. apply (resolve_first_match _ _ _ _ value _ ch0 Hb Hm).
  - apply resolve_unmatched.
  - intros text st. destruct (scan_line text st) as [st' r] eqn:E.
    destruct (scan_line_channel _ _ _ _ E) as (new & Hch & _ & Hl & _).
    exists new. auto.
Qed.

(** The fourth definition is the first to match [thread0.num.cachehits];
    none matches [foo.bar]. *)
Lemma resolver_first_match_only_witness :
  resolve unboundMetrics "thread0.num.cachehits" "7" [] =
  ([MustNewConstMetric
      (NewDesc "unbound_cache_hits_total"
         "Total number of queries that were successfully answered using a cache lookup."
         ["thread"])
      CounterValue (f64 "7") ["0"]], None)
  /\ resolve unboundMetrics "foo.bar" "1" [] = ([], None).
Proof.
  split.
  - destruct (proj1 (proj2 (resolver_first_match_only "thread0.num.cachehits" "7" []))
                (firstn 3 unboundMetrics) (nth 3 unboundMetrics (nth 0 unboundMetrics
                   {| desc := unboundUpDesc; valueType := GaugeValue;
                      pattern := histogramPattern |}))
                (skipn 4 unboundMetrics)
                ["thread0.num.cachehits"; "0"]
                eq_refl
                ltac:(repeat constructor)
                eq_refl) as (labelValues & Hm & _ & Hr).
    inversion Hm; subst. rewrite Hr. vm_compute. reflexivity.
  - apply (proj1 (proj2 (proj2 (resolver_first_match_only "foo.bar" "1" [])))).
    unfold unmatched, unboundMetrics. repeat constructor.
Defined.

(** C4, the claim as it stands fails: a line with an empty key or an empty
    value has two fields and goes through the line parser; here both lines
    are read without an error and the scrape ends with the histogram. *)
Lemma empty_field_is_no_error :
  Split "=5" "=" = [""; "5"] /\ Split "foo=" "=" = ["foo"; ""] /\
  CollectFromReader {| lines := ["=5"; "foo="]; scanErr := None |} [] =
  ([MustNewConstHistogram unboundHistogram 0 fzero []], None).
Proof. vm_compute. auto. Qed.

(** C4, amended. The line parser splits a line at every [=]. A line that does
    not hold exactly one [=] (none, or more than one) makes the scrape
    return, at that line, the error that carries the line verbatim; no later
    line is read. A line with exactly one [=] is split into the key before
    it and the value behind it, either of which may be empty, and the line
    parser lets it through: such a line can only fail later, with a
    conversion error. *)
Theorem line_parser_splits_on_every_separator :
  forall (text : string) (st : scrape),
    List.length (Split text "=") = S (count_byte "=" text) /\
    (count_byte "=" text <> 1%nat ->
     scan_line text st = (st, Some (Errorf "%q is not a valid key-value pair" text)) /\
     forall before after ch0 r,
       scan before (start ch0) = (st, None) ->
       CollectFromReader {| lines := before ++ text :: after; scanErr := r |} ch0 =
       (ch st, Some (Errorf "%q is not a valid key-value pair" text))) /\
    (count_byte "=" text = 1%nat ->
     exists key value,
       Split text "=" = [key; value] /\
       text = (key ++ "=" ++ value)%string /\
       count_byte "=" key = O /\ count_byte "=" value = O /\
       forall st' err, scan_line text st = (st', Some err) -> exists e, err = NumError e).
Proof.
  intros text st. pose proof (Split_length text "=") as Hl.
  split; [exact Hl|]. split.
  - intros Hc.
    assert (E : scan_line text st =
                (st, Some (Errorf "%q is not a valid key-value pair" text))).
    { unfold scan_line. destruct (Split text "=") as [|key [|value [|x l]]];
        try reflexivity. simpl in Hl. congruence. }
    split; [exact E|]. intros before after ch0 r Hb.
    apply CollectFromReader_error. cbn [lines].
    apply (scan_abort _ _ _ _ _ _ _ Hb E).
  - intros Hc. rewrite Hc in Hl.
    destruct (Split text "=") as [|key [|value [|x l]]] eqn:Hs; try discriminate.
    exists key, value. destruct (Split_two _ _ _ _ Hs) as (Ht & Hk & Hv).
    repeat split; auto.
    intros st' err E.
    destruct (scan_line_two_fields _ _ _ st Hs st' err E) as (_ & e & -> & _).
    exists e. reflexivity.
Qed.

(** Two separators, no separator, and an empty value. *)
Lemma line_parser_splits_on_every_separator_witness :
  scan_line "a=b=c" (start []) =
    (start [], Some (Errorf "%q is not a valid key-value pair" "a=b=c")) /\
  CollectFromReader {| lines := ["num.query.tcp=42"; "garbage"; "time.up=1"];
                       scanErr := None |} [] =
    (ch (fst (scan ["num.query.tcp=42"] (start []))),
     Some (Errorf "%q is not a valid key-value pair" "garbage")) /\
  exists key value, Split "foo=" "=" = [key; value].
Proof.
  split; [|split].
  - apply (proj1 (proj1 (proj2 (line_parser_splits_on_every_separator "a=b=c" (start [])))
                        ltac:(vm_compute; discriminate))).
  - apply (proj2 (proj1 (proj2 (line_parser_splits_on_every_separator "garbage"
                                  (fst (scan ["num.query.tcp=42"] (start [])))))
                        ltac:(vm_compute; discriminate))
                 ["num.query.tcp=42"] ["time.up=1"] [] None).
    vm_compute. reflexivity.
  - destruct (proj2 (proj2 (line_parser_splits_on_every_separator "foo=" (start [])))
                eq_refl) as (key & value & Hs & _).
    exists key, value. exact Hs.
Defined.

(** C5, the claim as it stands fails: the sample of the line before the
    malformed one is on the channel, before the gauge valued 0. *)
Lemma partial_samples_are_sent :
  Collect (Connected {| lines := ["num.query.tcp=42"; "garbage"]; scanErr := None |}) [] =
  [MustNewConstMetric
     (NewDesc "unbound_query_tcp_total"
        "Total number of queries that were made using TCP towards the Unbound server." [])
     CounterValue (f64 "42") [];
   up fzero].
Proof. vm_compute. reflexivity. Qed.

(** C5, amended. When the connection cannot be set up, only the reachability
    gauge valued 0 is sent. When a line of the stream fails, the scrape
    returns at that line: the samples sent for the lines before it stay on
    the channel, the failing line and the lines after it send nothing, no
    histogram is sent, and the gauge valued 0 follows. When the loop over
    the lines ends, the samples are followed by the histogram and then by
    the gauge, valued 1, or valued 0 when the scanner reports a read error.
    In every case the gauge is sent once: no sample is a reachability
    gauge. *)
Theorem collect_reports_reachability :
  (forall err, Collect (DialFails err) [] = [up fzero] /\
               Collect (WriteFails err) [] = [up fzero]) /\
  (forall before text after r st st' err,
      scan before (start []) = (st, None) ->
      scan_line text st = (st', Some err) ->
      Collect (Connected {| lines := before ++ text :: after; scanErr := r |}) [] =
        ch st ++ [up fzero] /\
      Forall is_sample (ch st)) /\
  (forall file st,
      scan (lines file) (start []) = (st, None) ->
      Collect (Connected file) [] =
        ch st
        ++ [MustNewConstHistogram unboundHistogram (histogramCount st) (histogramSum st)
              (cumulate (Float64s (map_keys (histogramBuckets st)))
                        (histogramBuckets st) 0)]
        ++ [up (match scanErr file with None => fone | Some _ => fzero end)] /\
      Forall is_sample (ch st)) /\
  (forall m v, is_sample m -> m <> up v).
Proof.
  split; [|split; [|split]].
  - intros err. split; reflexivity.
  - intros before text after r st st' err Hb Hl.
    destruct (scan_channel _ _ _ _ Hb) as (new & Hch & Hs). simpl in Hch.
    destruct (scan_line_channel _ _ _ _ Hl) as (new' & Hch' & _ & _ & Hnil).
    rewrite (Hnil ltac:(discriminate)), app_nil_r in Hch'.
    split; [|rewrite Hch; exact Hs].
    unfold Collect, CollectFromSocket.
    rewrite (CollectFromReader_error _ _ st' err); [rewrite Hch'; reflexivity|].
    apply (scan_abort _ _ _ _ _ _ _ Hb Hl).
  - intros file st Hscan.
    destruct (scan_channel _ _ _ _ Hscan) as (new & Hch & Hs). simpl in Hch.
    split; [|rewrite Hch; exact Hs].
    unfold Collect, CollectFromSocket. rewrite (CollectFromReader_end _ _ _ Hscan).
    destruct (scanErr file); rewrite <- app_assoc; reflexivity.
  - intros m v. apply is_sample_not_up.
Qed.

(** A scrape that fails at its second line, and one that succeeds. *)
Lemma collect_reports_reachability_witness :
  Collect (Connected {| lines := ["num.query.tcp=42"] ++ "garbage" :: ["time.up=1"];
                        scanErr := None |}) [] =
    ch (fst (scan ["num.query.tcp=42"] (start []))) ++ [up fzero] /\
  Collect (Connected {| lines := ["num.query.tcp=42"]; scanErr := None |}) [] =
    ch (fst (scan ["num.query.tcp=42"] (start [])))
    ++ [MustNewConstHistogram unboundHistogram 0 fzero []] ++ [up fone].
Proof.
  split.
  - apply (proj1 (proj2 collect_reports_reachability)
             ["num.query.tcp=42"] "garbage" ["time.up=1"] None
             (fst (scan ["num.query.tcp=42"] (start [])))
             (fst (scan ["num.query.tcp=42"] (start [])))
             (Errorf "%q is not a valid key-value pair" "garbage")
             eq_refl eq_refl).
  - apply (proj1 (proj2 (proj2 collect_reports_reachability))
             {| lines := ["num.query.tcp=42"]; scanErr := None |}
             (fst (scan ["num.query.tcp=42"] (start []))) eq_refl).
Defined.

(** C6, the claim as it stands fails: a bucket line with a bound that is not
    a number raises no error, the line is left out; and the error of a value
    that does not convert names the value, not the key. *)
Lemma non_numeric_bound_is_no_error :
  CollectFromReader {| lines := ["histogram.abc.to.0.1=5"]; scanErr := None |} [] =
    ([MustNewConstHistogram unboundHistogram 0 fzero []], None) /\
  snd (CollectFromReader {| lines := ["num.query.tcp=abc"]; scanErr := None |} []) =
    Some (NumError {| strconv.Func := "ParseFloat"; strconv.Num := "abc";
                      strconv.Err := strconv.ErrSyntax |}).
Proof. vm_compute. auto. Qed.

(** C6, amended. A line whose key matches a definition of the catalog and
    whose value does not convert to a float makes the scrape return the
    error of the conversion, which names the function and the value (not
    the key). A line whose key matches the pattern of the buckets and whose
    count does not convert to an unsigned integer makes the scrape return
    the error of that conversion in the same way. A line that looks like a
    bucket line but whose bounds are not numbers does not match the pattern
    of the buckets: it raises no error and changes nothing. *)
Theorem conversion_errors_abort :
  forall (text key value : string) (st : scrape),
    Split text "=" = [key; value] ->
    (forall metric matches f e,
        In metric unboundMetrics ->
        regexp.FindStringSubmatch (pattern metric) key = Some matches ->
        strconv.ParseFloat value = (f, Some e) ->
        scan_line text st = (st, Some (NumError e)) /\
        strconv.Func e = "ParseFloat" /\ strconv.Num e = value) /\
    (forall matches n e,
        regexp.FindStringSubmatch histogramPattern key = Some matches ->
        strconv.ParseUint value = (n, Some e) ->
        scan_line text st = (st, Some (NumError e)) /\
        strconv.Func e = "ParseUint" /\ strconv.Num e = value) /\
    (forall err before after ch0 r,
        scan_line text st = (st, Some err) ->
        scan before (start ch0) = (st, None) ->
        CollectFromReader {| lines := before ++ text :: after; scanErr := r |} ch0 =
        (ch st, Some err)) /\
    (forall rest,
        key = String "h" rest ->
        (forall a b c d, digits a -> digits b -> digits c -> digits d ->
           key <> ("histogram." ++ (a ++ "." ++ b) ++ ".to." ++ (c ++ "." ++ d))%string) ->
        scan_line text st = (st, None)).
Proof.
  intros text key value st Hs. split; [|split; [|split]].
  - intros metric matches f e Hin Hm Hp.
    destruct (ParseFloat_error _ _ _ Hp) as (Hf & Hn).
    split; [|auto]. unfold scan_line. rewrite Hs.
    destruct (catalog_split unboundMetrics key)
      as [Hu | (before & metric' & after & matches' & Hc & Hb & Hm')].
    + unfold unmatched in Hu. rewrite Forall_forall in Hu.
      rewrite (Hu _ Hin) in Hm. discriminate.
    + rewrite Hc, (resolve_first_match _ _ _ _ value _ (ch st) Hb Hm'), Hp, scrape_eta.
      reflexivity.
  - intros matches n e Hm Hu.
    destruct (ParseUint_error _ _ _ Hu) as (Hf & Hn).
    split; [|auto]. unfold scan_line.
    rewrite Hs, (resolve_unmatched _ _ value (ch st) (histogram_key_unmatched _ _ Hm)),
      Hm, Hu, scrape_eta.
    reflexivity.
  - intros err before after ch0 r Hl Hb.
    apply CollectFromReader_error. cbn [lines]. apply (scan_abort _ _ _ _ _ _ _ Hb Hl).
  - intros rest Hk Hshape.
    apply (scan_line_unrecognized _ _ _ _ Hs).
    + rewrite Hk. apply catalog_rejects_h.
    + destruct (regexp.FindStringSubmatch histogramPattern key) as [matches|] eqn:Hf;
        [|reflexivity].
      destruct (histogram_shape _ _ Hf) as (a & b & c & d & Ha & Hb & Hc & Hd & E & _).
      exfalso. exact (Hshape a b c d Ha Hb Hc Hd E).
Qed.

(** A value and a count that are no numbers. *)
Lemma conversion_errors_abort_witness :
  scan_line "num.query.tcp=abc" (start []) =
    (start [], Some (NumError {| strconv.Func := "ParseFloat"; strconv.Num := "abc";
                                 strconv.Err := strconv.ErrSyntax |})) /\
  scan_line "histogram.0.0.to.0.1=x" (start []) =
    (start [], Some (NumError {| strconv.Func := "ParseUint"; strconv.Num := "x";
                                 strconv.Err := strconv.ErrSyntax |})).
Proof.
  split.
  - apply (proj1 (conversion_errors_abort "num.query.tcp=abc" "num.query.tcp" "abc"
                    (start []) eq_refl)
             (nth 16 unboundMetrics {| desc := unboundUpDesc; valueType := GaugeValue;
                                       pattern := histogramPattern |})
             ["num.query.tcp"] fzero
             {| strconv.Func := "ParseFloat"; strconv.Num := "abc";
                strconv.Err := strconv.ErrSyntax |}).
    + vm_compute. do 16 right. left. reflexivity.
    + vm_compute. reflexivity.
    + vm_compute. reflexivity.
  - apply (proj1 (proj2 (conversion_errors_abort "histogram.0.0.to.0.1=x"
                           "histogram.0.0.to.0.1" "x" (start []) eq_refl))
             ["histogram.0.0.to.0.1"; "0.0"; "0.1"] 0
             {| strconv.Func := "ParseUint"; strconv.Num := "x";
                strconv.Err := strconv.ErrSyntax |}).
    + vm_compute. reflexivity.
    + vm_compute. reflexivity.
Defined.

(** C7. When two recognized bucket lines report the same upper bound, the
    count of the later one replaces the count of the earlier one in the
    bucket map, while the total count and the sum take in every recognized
    line: after the loop, the map holds at an upper bound the count of the
    last line that reports it, the total count is the sum of the counts of
    all the recognized lines (in [uint64], that is modulo 2^64), and the sum
    is the running sum of their contributions. *)
Theorem last_line_overwrites_total_counts_all :
  forall (texts : list string) (ch0 : list Metric) (st : scrape),
    scan texts (start ch0) = (st, None) ->
    histogramCount st =
      fold_left (fun n b => add64 n (observations b)) (bucket_lines texts) 0 /\
    histogramCount st = total (bucket_lines texts) mod two64 /\
    histogramSum st =
      fold_left (fun s b => fadd s (contribution b)) (bucket_lines texts) fzero /\
    (forall bs1 b bs2,
        bucket_lines texts = bs1 ++ b :: bs2 ->
        Forall (fun b' => feq (upperBound b') (upperBound b) = false) bs2 ->
        map_get (histogramBuckets st) (upperBound b) = observations b) /\
    (forall r, exists buckets,
        CollectFromReader {| lines := texts; scanErr := r |} ch0 =
        (ch st ++ [MustNewConstHistogram unboundHistogram
                     (total (bucket_lines texts) mod two64) (histogramSum st) buckets],
         r)).
Proof.
  intros texts ch0 st Hscan.
  destruct (scan_histogram _ _ _ Hscan) as (Hc & Hs & Hm). simpl in Hc, Hs, Hm.
  assert (Hc' : histogramCount st = total (bucket_lines texts) mod two64).
  { rewrite Hc. change 0 with (0 mod two64) at 1. rewrite fold_add64. reflexivity. }
  split; [exact Hc|]. split; [exact Hc'|]. split; [exact Hs|]. split.
  - intros bs1 b bs2 Hbs Hlast. rewrite Hm, Hbs, fold_left_app. simpl.
    rewrite (fold_set_other _ _ _ Hlast), map_get_set.
    pose proof (bucket_lines_wf texts) as Hwf. rewrite Hbs in Hwf.
    apply Forall_app in Hwf. destruct Hwf as [_ Hwf]. inversion Hwf as [|? ? Hb _]; subst.
    destruct Hb as (_ & Hu & _).
    rewrite (feq_refl _ (signed_not_nan _ _ Hu)). reflexivity.
  - intros r. eexists.
    rewrite (CollectFromReader_end {| lines := texts; scanErr := r |} ch0 st Hscan).
    rewrite <- Hc'. reflexivity.
Qed.

(** Two lines for the upper bound 0.1: the map keeps 3, the total is 5. *)
Lemma last_line_overwrites_total_counts_all_witness :
  histogramCount
    (fst (scan ["histogram.0.0.to.0.1=2"; "histogram.0.05.to.0.1=3"] (start []))) = 5 /\
  map_get
    (histogramBuckets
       (fst (scan ["histogram.0.0.to.0.1=2"; "histogram.0.05.to.0.1=3"] (start []))))
    (f64 "0.1") = 3.
Proof.
  destruct (last_line_overwrites_total_counts_all
              ["histogram.0.0.to.0.1=2"; "histogram.0.05.to.0.1=3"] []
              (fst (scan ["histogram.0.0.to.0.1=2"; "histogram.0.05.to.0.1=3"] (start [])))
              eq_refl) as (_ & Hc & _ & Hm & _).
  split.
  - exact Hc.
  - apply (Hm [{| lowerBound := f64 "0.0"; upperBound := f64 "0.1"; observations := 2 |}]
              {| lowerBound := f64 "0.05"; upperBound := f64 "0.1"; observations := 3 |}
              [] eq_refl (Forall_nil _)).
Defined.

(** C8. A line whose key matches neither a pattern of the catalog nor the
    pattern of the buckets sends nothing and raises no error: the scrape
    goes on as if the line were not there, and the other lines are resolved
    as they are without it. *)
Theorem unrecognized_line_is_dropped :
  forall (text key value : string),
    Split text "=" = [key; value] ->
    unmatched unboundMetrics key ->
    regexp.FindStringSubmatch histogramPattern key = None ->
    (forall st, scan_line text st = (st, None)) /\
    (forall before after r ch0,
        CollectFromReader {| lines := before ++ text :: after; scanErr := r |} ch0 =
        CollectFromReader {| lines := before ++ after; scanErr := r |} ch0).
Proof.
  intros text key value Hs Hu Hh.
  assert (H : forall st, scan_line text st = (st, None))
    by (intros st; apply (scan_line_unrecognized _ _ _ _ Hs Hu Hh)).
  split; [exact H|]. intros before after r ch0.
  unfold CollectFromReader. cbn [lines scanErr].
  rewrite (scan_skip _ _ _ _ H). reflexivity.
Qed.

(** [foo.bar=1] between two lines of the catalog. *)
Lemma unrecognized_line_is_dropped_witness :
  CollectFromReader
    {| lines := ["num.query.tcp=42"] ++ "foo.bar=1" :: ["thread0.num.cachehits=7"];
       scanErr := None |} [] =
  CollectFromReader
    {| lines := ["num.query.tcp=42"] ++ ["thread0.num.cachehits=7"];
       scanErr := None |} [].
Proof.
  apply (proj2 (unrecognized_line_is_dropped "foo.bar=1" "foo.bar" "1"
                  eq_refl
                  ltac:(unfold unmatched, unboundMetrics; repeat constructor)
                  eq_refl)).
Defined.

(** C9. A scrape of the empty stream succeeds and sends exactly one
    histogram, with the total count 0, the sum 0 and no buckets, and no
    sample. More generally, when the loop over the lines ends and no line is
    a recognized bucket line, the scrape sends the samples of the lines and
    then that same empty histogram: it is sent, not skipped. *)
Theorem empty_stream_emits_empty_histogram :
  CollectFromReader {| lines := []; scanErr := None |} [] =
    ([MustNewConstHistogram unboundHistogram 0 fzero []], None) /\
  (forall (file : Reader) (ch0 : list Metric) (st : scrape),
      scan (lines file) (start ch0) = (st, None) ->
      bucket_lines (lines file) = [] ->
      CollectFromReader file ch0 =
        (ch st ++ [MustNewConstHistogram unboundHistogram 0 fzero []], scanErr file) /\
      exists samples, ch st = ch0 ++ samples /\ Forall is_sample samples).
Proof.
  split; [reflexivity|].
  intros file ch0 st Hscan Hb.
  destruct (scan_histogram _ _ _ Hscan) as (Hc & Hs & Hm).
  rewrite Hb in Hc, Hs, Hm. simpl in Hc, Hs, Hm.
  split.
  - rewrite (CollectFromReader_end _ _ _ Hscan), Hc, Hs, Hm. reflexivity.
  - apply (scan_channel _ _ _ _ Hscan).
Qed.

(** A stream without bucket lines. *)
Lemma empty_stream_emits_empty_histogram_witness :
  CollectFromReader {| lines := ["num.query.tcp=42"; "foo.bar=1"]; scanErr := None |} [] =
  (ch (fst (scan ["num.query.tcp=42"; "foo.bar=1"] (start [])))
     ++ [MustNewConstHistogram unboundHistogram 0 fzero []], None).
Proof.
  apply (proj2 empty_stream_emits_empty_histogram
           {| lines := ["num.query.tcp=42"; "foo.bar=1"]; scanErr := None |} []
           (fst (scan ["num.query.tcp=42"; "foo.bar=1"] (start [])))).
  - vm_compute. reflexivity.
  - vm_compute. reflexivity.
Defined.

(** C10, the claim as it stands fails: the key matches the pattern of the
    buckets, and the conversion of its upper bound fails, with a range
    error; the error is dropped and the bucket gets the bound [+Inf]. *)
Lemma bound_conversion_can_fail :
  regexp.FindStringSubmatch histogramPattern ("histogram.0.0.to." ++ huge_bound) =
    Some [("histogram.0.0.to." ++ huge_bound)%string; "0.0"; huge_bound] /\
  strconv.ParseFloat huge_bound =
    (S754_infinity false, Some (strconv.rangeError "ParseFloat" huge_bound)) /\
  CollectFromReader
    {| lines := [("histogram.0.0.to." ++ huge_bound ++ "=1")%string]; scanErr := None |} [] =
    ([MustNewConstHistogram unboundHistogram 1 (S754_infinity false)
        [(S754_infinity false, 1)]], None).
Proof. vm_compute. auto. Qed.

(** C10, amended. For a key that matches the pattern of the buckets, the two
    groups are the bounds, each of the shape digits, point, digits; the
    conversion of a bound never fails on its syntax and never yields a NaN
    or a negative number: it succeeds, or, for a bound beyond the range of a
    [float64], it fails with a range error and the value [+Inf], which the
    accumulator uses since it drops the error. A line that looks like a
    bucket line but whose bounds are not of that shape does not reach the
    accumulator: it is left out without an error. *)
Theorem bucket_bounds_convert :
  (forall key matches,
      regexp.FindStringSubmatch histogramPattern key = Some matches ->
      exists lo hi,
        matches = [key; lo; hi] /\
        Forall (fun s =>
                  signed false (fst (strconv.ParseFloat s)) /\
                  (snd (strconv.ParseFloat s) = None \/
                   (snd (strconv.ParseFloat s) = Some (strconv.rangeError "ParseFloat" s) /\
                    fst (strconv.ParseFloat s) = S754_infinity false)))
               [lo; hi]) /\
  (forall text key value rest st,
      Split text "=" = [key; value] ->
      key = String "h" rest ->
      regexp.FindStringSubmatch histogramPattern key = None ->
      scan_line text st = (st, None)).
Proof.
  split.
  - intros key matches Hf.
    destruct (histogram_shape _ _ Hf) as (a & b & c & d & Ha & Hb & Hc & Hd & _ & ->).
    exists (a ++ "." ++ b)%string, (c ++ "." ++ d)%string. split; [reflexivity|].
    constructor; [apply (ParseFloat_bound a b Ha Hb)|].
    constructor; [apply (ParseFloat_bound c d Hc Hd) | constructor].
  - intros text key value rest st Hs Hk Hf.
    apply (scan_line_unrecognized _ _ _ _ Hs); [|exact Hf].
    rewrite Hk. apply catalog_rejects_h.
Qed.

(** A key of the spec, and a key whose lower bound is no number. *)
Lemma bucket_bounds_convert_witness :
  (exists lo hi, ["histogram.0.000000.to.0.000001"; "0.000000"; "0.000001"]
                 = ["histogram.0.000000.to.0.000001"; lo; hi]) /\
  scan_line "histogram.abc.to.0.1=5" (start []) = (start [], None).
Proof.
  split.
  - destruct (proj1 bucket_bounds_convert "histogram.0.000000.to.0.000001"
                ["histogram.0.000000.to.0.000001"; "0.000000"; "0.000001"] eq_refl)
      as (lo & hi & E & _).
    exists lo, hi. exact E.
  - apply (proj2 bucket_bounds_convert "histogram.abc.to.0.1=5" "histogram.abc.to.0.1" "5"
             "istogram.abc.to.0.1" (start []) eq_refl eq_refl eq_refl).
Defined.

(* ===================================================================== *)
(** * Further properties of the code *)
(* ===================================================================== *)

(** ** The matcher finds what there is to match *)

Lemma many_complete (a : regexp.atom) (m r : string) :
  m <> EmptyString -> all_bytes (regexp.atom_matches a) m = true ->
  In (m, r) (regexp.many a (m ++ r)).
Proof.
  induction m as [|c m IH]; intros Hne Hall; [congruence|].
  simpl in Hall. apply andb_prop in Hall. destruct Hall as [Hc Hall].
  cbn [append regexp.many]. rewrite Hc. apply in_or_app.
  destruct m as [|c' m'].
  - right. left. reflexivity.
  - left. apply in_map_iff. exists (String c' m', r). split; [reflexivity|].
    apply IH; [discriminate | exact Hall].
Qed.

Lemma match_items_complete (its : list regexp.item) (m r : string) :
  items_sem its m -> In (m, r) (regexp.match_items its (m ++ r)).
Proof.
  revert m. induction its as [|[a|a] its IH]; intros m; cbn [items_sem regexp.match_items].
  - intros ->. left. reflexivity.
  - intros (c & m' & -> & Hc & H). apply in_flat_map.
    exists (String c EmptyString, (m' ++ r)%string). split.
    + cbn [append regexp.match_item]. rewrite Hc. left. reflexivity.
    + apply in_map_iff. exists (m', r). split; [reflexivity | apply IH; exact H].
  - intros (m1 & m2 & -> & Hne & Hall & H). apply in_flat_map.
    exists (m1, (m2 ++ r)%string). split.
    + cbn [regexp.match_item]. rewrite append_assoc. apply many_complete; assumption.
    + apply in_map_iff. exists (m2, r). split; [reflexivity | apply IH; exact H].
Qed.

Lemma match_pieces_complete (ps : list regexp.piece) (s : string) (caps : list string)
      (r : string) :
  pieces_sem ps s caps r -> In (caps, r) (regexp.match_pieces ps s).
Proof.
  revert s caps. induction ps as [|[i|body] ps IH]; intros s caps;
    cbn [pieces_sem regexp.match_pieces].
  - intros [-> ->]. left. reflexivity.
  - intros (m & s' & -> & Hm & H). apply in_flat_map. exists (m, s'). split.
    + pose proof (match_items_complete [i] m s' Hm) as Hin.
      cbn [regexp.match_items] in Hin. apply in_flat_map in Hin.
      destruct Hin as ((m1, r1) & Hi & Hin). simpl in Hin.
      destruct Hin as [E | []]. inversion E; subst.
      rewrite append_nil_r in Hi |- *. exact Hi.
    + apply IH. exact H.
  - intros (m & s' & caps' & -> & Hm & -> & H). apply in_flat_map. exists (m, s'). split.
    + apply match_items_complete. exact Hm.
    + apply in_map_iff. exists (caps', r). split; [reflexivity | apply IH; exact H].
Qed.

(** A key matches when, and only when, the pattern describes it. *)
Lemma FindStringSubmatch_matches (re : regexp.Regexp) (s : string) :
  regexp.FindStringSubmatch re s <> None <->
  exists caps, pieces_sem (regexp.pieces re) s caps EmptyString.
Proof.
  split.
  - destruct (regexp.FindStringSubmatch re s) as [matches|] eqn:E; [|congruence].
    intros _. destruct (FindStringSubmatch_sound _ _ _ E) as (caps & _ & H).
    exists caps. exact H.
  - intros (caps & H). apply match_pieces_complete in H.
    unfold regexp.FindStringSubmatch.
    destruct (find regexp.at_end (regexp.match_pieces (regexp.pieces re) s))
      as [[caps' r]|] eqn:E; [discriminate|].
    exfalso. pose proof (find_none _ _ E _ H) as Hn. discriminate Hn.
Qed.

(** A pattern whose way to match a key is unique returns that way. *)
Lemma FindStringSubmatch_unique (re : regexp.Regexp) (s : string) (caps : list string) :
  pieces_sem (regexp.pieces re) s caps EmptyString ->
  (forall caps', pieces_sem (regexp.pieces re) s caps' EmptyString -> caps' = caps) ->
  regexp.FindStringSubmatch re s = Some (s :: caps).
Proof.
  intros H Hu.
  destruct (regexp.FindStringSubmatch re s) as [matches|] eqn:E.
  - destruct (FindStringSubmatch_sound _ _ _ E) as (caps' & -> & H').
    rewrite (Hu _ H'). reflexivity.
  - exfalso. apply (proj2 (FindStringSubmatch_matches re s)); [|exact E].
    exists caps. exact H.
Qed.

Lemma append_inj_l (p s1 s2 : string) : (p ++ s1)%string = (p ++ s2)%string -> s1 = s2.
Proof. induction p as [|c p IH]; simpl; intros E; [exact E | inversion E; auto]. Qed.

Lemma length_append (s1 s2 : string) :
  String.length (s1 ++ s2) = (String.length s1 + String.length s2)%nat.
Proof. induction s1 as [|c s1 IH]; simpl; [reflexivity | rewrite IH; reflexivity]. Qed.

Lemma append_inj_r (s1 s2 q : string) : (s1 ++ q)%string = (s2 ++ q)%string -> s1 = s2.
Proof.
  revert s2. induction s1 as [|c s1 IH]; intros s2 E.
  - destruct s2 as [|c2 s2]; [reflexivity|]. exfalso.
    apply (f_equal String.length) in E. simpl in E. rewrite length_append in E. lia.
  - destruct s2 as [|c2 s2].
    + exfalso. apply (f_equal String.length) in E. simpl in E.
      rewrite length_append in E. lia.
    + simpl in E. inversion E; subst. f_equal. apply IH. assumption.
Qed.

(** What a literal prefix matches. *)
Lemma pieces_sem_literal (lit : string) (ps : list regexp.piece) (s : string)
      (caps : list string) (r : string) :
  pieces_sem (literal lit ++ ps) s caps r <->
  exists s', s = (lit ++ s')%string /\ pieces_sem ps s' caps r.
Proof.
  revert s. induction lit as [|c lit IH]; intros s; cbn [literal app].
  - split; [intros H; exists s; auto | intros (s' & -> & H); exact H].
  - split.
    + intros H. apply pieces_sem_lit in H. destruct H as (s1 & -> & H).
      apply IH in H. destruct H as (s' & -> & H). exists s'. auto.
    + intros (s' & -> & H). cbn [pieces_sem items_sem append].
      exists (String c EmptyString), (lit ++ s')%string. split; [reflexivity|]. split.
      * exists c, EmptyString. repeat split. simpl. apply Ascii.eqb_refl.
      * apply IH. exists s'. auto.
Qed.

(** ** The keys of the definitions *)

Lemma literal_text_spec (ps : list regexp.piece) (lit : string) :
  literal_text ps = Some lit -> ps = literal lit.
Proof.
  revert lit. induction ps as [|[[[c|rs]|a]|body] ps IH]; intros lit; simpl;
    try discriminate.
  - intros E. inversion E. reflexivity.
  - destruct (literal_text ps) as [t|]; [|discriminate].
    intros E. inversion E; subst. simpl. f_equal. apply IH. reflexivity.
Qed.

Lemma one_group_spec (ps : list regexp.piece) (pre post : string)
      (rs : list (ascii * ascii)) :
  one_group ps = Some (pre, rs, post) ->
  ps = literal pre ++ regexp.Group [regexp.Many (regexp.Class rs)] :: literal post.
Proof.
  revert pre. induction ps as [|[[[c|rs']|a]|body] ps IH]; intros pre; simpl;
    try discriminate.
  - destruct (one_group ps) as [[[pre' rs'] post']|]; [|discriminate].
    intros E. inversion E; subst. simpl. f_equal. apply IH. reflexivity.
  - destruct body as [|[a|[c|rs']] [|i body]]; try discriminate.
    destruct (literal_text ps) as [t|] eqn:Et; [|discriminate].
    intros E. inversion E; subst. simpl. rewrite (literal_text_spec _ _ Et). reflexivity.
Qed.

Lemma pieces_sem_literal_only (lit s : string) (caps : list string) :
  pieces_sem (literal lit) s caps EmptyString <-> s = lit /\ caps = [].
Proof.
  rewrite <- (app_nil_r (literal lit)), pieces_sem_literal. cbn [pieces_sem]. split.
  - intros (s' & -> & -> & ->). rewrite append_nil_r. auto.
  - intros (-> & ->). exists EmptyString. rewrite append_nil_r. auto.
Qed.

(** A pattern of literal bytes matches its own text and nothing else. *)
Lemma literal_matches (re : regexp.Regexp) (lit key : string) (matches : list string) :
  literal_text (regexp.pieces re) = Some lit ->
  (regexp.FindStringSubmatch re key = Some matches <-> key = lit /\ matches = [key]).
Proof.
  intros Hl. apply literal_text_spec in Hl. split.
  - intros E. destruct (FindStringSubmatch_sound _ _ _ E) as (caps & -> & H).
    rewrite Hl in H. apply pieces_sem_literal_only in H. destruct H as (-> & ->). auto.
  - intros (-> & ->). apply FindStringSubmatch_unique.
    + rewrite Hl. apply pieces_sem_literal_only. auto.
    + intros caps' H. rewrite Hl in H. apply pieces_sem_literal_only in H. tauto.
Qed.

Lemma pieces_sem_one_group (pre post : string) (rs : list (ascii * ascii)) (s : string)
      (caps : list string) :
  pieces_sem (literal pre ++ regexp.Group [regexp.Many (regexp.Class rs)] :: literal post)
             s caps EmptyString <->
  exists w, run_of rs w /\ s = (pre ++ w ++ post)%string /\ caps = [w].
Proof.
  rewrite pieces_sem_literal. cbn [pieces_sem items_sem]. split.
  - intros (s' & -> & m & s'' & caps' & -> & (m1 & m2 & -> & Hne & Hall & ->) & -> & H).
    apply pieces_sem_literal_only in H. destruct H as (-> & ->).
    rewrite append_nil_r. exists m1. repeat split; assumption.
  - intros (w & (Hne & Hall) & -> & ->). exists (w ++ post)%string. split; [reflexivity|].
    exists w, post, []. split; [reflexivity|]. split.
    + exists w, EmptyString. rewrite append_nil_r. auto.
    + split; [reflexivity|]. apply pieces_sem_literal_only. auto.
Qed.

(** A pattern with one group matches the keys made of its prefix, a
    non-empty run of the class and its suffix; the group is the run. *)
Lemma one_group_matches (re : regexp.Regexp) (pre post : string)
      (rs : list (ascii * ascii)) (key : string) (matches : list string) :
  one_group (regexp.pieces re) = Some (pre, rs, post) ->
  (regexp.FindStringSubmatch re key = Some matches <->
   exists w, run_of rs w /\ key = (pre ++ w ++ post)%string /\ matches = [key; w]).
Proof.
  intros Hg. apply one_group_spec in Hg. split.
  - intros E. destruct (FindStringSubmatch_sound _ _ _ E) as (caps & -> & H).
    rewrite Hg in H. apply pieces_sem_one_group in H.
    destruct H as (w & Hw & -> & ->). exists w. auto.
  - intros (w & Hw & -> & ->). apply FindStringSubmatch_unique.
    + rewrite Hg. apply pieces_sem_one_group. exists w. auto.
    + intros caps' H. rewrite Hg in H. apply pieces_sem_one_group in H.
      destruct H as (w' & _ & E & ->). apply append_inj_l in E.
      apply append_inj_r in E. subst. reflexivity.
Qed.

(** ** Patterns that exclude each other *)

Lemma atoms_disjoint_sound (a b : regexp.atom) (c : ascii) :
  atoms_disjoint a b = true ->
  regexp.atom_matches a c = true -> regexp.atom_matches b c = true -> False.
Proof.
  destruct a as [c1|rs1], b as [c2|rs2]; cbn [atoms_disjoint]; intros Hd Ha Hb;
    try discriminate.
  - cbn [regexp.atom_matches] in Ha. apply Ascii.eqb_eq in Ha. subst.
    rewrite Hb in Hd. discriminate.
  - cbn [regexp.atom_matches] in Ha. apply Ascii.eqb_eq in Ha. subst.
    rewrite Hb in Hd. discriminate.
  - cbn [regexp.atom_matches] in Hb. apply Ascii.eqb_eq in Hb. subst.
    rewrite Ha in Hd. discriminate.
Qed.

Lemma items_sem_one_step (a : regexp.atom) (p : list regexp.item) (s : string) :
  items_sem (regexp.One a :: p) s ->
  exists c s', s = String c s' /\ regexp.atom_matches a c = true /\ items_sem p s'.
Proof. cbn [items_sem]. auto. Qed.

(** [a+] takes one byte, and then is done or goes on. *)
Lemma items_sem_many_step (a : regexp.atom) (p : list regexp.item) (s : string) :
  items_sem (regexp.Many a :: p) s ->
  exists c s', s = String c s' /\ regexp.atom_matches a c = true /\
               (items_sem p s' \/ items_sem (regexp.Many a :: p) s').
Proof.
  cbn [items_sem]. intros (m1 & m2 & -> & Hne & Hall & H).
  destruct m1 as [|c m1]; [congruence|].
  simpl in Hall. apply andb_prop in Hall. destruct Hall as [Hc Hall].
  exists c, (m1 ++ m2)%string. split; [reflexivity|]. split; [exact Hc|].
  destruct m1 as [|c' m1].
  - left. exact H.
  - right. exists (String c' m1), m2. repeat split; auto. discriminate.
Qed.

Lemma items_disjoint_sound (s : string) :
  forall fuel p q,
    items_disjoint fuel p q = true -> items_sem p s -> items_sem q s -> False.
Proof.
  induction s as [|c s IH]; intros fuel p q Hd Hp Hq.
  - destruct fuel; [discriminate|].
    destruct p as [|[a|a] p], q as [|[b|b] q]; cbn [items_disjoint] in Hd;
      try discriminate;
      try (apply items_sem_one_step in Hp; destruct Hp as (? & ? & E & _); discriminate E);
      try (apply items_sem_many_step in Hp; destruct Hp as (? & ? & E & _); discriminate E);
      try (apply items_sem_one_step in Hq; destruct Hq as (? & ? & E & _); discriminate E);
      try (apply items_sem_many_step in Hq; destruct Hq as (? & ? & E & _); discriminate E).
  - destruct fuel; [discriminate|].
    destruct p as [|[a|a] p], q as [|[b|b] q]; cbn [items_disjoint] in Hd;
      try discriminate;
      try (cbn [items_sem] in Hp; discriminate Hp);
      try (cbn [items_sem] in Hq; discriminate Hq).
    + apply items_sem_one_step in Hp, Hq.
      destruct Hp as (c1 & s1 & E1 & Ha & Hp), Hq as (c2 & s2 & E2 & Hb & Hq).
      inversion E1; inversion E2; subst.
      apply orb_prop in Hd. destruct Hd as [Hd | Hd];
        [exact (atoms_disjoint_sound _ _ _ Hd Ha Hb) | exact (IH _ _ _ Hd Hp Hq)].
    + apply items_sem_one_step in Hp. apply items_sem_many_step in Hq.
      destruct Hp as (c1 & s1 & E1 & Ha & Hp), Hq as (c2 & s2 & E2 & Hb & Hq).
      inversion E1; inversion E2; subst.
      apply orb_prop in Hd. destruct Hd as [Hd | Hd];
        [exact (atoms_disjoint_sound _ _ _ Hd Ha Hb)|].
      apply andb_prop in Hd. destruct Hd as [H1 H2].
      destruct Hq as [Hq | Hq]; [exact (IH _ _ _ H1 Hp Hq) | exact (IH _ _ _ H2 Hp Hq)].
    + apply items_sem_many_step in Hp. apply items_sem_one_step in Hq.
      destruct Hp as (c1 & s1 & E1 & Ha & Hp), Hq as (c2 & s2 & E2 & Hb & Hq).
      inversion E1; inversion E2; subst.
      apply orb_prop in Hd. destruct Hd as [Hd | Hd];
        [exact (atoms_disjoint_sound _ _ _ Hd Ha Hb)|].
      apply andb_prop in Hd. destruct Hd as [H1 H2].
      destruct Hp as [Hp | Hp]; [exact (IH _ _ _ H1 Hp Hq) | exact (IH _ _ _ H2 Hp Hq)].
    + pose proof Hd as Hd0.
      apply items_sem_many_step in Hp. apply items_sem_many_step in Hq.
      destruct Hp as (c1 & s1 & E1 & Ha & Hp), Hq as (c2 & s2 & E2 & Hb & Hq).
      inversion E1; inversion E2; subst.
      apply orb_prop in Hd. destruct Hd as [Hd | Hd];
        [exact (atoms_disjoint_sound _ _ _ Hd Ha Hb)|].
      apply andb_prop in Hd. destruct Hd as [Hd H3].
      apply andb_prop in Hd. destruct Hd as [H1 H2].
      destruct Hp as [Hp | Hp], Hq as [Hq | Hq].
      * exact (IH _ _ _ H1 Hp Hq).
      * exact (IH _ _ _ H3 Hp Hq).
      * exact (IH _ _ _ H2 Hp Hq).
      * exact (IH (S fuel) (regexp.Many a :: p) (regexp.Many b :: q) Hd0 Hp Hq).
Qed.

Lemma items_sem_app_all (l1 l2 : list regexp.item) (m1 m2 : string) :
  items_sem l1 m1 -> items_sem l2 m2 -> items_sem (l1 ++ l2) (m1 ++ m2)%string.
Proof.
  revert m1. induction l1 as [|[a|a] l1 IH]; intros m1; cbn [items_sem app].
  - intros -> H. exact H.
  - intros (c & m' & -> & Hc & H) H2. exists c, (m' ++ m2)%string. auto.
  - intros (n1 & n2 & -> & Hne & Hall & H) H2. exists n1, (n2 ++ m2)%string.
    rewrite append_assoc. auto.
Qed.

Lemma pieces_sem_flatten (ps : list regexp.piece) (s : string) (caps : list string) :
  pieces_sem ps s caps EmptyString -> items_sem (flatten ps) s.
Proof.
  revert s caps. induction ps as [|[i|body] ps IH]; intros s caps; cbn [pieces_sem].
  - intros [_ ->]. reflexivity.
  - intros (m & s' & -> & Hm & H).
    apply (items_sem_app_all [i] (flatten ps)); [exact Hm | exact (IH _ _ H)].
  - intros (m & s' & caps' & -> & Hm & _ & H).
    apply (items_sem_app_all body (flatten ps)); [exact Hm | exact (IH _ _ H)].
Qed.

(** Two patterns that pass the test match no common key. *)
Lemma patterns_disjoint_sound (re1 re2 : regexp.Regexp) (key : string) :
  patterns_disjoint re1 re2 = true ->
  regexp.FindStringSubmatch re1 key <> None ->
  regexp.FindStringSubmatch re2 key = None.
Proof.
  intros Hd H1. destruct (regexp.FindStringSubmatch re2 key) as [m|] eqn:E2; [|reflexivity].
  exfalso. apply FindStringSubmatch_matches in H1. destruct H1 as (caps1 & H1).
  destruct (FindStringSubmatch_sound _ _ _ E2) as (caps2 & _ & H2).
  exact (items_disjoint_sound key _ _ _ Hd (pieces_sem_flatten _ _ _ H1)
                              (pieces_sem_flatten _ _ _ H2)).
Qed.

Lemma pairwise_disjoint_sound (res : list regexp.Regexp) :
  pairwise_disjoint res = true ->
  ForallOrdPairs (fun re1 re2 => patterns_disjoint re1 re2 = true) res.
Proof.
  induction res as [|re res IH]; simpl; intros H; [constructor|].
  apply andb_prop in H. destruct H as [H1 H2].
  constructor; [rewrite Forall_forall; exact (proj1 (forallb_forall _ _) H1) | exact (IH H2)].
Qed.

(** The patterns of the catalog and the pattern of the buckets pass the
    test two by two. *)
Lemma patterns_exclusive :
  ForallOrdPairs (fun re1 re2 => patterns_disjoint re1 re2 = true)
                 (histogramPattern :: map pattern unboundMetrics).
Proof. apply pairwise_disjoint_sound. vm_compute. reflexivity. Qed.

(** ** One definition for a key at most *)

Lemma ForallOrdPairs_map {A B : Type} (f : A -> B) (R : B -> B -> Prop) (l : list A) :
  ForallOrdPairs R (map f l) -> ForallOrdPairs (fun x y => R (f x) (f y)) l.
Proof.
  induction l as [|x l IH]; simpl; intros H; [constructor|].
  inversion H; subst. constructor; [|apply IH; assumption].
  rewrite Forall_map in H2. exact H2.
Qed.

Lemma ForallOrdPairs_split {A : Type} (R : A -> A -> Prop) (l1 l2 l3 : list A) (a b : A) :
  ForallOrdPairs R (l1 ++ a :: l2 ++ b :: l3) -> R a b.
Proof.
  induction l1 as [|x l1 IH]; simpl; intros H; inversion H; subst.
  - rewrite Forall_forall in H2. apply H2. apply in_or_app. right. left. reflexivity.
  - apply IH. assumption.
Qed.

Lemma ForallOrdPairs_cons_inv {A : Type} (R : A -> A -> Prop) (a : A) (l : list A) :
  ForallOrdPairs R (a :: l) -> Forall (R a) l /\ ForallOrdPairs R l.
Proof. intros H. inversion H; subst. auto. Qed.

(** Two definitions of the catalog that match the same key are the same
    definition. *)
Lemma catalog_exclusive (m1 m2 : unboundMetric) (key : string) :
  In m1 unboundMetrics -> In m2 unboundMetrics ->
  regexp.FindStringSubmatch (pattern m1) key <> None ->
  regexp.FindStringSubmatch (pattern m2) key <> None ->
  m1 = m2.
Proof.
  intros H1 H2 F1 F2.
  destruct (ForallOrdPairs_cons_inv _ _ _ patterns_exclusive) as [_ HP'].
  apply ForallOrdPairs_map in HP'.
  destruct (ForallOrdPairs_In HP' _ _ H1 H2) as [E | [D | D]]; [exact E | |].
  - destruct (F2 (patterns_disjoint_sound _ _ key D F1)).
  - destruct (F1 (patterns_disjoint_sound _ _ key D F2)).
Qed.

(** In a list of definitions of which one at most matches the key, the
    loop over the list stops at the one that matches. *)
Lemma resolve_exclusive (metrics : list unboundMetric) (metric : unboundMetric)
      (key value : string) (matches : list string) (ch0 : list Metric) :
  (forall m1 m2, In m1 metrics -> In m2 metrics ->
                 regexp.FindStringSubmatch (pattern m1) key <> None ->
                 regexp.FindStringSubmatch (pattern m2) key <> None -> m1 = m2) ->
  In metric metrics ->
  regexp.FindStringSubmatch (pattern metric) key = Some matches ->
  resolve metrics key value ch0 = outcome metric matches value ch0.
Proof.
  intros Hex Hin Hm.
  destruct (catalog_split metrics key)
    as [Hu | (before & metric' & after & matches' & Hc & Hb & Hm')].
  - unfold unmatched in Hu. rewrite Forall_forall in Hu.
    rewrite (Hu _ Hin) in Hm. discriminate.
  - assert (E : metric' = metric).
    { apply Hex; auto; try congruence.
      rewrite Hc. apply in_or_app. right. left. reflexivity. }
    subst metric'. rewrite Hm in Hm'. inversion Hm'; subst matches'.
    rewrite Hc. apply (resolve_first_match _ _ _ _ value _ ch0 Hb Hm).
Qed.

(** In the catalog, the definition that matches is the one that sends. *)
Lemma resolve_matching (metric : unboundMetric) (key value : string)
      (matches : list string) (ch0 : list Metric) :
  In metric unboundMetrics ->
  regexp.FindStringSubmatch (pattern metric) key = Some matches ->
  resolve unboundMetrics key value ch0 = outcome metric matches value ch0.
Proof.
  intros Hin Hm. apply resolve_exclusive; auto. intros m1 m2. apply catalog_exclusive.
Qed.

(** X1. No key matches two definitions of the catalog, and no key matches
    both a definition of the catalog and the pattern of the buckets: a line
    sends a sample or updates the histogram, never both, and [break] never
    hides a second match. *)
Theorem at_most_one_pattern_matches :
  forall (key : string),
    (forall before metric1 between metric2 after,
        unboundMetrics = before ++ metric1 :: between ++ metric2 :: after ->
        regexp.FindStringSubmatch (pattern metric1) key = None \/
        regexp.FindStringSubmatch (pattern metric2) key = None) /\
    (forall metric,
        In metric unboundMetrics ->
        regexp.FindStringSubmatch (pattern metric) key = None \/
        regexp.FindStringSubmatch histogramPattern key = None).
Proof.
  intros key.
  destruct (ForallOrdPairs_cons_inv _ _ _ patterns_exclusive) as [Hh HP']. split.
  - intros before metric1 between metric2 after Hc.
    rewrite Hc, map_app in HP'. cbn [map] in HP'. rewrite map_app in HP'. cbn [map] in HP'.
    apply ForallOrdPairs_split in HP'.
    destruct (regexp.FindStringSubmatch (pattern metric1) key) eqn:E; [|auto].
    right. apply (patterns_disjoint_sound _ _ key HP'). congruence.
  - intros metric Hin. rewrite Forall_map, Forall_forall in Hh.
    destruct (regexp.FindStringSubmatch histogramPattern key) eqn:E; [|auto].
    left. apply (patterns_disjoint_sound _ _ key (Hh _ Hin)). congruence.
Qed.

(** [num.answer.rcode.(\w+)] and [num.answer.bogus], on the key of the
    second; [num.query.tcp] and the pattern of the buckets. *)
Lemma at_most_one_pattern_matches_witness :
  (regexp.FindStringSubmatch (pattern (nth 0 unboundMetrics
      {| desc := unboundUpDesc; valueType := GaugeValue; pattern := histogramPattern |}))
      "num.answer.bogus" = None \/
   regexp.FindStringSubmatch (pattern (nth 1 unboundMetrics
      {| desc := unboundUpDesc; valueType := GaugeValue; pattern := histogramPattern |}))
      "num.answer.bogus" = None) /\
  (regexp.FindStringSubmatch (pattern (nth 16 unboundMetrics
      {| desc := unboundUpDesc; valueType := GaugeValue; pattern := histogramPattern |}))
      "num.query.tcp" = None \/
   regexp.FindStringSubmatch histogramPattern "num.query.tcp" = None).
Proof.
  split.
  - apply (proj1 (at_most_one_pattern_matches "num.answer.bogus")
             [] _ [] _ (skipn 2 unboundMetrics) eq_refl).
  - apply (proj2 (at_most_one_pattern_matches "num.query.tcp")).
    vm_compute. do 16 right. left. reflexivity.
Defined.

(** X2. Whenever the pattern of a definition of the catalog matches the key,
    the sample that is sent is the one of that definition (no definition is
    shadowed by an earlier one); and the catalog could be in any order: the
    loop over a rearranged catalog does the same. *)
Theorem catalog_order_is_immaterial :
  forall (key value : string) (ch0 : list Metric),
    (forall metric matches,
        In metric unboundMetrics ->
        regexp.FindStringSubmatch (pattern metric) key = Some matches ->
        resolve unboundMetrics key value ch0 = outcome metric matches value ch0) /\
    (forall metrics,
        Permutation metrics unboundMetrics ->
        resolve metrics key value ch0 = resolve unboundMetrics key value ch0).
Proof.
  intros key value ch0. split.
  - intros metric matches. apply resolve_matching.
  - intros metrics HP.
    destruct (catalog_split unboundMetrics key)
      as [Hu | (before & metric & after & matches & Hc & Hb & Hm)].
    + rewrite (resolve_unmatched _ _ value ch0 Hu).
      apply resolve_unmatched. unfold unmatched.
      apply (Permutation_Forall (Permutation_sym HP)). exact Hu.
    + assert (Hin : In metric unboundMetrics)
        by (rewrite Hc; apply in_or_app; right; left; reflexivity).
      rewrite (resolve_exclusive unboundMetrics metric key value matches ch0); auto.
      * apply resolve_exclusive; auto.
        -- intros m1 m2 H1 H2. apply catalog_exclusive; apply (Permutation_in _ HP); assumption.
        -- apply (Permutation_in _ (Permutation_sym HP)). exact Hin.
      * intros m1 m2. apply catalog_exclusive.
Qed.

(** The catalog read backwards. *)
Lemma catalog_order_is_immaterial_witness :
  resolve (rev unboundMetrics) "thread0.num.cachehits" "7" [] =
  resolve unboundMetrics "thread0.num.cachehits" "7" [].
Proof.
  apply (proj2 (catalog_order_is_immaterial "thread0.num.cachehits" "7" [])).
  apply Permutation_sym, Permutation_rev.
Defined.

(** X3. A definition without label has a pattern of literal bytes: it
    matches one key, the text of its pattern, and nothing else; for that
    key and a value that converts, the sample of the definition is sent,
    without label value. *)
Theorem unlabelled_definition_matches_one_key :
  forall (metric : unboundMetric),
    In metric unboundMetrics ->
    variableLabels (desc metric) = [] ->
    exists lit,
      literal_text (regexp.pieces (pattern metric)) = Some lit /\
      (forall key matches,
          regexp.FindStringSubmatch (pattern metric) key = Some matches <->
          key = lit /\ matches = [key]) /\
      (forall value v ch0,
          strconv.ParseFloat value = (v, None) ->
          resolve unboundMetrics lit value ch0 =
          (ch0 ++ [MustNewConstMetric (desc metric) (valueType metric) v []], None)).
Proof.
  intros metric Hin Hl.
  assert (Hall : Forall (fun m => variableLabels (desc m) = [] ->
                                  literal_text (regexp.pieces (pattern m)) <> None)
                        unboundMetrics)
    by (unfold unboundMetrics; repeat constructor; simpl; discriminate).
  rewrite Forall_forall in Hall. specialize (Hall _ Hin Hl).
  destruct (literal_text (regexp.pieces (pattern metric))) as [lit|] eqn:E; [|congruence].
  exists lit. split; [reflexivity|]. split.
  - intros key matches. apply literal_matches. exact E.
  - intros value v ch0 Hv.
    rewrite (resolve_matching metric lit value [lit] ch0 Hin).
    + unfold outcome. rewrite Hv. reflexivity.
    + apply (literal_matches _ _ _ _ E). auto.
Qed.

(** The definition of [num.query.tcp]. *)
Lemma unlabelled_definition_matches_one_key_witness :
  exists lit,
    literal_text
      (regexp.pieces (pattern (nth 16 unboundMetrics
         {| desc := unboundUpDesc; valueType := GaugeValue;
            pattern := histogramPattern |}))) = Some lit.
Proof.
  destruct (unlabelled_definition_matches_one_key
              (nth 16 unboundMetrics {| desc := unboundUpDesc; valueType := GaugeValue;
                                        pattern := histogramPattern |})
              ltac:(vm_compute; do 16 right; left; reflexivity)
              eq_refl) as (lit & H & _).
  exists lit. exact H.
Defined.

(** X4. A definition with a label has a pattern made of a literal prefix, one
    group that holds a non-empty run of digits or of word bytes, and a
    literal suffix: it matches the keys made of the prefix, such a run and
    the suffix, and no other key; for such a key and a value that converts,
    the sample of the definition is sent with the run as its one label
    value. No definition has more than one label. *)
Theorem labelled_definition_extracts_its_label :
  forall (metric : unboundMetric),
    In metric unboundMetrics ->
    variableLabels (desc metric) <> [] ->
    exists label pre rs post,
      variableLabels (desc metric) = [label] /\
      one_group (regexp.pieces (pattern metric)) = Some (pre, rs, post) /\
      (rs = regexp.perl_d \/ rs = regexp.perl_w) /\
      (forall key matches,
          regexp.FindStringSubmatch (pattern metric) key = Some matches <->
          exists w, run_of rs w /\ key = (pre ++ w ++ post)%string /\ matches = [key; w]) /\
      (forall w value v ch0,
          run_of rs w ->
          strconv.ParseFloat value = (v, None) ->
          resolve unboundMetrics (pre ++ w ++ post) value ch0 =
          (ch0 ++ [MustNewConstMetric (desc metric) (valueType metric) v [w]], None)).
Proof.
  intros metric Hin Hl.
  assert (Hall : Forall (fun m => variableLabels (desc m) <> [] ->
                           exists label pre rs post,
                             variableLabels (desc m) = [label] /\
                             one_group (regexp.pieces (pattern m)) = Some (pre, rs, post) /\
                             (rs = regexp.perl_d \/ rs = regexp.perl_w))
                        unboundMetrics).
  { unfold unboundMetrics. repeat constructor; cbn [desc variableLabels pattern];
      intros H; try congruence;
      do 4 eexists; (split; [reflexivity|]); (split; [reflexivity|]);
      (left; reflexivity) || (right; reflexivity). }
  rewrite Forall_forall in Hall.
  destruct (Hall _ Hin Hl) as (label & pre & rs & post & E1 & E2 & Hrs).
  exists label, pre, rs, post. repeat (split; [assumption|]). split.
  - intros key matches. apply one_group_matches. exact E2.
  - intros w value v ch0 Hw Hv.
    rewrite (resolve_matching metric (pre ++ w ++ post) value
                              [(pre ++ w ++ post)%string; w] ch0 Hin).
    + unfold outcome. rewrite Hv. reflexivity.
    + apply (one_group_matches _ _ _ _ _ _ E2). exists w. auto.
Qed.

(** The definition of [thread<n>.num.cachehits]. *)
Lemma labelled_definition_extracts_its_label_witness :
  exists label pre rs post,
    variableLabels (desc (nth 3 unboundMetrics
       {| desc := unboundUpDesc; valueType := GaugeValue;
          pattern := histogramPattern |})) = [label] /\
    one_group (regexp.pieces (pattern (nth 3 unboundMetrics
       {| desc := unboundUpDesc; valueType := GaugeValue;
          pattern := histogramPattern |}))) = Some (pre, rs, post).
Proof.
  destruct (labelled_definition_extracts_its_label
              (nth 3 unboundMetrics {| desc := unboundUpDesc; valueType := GaugeValue;
                                       pattern := histogramPattern |})
              ltac:(vm_compute; do 3 right; left; reflexivity)
              ltac:(vm_compute; discriminate))
    as (label & pre & rs & post & H1 & H2 & _).
  exists label, pre, rs, post. auto.
Defined.

(** ** Lines are read one by one *)

Lemma resolve_frame (metrics : list unboundMetric) (key value : string)
      (ch0 : list Metric) :
  resolve metrics key value ch0 =
  (ch0 ++ fst (resolve metrics key value []), snd (resolve metrics key value [])).
Proof.
  induction metrics as [|m ms IH]; simpl.
  - rewrite app_nil_r. reflexivity.
  - destruct (regexp.FindStringSubmatch (pattern m) key); [|exact IH].
    destruct (strconv.ParseFloat value) as [v [e|]]; simpl;
      [rewrite app_nil_r|]; reflexivity.
Qed.

(** What a line sends and whether it fails does not depend on the lines
    before it. *)
Lemma scan_line_frame (text : string) (st : scrape) :
  ch (fst (scan_line text st)) = ch st ++ line_samples text /\
  snd (scan_line text st) = line_error text.
Proof.
  unfold line_samples, line_error, scan_line.
  destruct (Split text "=") as [|key [|value [|x l]]];
    try (simpl; rewrite app_nil_r; auto).
  rewrite (resolve_frame unboundMetrics key value (ch st)).
  cbn [start ch].
  destruct (resolve unboundMetrics key value []) as [new [e|]]; simpl; [auto|].
  destruct (regexp.FindStringSubmatch histogramPattern key); [|simpl; auto].
  destruct (strconv.ParseUint value) as [n [e|]]; simpl; auto.
Qed.

Lemma line_error_no_samples (text : string) :
  line_error text <> None -> line_samples text = [].
Proof.
  unfold line_error, line_samples. intros H.
  destruct (scan_line text (start [])) as [st' r] eqn:E. simpl in *.
  destruct (scan_line_channel _ _ _ _ E) as (new & Hch & _ & _ & Hn).
  rewrite Hch. simpl. apply Hn. exact H.
Qed.

(** The loop over lines that do not fail on their own. *)
Lemma scan_ok (texts : list string) (st : scrape) :
  Forall (fun text => line_error text = None) texts ->
  snd (scan texts st) = None /\
  ch (fst (scan texts st)) = ch st ++ flat_map line_samples texts.
Proof.
  intros H. revert st. induction H as [|text texts Ht _ IH]; intros st.
  - simpl. rewrite app_nil_r. auto.
  - destruct (scan_line_frame text st) as [Hch Herr]. rewrite Ht in Herr.
    cbn [scan]. destruct (scan_line text st) as [st1 r]. simpl in Hch, Herr. subst r.
    destruct (IH st1) as [Hs Hc]. split; [exact Hs|].
    rewrite Hc, Hch. simpl. rewrite app_assoc. reflexivity.
Qed.

(** The loop over lines of which one fails on its own. *)
Lemma scan_fail (before after : list string) (text : string) (err : error) (st : scrape) :
  Forall (fun text => line_error text = None) before ->
  line_error text = Some err ->
  snd (scan (before ++ text :: after) st) = Some err /\
  ch (fst (scan (before ++ text :: after) st)) = ch st ++ flat_map line_samples before.
Proof.
  intros Hb Ht. destruct (scan_ok before st Hb) as [Hs Hc].
  rewrite scan_app. destruct (scan before st) as [st1 r]. simpl in Hs, Hc. subst r.
  destruct (scan_line_frame text st1) as [Hch Herr]. rewrite Ht in Herr.
  cbn [scan]. destruct (scan_line text st1) as [st2 r]. simpl in Hch, Herr. subst r.
  simpl. split; [reflexivity|].
  rewrite Hch, (line_error_no_samples text), app_nil_r by congruence. exact Hc.
Qed.

(** Either no line fails on its own, or there is a first one that does. *)
Lemma first_failure (texts : list string) :
  Forall (fun text => line_error text = None) texts \/
  exists before text after err,
    texts = before ++ text :: after /\
    Forall (fun text => line_error text = None) before /\
    line_error text = Some err.
Proof.
  induction texts as [|text texts IH]; [left; constructor|].
  destruct (line_error text) as [err|] eqn:E.
  - right. exists [], text, texts, err. auto.
  - destruct IH as [H | (before & t & after & err & -> & Hb & Ht)].
    + left. constructor; assumption.
    + right. exists (text :: before), t, after, err. repeat split; auto.
Qed.

(** The scrape of lines that do not fail: the samples of the lines in their
    order, then the histogram of the bucket lines. *)
Lemma CollectFromReader_ok (file : Reader) (ch0 : list Metric) :
  Forall (fun text => line_error text = None) (lines file) ->
  CollectFromReader file ch0 =
  (ch0 ++ flat_map line_samples (lines file) ++ [histogram_of (lines file)],
   scanErr file).
Proof.
  intros H. destruct (scan_ok (lines file) (start ch0) H) as [Hs Hc].
  destruct (scan (lines file) (start ch0)) as [st r] eqn:E. simpl in Hs, Hc. subst r.
  rewrite (CollectFromReader_end _ _ _ E), Hc.
  destruct (scan_histogram _ _ _ E) as (Hn & Hsum & Hm). simpl in Hn, Hsum, Hm.
  unfold histogram_of, raw_buckets. rewrite <- Hm, <- Hsum.
  replace (total (bucket_lines (lines file)) mod two64) with (histogramCount st).
  - rewrite <- app_assoc. reflexivity.
  - rewrite Hn. change 0 with (0 mod two64) at 1. rewrite fold_add64. reflexivity.
Qed.

(** The scrape of lines of which one fails: the samples of the lines before
    the first that fails, and its error. *)
Lemma CollectFromReader_fail (before after : list string) (text : string) (err : error)
      (r : option error) (ch0 : list Metric) :
  Forall (fun text => line_error text = None) before ->
  line_error text = Some err ->
  CollectFromReader {| lines := before ++ text :: after; scanErr := r |} ch0 =
  (ch0 ++ flat_map line_samples before, Some err).
Proof.
  intros Hb Ht. destruct (scan_fail before after text err (start ch0) Hb Ht) as [Hs Hc].
  destruct (scan (before ++ text :: after) (start ch0)) as [st e] eqn:E.
  simpl in Hs, Hc. subst e.
  rewrite (CollectFromReader_error {| lines := before ++ text :: after; scanErr := r |}
                                   ch0 st err E), Hc.
  reflexivity.
Qed.

Lemma CollectFromReader_frame (file : Reader) (ch0 : list Metric) :
  CollectFromReader file ch0 =
  (ch0 ++ fst (CollectFromReader file []), snd (CollectFromReader file [])).
Proof.
  destruct (first_failure (lines file))
    as [H | (before & text & after & err & E & Hb & Ht)].
  - rewrite (CollectFromReader_ok file ch0 H), (CollectFromReader_ok file [] H).
    reflexivity.
  - destruct file as [ls r]. simpl in E. subst ls.
    rewrite (CollectFromReader_fail _ _ _ err r ch0 Hb Ht),
      (CollectFromReader_fail _ _ _ err r [] Hb Ht).
    reflexivity.
Qed.

Lemma line_samples_fit (text : string) : Forall fits (line_samples text).
Proof.
  unfold line_samples, scan_line.
  destruct (Split text "=") as [|key [|value [|x l]]]; try (simpl; constructor).
  assert (H : Forall fits (fst (resolve unboundMetrics key value []))).
  { destruct (catalog_split unboundMetrics key)
      as [Hu | (before & metric & after & matches & Hc & Hb & Hm)].
    - rewrite (resolve_unmatched _ _ value [] Hu). constructor.
    - rewrite Hc at 1. rewrite (resolve_first_match _ _ _ _ value _ [] Hb Hm).
      destruct (strconv.ParseFloat value) as [v [e|]]; simpl; constructor; [|constructor].
      apply (catalog_label_arity metric key matches); [|exact Hm].
      rewrite Hc. apply in_or_app. right. left. reflexivity. }
  cbn [start ch].
  destruct (resolve unboundMetrics key value []) as [new [e|]]; simpl in *; [exact H|].
  destruct (regexp.FindStringSubmatch histogramPattern key); [|exact H].
  destruct (strconv.ParseUint value) as [n [e|]]; exact H.
Qed.

(** X5. Lines are read independently of each other: what a line sends and
    whether it fails does not depend on the lines read before it. When no
    line fails, the scrape sends the samples of the lines in the order of
    the lines and then one histogram, which is made of the bucket lines
    alone, and returns what the scanner reports. *)
Theorem scrape_is_samples_then_histogram :
  (forall text st,
      ch (fst (scan_line text st)) = ch st ++ line_samples text /\
      snd (scan_line text st) = line_error text) /\
  (forall file ch0,
      Forall (fun text => line_error text = None) (lines file) ->
      CollectFromReader file ch0 =
      (ch0 ++ flat_map line_samples (lines file) ++ [histogram_of (lines file)],
       scanErr file)).
Proof. split; [exact scan_line_frame | exact CollectFromReader_ok]. Qed.

(** A sample line, a bucket line and a line that is left out. *)
Lemma scrape_is_samples_then_histogram_witness :
  CollectFromReader
    {| lines := ["num.query.tcp=42"; "histogram.0.0.to.0.1=3"; "foo.bar=1"];
       scanErr := None |} [] =
  ([] ++ flat_map line_samples ["num.query.tcp=42"; "histogram.0.0.to.0.1=3"; "foo.bar=1"]
      ++ [histogram_of ["num.query.tcp=42"; "histogram.0.0.to.0.1=3"; "foo.bar=1"]],
   None).
Proof.
  apply (proj2 scrape_is_samples_then_histogram
           {| lines := ["num.query.tcp=42"; "histogram.0.0.to.0.1=3"; "foo.bar=1"];
              scanErr := None |} []).
  repeat constructor.
Defined.

(** X6. The scrape fails exactly on the first line that fails on its own,
    with the error of that line: it has sent the samples of the lines
    before it, the failing line sends nothing, the lines after it are not
    read and no histogram is sent. *)
Theorem first_failing_line_decides :
  forall (before after : list string) (text : string) (err : error)
         (r : option error) (ch0 : list Metric),
    Forall (fun text => line_error text = None) before ->
    line_error text = Some err ->
    CollectFromReader {| lines := before ++ text :: after; scanErr := r |} ch0 =
      (ch0 ++ flat_map line_samples before, Some err) /\
    line_samples text = [].
Proof.
  intros before after text err r ch0 Hb Ht. split.
  - apply CollectFromReader_fail; assumption.
  - apply line_error_no_samples. congruence.
Qed.

(** A value that is no number, between two lines that are fine. *)
Lemma first_failing_line_decides_witness :
  CollectFromReader
    {| lines := ["time.up=1"] ++ "time.now=soon" :: ["garbage"]; scanErr := None |} [] =
  ([] ++ flat_map line_samples ["time.up=1"],
   Some (NumError {| strconv.Func := "ParseFloat"; strconv.Num := "soon";
                     strconv.Err := strconv.ErrSyntax |})).
Proof.
  apply (first_failing_line_decides ["time.up=1"] ["garbage"] "time.now=soon").
  - repeat constructor.
  - vm_compute. reflexivity.
Defined.

(** X7. A scrape only adds to the channel: what it sends and the error it
    returns do not depend on what the channel holds already, and what was
    on the channel stays there in front, through a reader, a file or the
    control socket, and in [Collect]. *)
Theorem channel_is_only_extended :
  forall (ch0 : list Metric),
    (forall file,
        CollectFromReader file ch0 =
        (ch0 ++ fst (CollectFromReader file []), snd (CollectFromReader file []))) /\
    (forall path,
        CollectFromFile path ch0 =
        (ch0 ++ fst (CollectFromFile path []), snd (CollectFromFile path []))) /\
    (forall conn,
        CollectFromSocket conn ch0 =
        (ch0 ++ fst (CollectFromSocket conn []), snd (CollectFromSocket conn []))) /\
    (forall conn, Collect conn ch0 = ch0 ++ Collect conn []).
Proof.
  intros ch0.
  assert (HS : forall conn,
             CollectFromSocket conn ch0 =
             (ch0 ++ fst (CollectFromSocket conn []), snd (CollectFromSocket conn []))).
  { intros [err|err|file]; simpl; try (rewrite app_nil_r; reflexivity).
    apply CollectFromReader_frame. }
  split; [intros file; apply CollectFromReader_frame|]. split; [|split; [exact HS|]].
  - intros [err|file]; simpl; [rewrite app_nil_r; reflexivity|].
    apply CollectFromReader_frame.
  - intros conn. unfold Collect. rewrite (HS conn).
    destruct (CollectFromSocket conn []) as [ch1 [e|]]; simpl;
      rewrite <- app_assoc; reflexivity.
Qed.

(** X8. No constructor of a metric panics: every metric that [Collect]
    sends has as many label values as its descriptor has labels. *)
Theorem sent_metrics_fit_their_descriptors :
  forall (conn : Socket) (m : Metric), In m (Collect conn []) -> fits m.
Proof.
  intros conn m.
  assert (Hup : forall v, fits (MustNewConstMetric unboundUpDesc GaugeValue v []))
    by (intros v; reflexivity).
  assert (HR : forall file, Forall fits (fst (CollectFromReader file []))).
  { intros file. destruct (first_failure (lines file))
      as [H | (before & text & after & err & E & Hb & Ht)].
    - rewrite (CollectFromReader_ok file [] H). simpl.
      apply Forall_app. split; [|repeat constructor].
      apply Forall_flat_map. rewrite Forall_forall. intros t _. apply line_samples_fit.
    - destruct file as [ls r]. simpl in E. subst ls.
      rewrite (CollectFromReader_fail _ _ _ err r [] Hb Ht). simpl.
      apply Forall_flat_map. rewrite Forall_forall. intros t _. apply line_samples_fit. }
  unfold Collect. destruct conn as [err|err|file]; simpl.
  - intros [<- | []]. apply Hup.
  - intros [<- | []]. apply Hup.
  - specialize (HR file). rewrite Forall_forall in HR.
    destruct (CollectFromReader file []) as [ch1 [e|]]; simpl in HR; intros Hin;
      apply in_app_or in Hin; destruct Hin as [Hin | [<- | []]]; auto.
Qed.

(** A sample with a label. *)
Lemma sent_metrics_fit_their_descriptors_witness :
  fits (MustNewConstMetric
          (NewDesc "unbound_cache_hits_total"
             "Total number of queries that were successfully answered using a cache lookup."
             ["thread"])
          CounterValue (f64 "7") ["0"]).
Proof.
  apply (sent_metrics_fit_their_descriptors
           (Connected {| lines := ["thread0.num.cachehits=7"]; scanErr := None |})).
  vm_compute. left. reflexivity.
Defined.

(** ** The count of a bucket line *)

Lemma digit_val_range (c : ascii) : is_digit c = true -> 0 <= digit_val c <= 9.
Proof.
  intros H. apply is_digit_cases in H. simpl in H.
  repeat (destruct H as [<- | H]; [vm_compute; split; discriminate|]). contradiction.
Qed.

Lemma decimal_from_ge (s : string) (n : Z) :
  all_bytes is_digit s = true -> 0 <= n -> n <= decimal_from n s.
Proof.
  revert n. induction s as [|c s IH]; intros n Hs Hn; simpl; [lia|].
  simpl in Hs. apply andb_prop in Hs. destruct Hs as [Hc Hs].
  pose proof (digit_val_range c Hc). specialize (IH (n * 10 + digit_val c) Hs). lia.
Qed.

Lemma parseUint_loop_digits (s : string) (n : Z) :
  0 <= n < two64 -> all_bytes is_digit s = true -> decimal_from n s < two64 ->
  strconv.parseUint_loop s n = (decimal_from n s, None).
Proof.
  revert n. induction s as [|c s IH]; intros n Hn Hs Hd; simpl; [reflexivity|].
  simpl in Hs. apply andb_prop in Hs. destruct Hs as [Hc Hs]. rewrite Hc.
  pose proof (digit_val_range c Hc) as Hv. simpl in Hd.
  pose proof (decimal_from_ge s (n * 10 + digit_val c) Hs ltac:(lia)) as Hge.
  unfold two64 in *.
  change strconv.cutoff with 1844674407370955162.
  change strconv.maxUint64 with 18446744073709551615.
  destruct (1844674407370955162 <=? n) eqn:E1; [apply Z.leb_le in E1; lia|].
  assert (Ha : add64 (n * 10) (digit_val c) = n * 10 + digit_val c)
    by (apply add64_small; unfold two64; lia).
  rewrite Ha.
  destruct (n * 10 + digit_val c <? n * 10) eqn:E2; [apply Z.ltb_lt in E2; lia|].
  destruct (18446744073709551615 <? n * 10 + digit_val c) eqn:E3;
    [apply Z.ltb_lt in E3; lia|].
  simpl. apply IH; auto. unfold two64. lia.
Qed.

Lemma parseUint_loop_inv (s : string) (n v : Z) :
  0 <= n < two64 -> strconv.parseUint_loop s n = (v, None) ->
  all_bytes is_digit s = true /\ decimal_from n s < two64 /\ v = decimal_from n s.
Proof.
  revert n. induction s as [|c s IH]; intros n Hn; simpl.
  - intros E. inversion E; subst. repeat split. lia.
  - destruct (is_digit c) eqn:Hc; [|discriminate].
    pose proof (digit_val_range c Hc) as Hv.
    unfold two64 in *.
    change strconv.cutoff with 1844674407370955162.
    change strconv.maxUint64 with 18446744073709551615.
    destruct (1844674407370955162 <=? n) eqn:E1; [discriminate|].
    apply Z.leb_gt in E1.
    destruct ((add64 (n * 10) (digit_val c) <? n * 10)
              || (18446744073709551615 <? add64 (n * 10) (digit_val c))) eqn:E2;
      [discriminate|].
    apply orb_false_elim in E2. destruct E2 as [E2 E3].
    apply Z.ltb_ge in E2. apply Z.ltb_ge in E3.
    assert (Ha : add64 (n * 10) (digit_val c) = n * 10 + digit_val c).
    { destruct (Z_lt_ge_dec (n * 10 + digit_val c) 18446744073709551616) as [L | G].
      - apply add64_small. unfold two64. lia.
      - exfalso.
        assert (Hm : add64 (n * 10) (digit_val c)
                     = n * 10 + digit_val c - 18446744073709551616).
        { unfold add64, two64. symmetry.
          apply (Z.mod_unique _ _ 1); [left; lia | lia]. }
        lia. }
    rewrite Ha in *. intros E.
    destruct (IH (n * 10 + digit_val c) ltac:(unfold two64; lia) E) as (Hs & Hd & ->).
    simpl. auto.
Qed.

(** [ParseUint] accepts the non-empty texts of decimal digits that stand
    for a number below 2^64, and returns that number. *)
Lemma ParseUint_decimal (s : string) (n : Z) :
  strconv.ParseUint s = (n, None) <-> digits s /\ decimal s < two64 /\ n = decimal s.
Proof.
  unfold strconv.ParseUint, digits, decimal. split.
  - destruct s as [|c s]; [discriminate|].
    destruct (strconv.parseUint_loop (String c s) 0) as [v [e|]] eqn:E; [discriminate|].
    intros H. inversion H; subst.
    destruct (parseUint_loop_inv _ 0 _ ltac:(unfold two64; lia) E) as (Hs & Hd & ->).
    repeat split; auto. discriminate.
  - intros ((Hne & Hs) & Hd & ->). destruct s as [|c s]; [congruence|].
    rewrite (parseUint_loop_digits _ 0 ltac:(unfold two64; lia) Hs Hd). reflexivity.
Qed.

(** X9. The count of a bucket line has to be a plain decimal number that
    fits 64 bits: for a key that matches the pattern of the buckets, the
    line is accepted when, and only when, its value is a non-empty text of
    decimal digits that stands for a number below 2^64; that number is then
    added to the total count and written in the map at the upper bound. A
    value with a sign, a point or an exponent, which would do for a sample,
    makes the scrape fail with the error of [ParseUint]. *)
Theorem bucket_count_is_plain_decimal :
  forall (text key value : string) (matches : list string) (st : scrape),
    Split text "=" = [key; value] ->
    regexp.FindStringSubmatch histogramPattern key = Some matches ->
    (digits value /\ decimal value < two64 ->
     exists st',
       scan_line text st = (st', None) /\
       histogramCount st' = add64 (histogramCount st) (decimal value) /\
       histogramBuckets st' =
         map_set (histogramBuckets st) (f64 (nth 2 matches EmptyString)) (decimal value)) /\
    (~ (digits value /\ decimal value < two64) ->
     exists e,
       scan_line text st = (st, Some (NumError e)) /\
       strconv.Func e = "ParseUint" /\ strconv.Num e = value).
Proof.
  intros text key value matches st Hs Hm.
  assert (E : scan_line text st =
              match strconv.ParseUint value with
              | (_, Some err) => (st, Some (NumError err))
              | (n, None) =>
                  ({| ch := ch st;
                      histogramCount := add64 (histogramCount st) n;
                      histogramSum :=
                        fadd (histogramSum st)
                             (fmul (fsub (f64 (nth 2 matches EmptyString))
                                         (f64 (nth 1 matches EmptyString)))
                                   (float64_of_uint64 n));
                      histogramBuckets :=
                        map_set (histogramBuckets st) (f64 (nth 2 matches EmptyString)) n |},
                   None)
              end).
  { unfold scan_line.
    rewrite Hs, (resolve_unmatched _ _ value (ch st) (histogram_key_unmatched _ _ Hm)), Hm.
    destruct (strconv.ParseUint value) as [n [e|]]; [rewrite scrape_eta|]; reflexivity. }
  rewrite E. split.
  - intros [Hd Hlt].
    rewrite (proj2 (ParseUint_decimal value (decimal value))) by auto.
    eexists. split; [reflexivity|]. simpl. auto.
  - intros Hn. destruct (strconv.ParseUint value) as [n [e|]] eqn:Hu.
    + exists e. split; [reflexivity|]. apply (ParseUint_error _ _ _ Hu).
    + exfalso. apply Hn. apply ParseUint_decimal in Hu. tauto.
Qed.

(** The count [7] is taken, the count [2.5] is refused. *)
Lemma bucket_count_is_plain_decimal_witness :
  (exists st', scan_line "histogram.0.0.to.0.1=7" (start []) = (st', None)) /\
  (exists e, scan_line "histogram.0.0.to.0.1=2.5" (start []) =
             (start [], Some (NumError e))).
Proof.
  split.
  - destruct (proj1 (bucket_count_is_plain_decimal
                       "histogram.0.0.to.0.1=7" "histogram.0.0.to.0.1" "7"
                       ["histogram.0.0.to.0.1"; "0.0"; "0.1"] (start []) eq_refl eq_refl)
                ltac:(vm_compute; repeat split; discriminate)) as (st' & H & _).
    exists st'. exact H.
  - destruct (proj2 (bucket_count_is_plain_decimal
                       "histogram.0.0.to.0.1=2.5" "histogram.0.0.to.0.1" "2.5"
                       ["histogram.0.0.to.0.1"; "0.0"; "0.1"] (start []) eq_refl eq_refl)
                ltac:(vm_compute; intros [[_ H] _]; discriminate H)) as (e & H & _).
    exists e. exact H.
Defined.

(** ** Cumulative counts are sums modulo 2^64 *)

Lemma sum_at_app (m : bucketMap) (l1 l2 : list float64) :
  sum_at m (l1 ++ l2) = sum_at m l1 + sum_at m l2.
Proof. induction l1 as [|k l1 IH]; simpl; [reflexivity|]. fold (sum_at m (l1 ++ l2)).
  fold (sum_at m l1). rewrite IH. lia. Qed.

(** After the loop over the keys, a key holds the counts of the keys up to
    it in the list, added up in [uint64]. *)
Lemma cumulate_prefix (ks : list float64) :
  forall (m : bucketMap) (prev : Z) (l1 : list float64) (k : float64) (l2 : list float64),
    no_nan ks -> distinct ks -> ks = l1 ++ k :: l2 ->
    map_get (cumulate ks m prev) k = (prev + sum_at m (l1 ++ [k])) mod two64.
Proof.
  induction ks as [|k0 ks IH]; intros m prev l1 k l2 Hn Hd E.
  - destruct l1; discriminate.
  - inversion Hn as [|? ? Hk0 Hn']; subst.
    apply distinct_inv in Hd. destruct Hd as [Hf Hd].
    cbn [cumulate]. rewrite map_get_set, (feq_refl _ Hk0).
    destruct l1 as [|k1 l1]; simpl in E; inversion E; subst.
    + rewrite (cumulate_other _ _ _ _ Hf), map_get_set, (feq_refl _ Hk0).
      simpl. unfold add64. f_equal. lia.
    + rewrite (IH _ _ l1 k l2 Hn' Hd eq_refl).
      assert (Hf' : Forall (fun k' => feq k1 k' = false) (l1 ++ [k])).
      { rewrite Forall_forall in *. intros x Hx. apply Hf.
        apply in_app_or in Hx. apply in_or_app.
        destruct Hx as [Hx | [<- | []]]; [left; exact Hx | right; left; reflexivity]. }
      rewrite (sum_at_set _ _ _ _ Hf'). unfold add64.
      rewrite Zplus_mod_idemp_l. cbn [app sum_at fold_right].
      fold (sum_at m (l1 ++ [k])). f_equal. lia.
Qed.

(** In an ascending list of keys that differ, the keys not above a key are
    the keys up to it. *)
Lemma up_to_prefix (l1 : list float64) :
  forall (k : float64) (l2 : list float64),
    no_nan (l1 ++ k :: l2) -> distinct (l1 ++ k :: l2) -> ascending (l1 ++ k :: l2) ->
    up_to k (l1 ++ k :: l2) = l1 ++ [k].
Proof.
  induction l1 as [|k1 l1 IH]; intros k l2 Hn Hd Ha; simpl in *.
  - unfold up_to. cbn [filter]. rewrite flt_irrefl. cbn [negb]. f_equal.
    inversion Hn as [|? ? Hk Hn']; subst.
    apply distinct_inv in Hd. destruct Hd as [Hf _].
    inversion Ha as [|? ? _ Hs]; subst.
    rewrite Forall_forall in Hn', Hf, Hs. clear Hn Ha.
    induction l2 as [|x l2 IH2]; [reflexivity|]. cbn [filter].
    assert (Hx : In x (x :: l2)) by (left; reflexivity).
    destruct (flt_total k x Hk (Hn' _ Hx)) as [L | [L | L]].
    + rewrite L. cbn [negb]. apply IH2; intros y Hy;
        first [apply Hn' | apply Hf | apply Hs]; right; exact Hy.
    + rewrite (Hf _ Hx) in L. discriminate.
    + rewrite (Hs _ Hx) in L. discriminate.
  - inversion Hn as [|? ? Hk1 Hn']; subst.
    apply distinct_inv in Hd. destruct Hd as [_ Hd].
    inversion Ha as [|? ? Ha' Hs]; subst.
    unfold up_to. cbn [filter].
    rewrite Forall_forall in Hs.
    rewrite (Hs k) by (apply in_or_app; right; left; reflexivity).
    cbn [negb]. f_equal. apply (IH k l2 Hn' Hd Ha').
Qed.

Lemma sum_at_up_to_perm (m : bucketMap) (k : float64) (l l' : list float64) :
  Permutation l l' -> sum_at m (up_to k l) = sum_at m (up_to k l').
Proof.
  unfold up_to. induction 1 as [| x l l' _ IH | x y l | l l' l'' _ IH1 _ IH2]; simpl.
  - reflexivity.
  - destruct (negb (flt k x)); [|exact IH].
    unfold sum_at in *. simpl. rewrite IH. reflexivity.
  - destruct (negb (flt k x)), (negb (flt k y)); simpl; lia.
  - lia.
Qed.

(** The counts after the conversion, whatever the order in which the keys
    of the map are met. *)
Lemma cumulate_sorted (m : bucketMap) (k : float64) :
  no_nan (map_keys m) -> distinct (map_keys m) -> In k (map_keys m) ->
  map_get (cumulate (Float64s (map_keys m)) m 0) k =
  sum_at m (up_to k (map_keys m)) mod two64.
Proof.
  intros Hn Hd Hin.
  pose proof (Float64s_perm (map_keys m)) as HP.
  assert (Hn' : no_nan (Float64s (map_keys m)))
    by (apply (no_nan_perm (map_keys m)); [symmetry; exact HP | exact Hn]).
  assert (Hd' : distinct (Float64s (map_keys m)))
    by (apply (distinct_perm (map_keys m)); [symmetry; exact HP | exact Hd]).
  pose proof (Float64s_ascending _ Hn) as Ha.
  assert (Hin' : In k (Float64s (map_keys m)))
    by (apply (Permutation_in _ (Permutation_sym HP)); exact Hin).
  destruct (in_split _ _ Hin') as (l1 & l2 & E).
  rewrite (cumulate_prefix _ m 0 l1 k l2 Hn' Hd' E).
  rewrite <- (sum_at_up_to_perm m k _ _ HP).
  rewrite E in Hn', Hd', Ha |- *.
  rewrite (up_to_prefix l1 k l2 Hn' Hd' Ha). reflexivity.
Qed.

(** ** The keys of the bucket map *)

Lemma map_set_key_in (m : bucketMap) (k : float64) (v : Z) :
  In k (map_keys (map_set m k v)).
Proof.
  induction m as [|[k' v'] m IH]; simpl; [auto|].
  destruct (feq k' k); simpl; auto.
Qed.

Lemma map_set_key_kept (m : bucketMap) (k x : float64) (v : Z) :
  In x (map_keys m) -> In x (map_keys (map_set m k v)) \/ feq x k = true.
Proof.
  induction m as [|[k' v'] m IH]; simpl; [tauto|].
  intros [<- | H].
  - destruct (feq k' k) eqn:E; simpl; auto.
  - destruct (feq k' k); simpl; [auto|]. destruct (IH H); auto.
Qed.

Lemma fold_set_keys_in (bs : list bucketLine) (m : bucketMap) (k : float64) :
  In k (map_keys (fold_left (fun m b => map_set m (upperBound b) (observations b)) bs m)) ->
  In k (map_keys m) \/ In k (map upperBound bs).
Proof.
  revert m. induction bs as [|b bs IH]; intros m; simpl; [auto|].
  intros H. destruct (IH _ H) as [H' | H']; [|auto].
  destruct (map_set_keys_in _ _ _ _ H') as [-> | H'']; auto.
Qed.

Lemma fold_set_keys_kept (bs : list bucketLine) (m : bucketMap) (k q : float64) :
  In k (map_keys m) -> feq k q = true ->
  exists k',
    In k' (map_keys (fold_left (fun m b => map_set m (upperBound b) (observations b)) bs m))
    /\ feq k' q = true.
Proof.
  revert m k. induction bs as [|b bs IH]; intros m k Hin Hq; simpl.
  - exists k. auto.
  - destruct (map_set_key_kept m (upperBound b) k (observations b) Hin) as [H | H].
    + apply (IH _ k H Hq).
    + apply (IH _ (upperBound b) (map_set_key_in _ _ _)).
      rewrite feq_sym in H. apply (feq_trans _ _ _ H Hq).
Qed.

Lemma fold_set_keys_hit (bs : list bucketLine) (m : bucketMap) (b : bucketLine) :
  In b bs -> isNaN (upperBound b) = false ->
  exists k,
    In k (map_keys (fold_left (fun m b => map_set m (upperBound b) (observations b)) bs m))
    /\ feq k (upperBound b) = true.
Proof.
  revert m. induction bs as [|b0 bs IH]; intros m Hin Hb; [contradiction|]. simpl.
  destruct Hin as [-> | Hin]; [|apply (IH _ Hin Hb)].
  apply (fold_set_keys_kept bs _ (upperBound b) (upperBound b) (map_set_key_in _ _ _)).
  apply feq_refl. exact Hb.
Qed.

(** The histogram that is sent, from the lines of the stream. *)
Lemma sent_buckets (file : Reader) (d : Desc) (count : Z) (sum : float64)
      (buckets : bucketMap) :
  In (ConstHistogram d count sum buckets) (fst (CollectFromReader file [])) ->
  let raw := raw_buckets (lines file) in
  buckets = cumulate (Float64s (map_keys raw)) raw 0 /\
  no_nan (map_keys raw) /\ distinct (map_keys raw) /\ map_keys buckets = map_keys raw.
Proof.
  intros Hin raw. destruct (sent_histogram _ _ _ _ _ Hin) as (st & Hscan & _ & _ & ->).
  destruct (scan_histogram _ _ _ Hscan) as (_ & _ & Hm). simpl in Hm.
  destruct (scan_keys_wf _ _ _ _ Hscan) as [Hn Hd]; [split; constructor|].
  fold (raw_buckets (lines file)) in Hm. fold raw in Hm. rewrite Hm in *.
  repeat split; auto.
  apply cumulate_keys; auto.
  intros x Hx. apply (Permutation_in _ (Float64s_perm _)). exact Hx.
Qed.

(** X10. The conversion to a cumulative histogram, without any condition on
    the counts: in the histogram that a scrape sends, the count at an upper
    bound is the sum, taken modulo 2^64 as [uint64] does, of the counts the
    loop over the lines left in the map at the upper bounds that are not
    above it. The conversion changes the counts only: the keys of the map
    stay as the loop over the lines left them. *)
Theorem cumulative_counts_are_sums_modulo_2_64 :
  forall (file : Reader) (d : Desc) (count : Z) (sum : float64) (buckets : bucketMap),
    In (ConstHistogram d count sum buckets) (fst (CollectFromReader file [])) ->
    map_keys buckets = map_keys (raw_buckets (lines file)) /\
    forall k,
      In k (map_keys buckets) ->
      map_get buckets k =
      sum_at (raw_buckets (lines file)) (up_to k (map_keys buckets)) mod two64.
Proof.
  intros file d count sum buckets Hin.
  destruct (sent_buckets _ _ _ _ _ Hin) as (Hb & Hn & Hd & Hk).
  split; [exact Hk|]. intros k Hkin. rewrite Hk in *. rewrite Hb.
  apply cumulate_sorted; assumption.
Qed.

(** Three buckets, met in an order that is not the ascending one. *)
Lemma cumulative_counts_are_sums_modulo_2_64_witness :
  map_get [(f64 "0.4", 18446744073709551615); (f64 "0.1", 1); (f64 "0.2", 3)] (f64 "0.2") =
  sum_at (raw_buckets ["histogram.0.2.to.0.4=18446744073709551612";
                       "histogram.0.0.to.0.1=1"; "histogram.0.1.to.0.2=2"])
         (up_to (f64 "0.2") [f64 "0.4"; f64 "0.1"; f64 "0.2"]) mod two64.
Proof.
  refine (proj2 (cumulative_counts_are_sums_modulo_2_64
                   {| lines := ["histogram.0.2.to.0.4=18446744073709551612";
                                "histogram.0.0.to.0.1=1"; "histogram.0.1.to.0.2=2"];
                      scanErr := None |}
                   unboundHistogram _ _
                   [(f64 "0.4", 18446744073709551615); (f64 "0.1", 1); (f64 "0.2", 3)] _)
                (f64 "0.2") _).
  - vm_compute. left. reflexivity.
  - vm_compute. right. right. left. reflexivity.
Defined.

(** X11. The upper bounds of the histogram that a scrape sends: none is a
    NaN, no two are equal for [==], each one is the upper bound of a
    recognized bucket line of the stream, and the upper bound of every
    recognized bucket line is equal to one of them. *)
Theorem histogram_bounds_are_those_of_the_lines :
  forall (file : Reader) (d : Desc) (count : Z) (sum : float64) (buckets : bucketMap),
    In (ConstHistogram d count sum buckets) (fst (CollectFromReader file [])) ->
    no_nan (map_keys buckets) /\ distinct (map_keys buckets) /\
    (forall k, In k (map_keys buckets) ->
               exists b, In b (bucket_lines (lines file)) /\ upperBound b = k) /\
    (forall b, In b (bucket_lines (lines file)) ->
               exists k, In k (map_keys buckets) /\ feq k (upperBound b) = true).
Proof.
  intros file d count sum buckets Hin.
  destruct (sent_buckets _ _ _ _ _ Hin) as (_ & Hn & Hd & Hk).
  rewrite Hk. repeat split; auto.
  - intros k Hkin. unfold raw_buckets in Hkin.
    destruct (fold_set_keys_in _ _ _ Hkin) as [[] | H].
    apply in_map_iff in H. destruct H as (b & E & Hb). exists b. auto.
  - intros b Hb. apply (fold_set_keys_hit _ _ _ Hb).
    pose proof (bucket_lines_wf (lines file)) as Hwf. rewrite Forall_forall in Hwf.
    destruct (Hwf _ Hb) as (_ & Hu & _). apply (signed_not_nan _ _ Hu).
Qed.

(** Two lines that write the bound 0.1 in two ways leave one bucket. *)
Lemma histogram_bounds_are_those_of_the_lines_witness :
  distinct (map_keys [(f64 "0.10", 2)]) /\
  exists k, In k (map_keys [(f64 "0.10", 2)]) /\ feq k (f64 "0.1") = true.
Proof.
  pose proof (histogram_bounds_are_those_of_the_lines
                {| lines := ["histogram.0.0.to.0.1=1"; "histogram.0.0.to.0.10=2"];
                   scanErr := None |}
                unboundHistogram 3
                (fadd (fmul (fsub (f64 "0.1") (f64 "0.0")) (float64_of_uint64 1))
                      (fmul (fsub (f64 "0.10") (f64 "0.0")) (float64_of_uint64 2)))
                [(f64 "0.10", 2)]
                ltac:(vm_compute; left; reflexivity)) as (_ & Hd & _ & H).
  split; [exact Hd|].
  apply (H {| lowerBound := f64 "0.0"; upperBound := f64 "0.1"; observations := 1 |}).
  vm_compute. left. reflexivity.
Defined.

(** ** The descriptors *)

Lemma no_repeat_NoDup (l : list string) : no_repeat l = true -> NoDup l.
Proof.
  induction l as [|x l IH]; simpl; intros H; [constructor|].
  apply andb_prop in H. destruct H as [Hx Hl].
  constructor; [|apply IH; exact Hl].
  intros Hin. apply negb_true_iff in Hx.
  assert (E : existsb (String.eqb x) l = true).
  { apply existsb_exists. exists x. split; [exact Hin | apply String.eqb_refl]. }
  congruence.
Qed.

Lemma fold_send {A B : Type} (f : A -> B) (l : list A) (ch0 : list B) :
  fold_left (fun ch1 x => ch1 ++ [f x]) l ch0 = ch0 ++ map f l.
Proof.
  revert ch0. induction l as [|x l IH]; intros ch0; simpl.
  - rewrite app_nil_r. reflexivity.
  - rewrite IH, <- app_assoc. reflexivity.
Qed.

Lemma Describe_sends (ch0 : list Desc) :
  Describe ch0 = ch0 ++ unboundUpDesc :: map desc unboundMetrics.
Proof. unfold Describe. rewrite fold_send, <- app_assoc. reflexivity. Qed.

(** What a scrape sends is a sample of the catalog, a histogram or the
    reachability gauge. *)
Lemma Collect_kinds (conn : Socket) (m : Metric) :
  In m (Collect conn []) ->
  is_sample m \/
  (exists count sum buckets, m = ConstHistogram unboundHistogram count sum buckets) \/
  (exists v, m = up v).
Proof.
  unfold Collect.
  assert (Hup : forall (l : list Metric) v,
             (forall x, In x l ->
                        is_sample x \/
                        exists count sum buckets,
                          x = ConstHistogram unboundHistogram count sum buckets) ->
             In m (l ++ [MustNewConstMetric unboundUpDesc GaugeValue v []]) ->
             is_sample m \/
             (exists count sum buckets,
                 m = ConstHistogram unboundHistogram count sum buckets) \/
             (exists v, m = up v)).
  { intros l v Hl Hin. apply in_app_or in Hin. destruct Hin as [Hin | [<- | []]].
    - destruct (Hl _ Hin); auto.
    - right. right. exists v. reflexivity. }
  assert (Hr : forall file x,
             In x (fst (CollectFromReader file [])) ->
             is_sample x \/
             exists count sum buckets,
               x = ConstHistogram unboundHistogram count sum buckets).
  { intros file x. destruct (scan (lines file) (start [])) as [st [err|]] eqn:Hscan.
    - rewrite (CollectFromReader_error _ _ _ _ Hscan). simpl.
      destruct (scan_channel _ _ _ _ Hscan) as (new & -> & Hs). simpl.
      rewrite Forall_forall in Hs. auto.
    - rewrite (CollectFromReader_end _ _ _ Hscan). simpl.
      destruct (scan_channel _ _ _ _ Hscan) as (new & -> & Hs). simpl.
      rewrite Forall_forall in Hs. intros Hin. apply in_app_or in Hin.
      destruct Hin as [Hin | [<- | []]]; [auto|]. right. eauto. }
  destruct conn as [err | err | file]; simpl.
  - intros [<- | []]. right. right. exists fzero. reflexivity.
  - intros [<- | []]. right. right. exists fzero. reflexivity.
  - specialize (Hr file).
    destruct (CollectFromReader file []) as [l [err|]]; simpl in Hr; apply Hup; exact Hr.
Qed.

(** X12. The descriptors that [Describe] sends are the one of the
    reachability gauge and then those of the catalog, in its order. Their
    names, and the name of the histogram with them, are pairwise different.
    Every sample and every gauge that [Collect] sends carries a descriptor
    that [Describe] sends. The histogram that [Collect] sends carries the
    descriptor [unboundHistogram], which [Describe] does not send. *)
Theorem describe_sends_all_but_the_histogram :
  (forall ch0, Describe ch0 = ch0 ++ unboundUpDesc :: map desc unboundMetrics) /\
  NoDup (map fqName (unboundHistogram :: Describe [])) /\
  (forall conn d valueType v labelValues,
      In (ConstMetric d valueType v labelValues) (Collect conn []) ->
      In d (Describe [])) /\
  (forall conn d count sum buckets,
      In (ConstHistogram d count sum buckets) (Collect conn []) ->
      d = unboundHistogram /\ ~ In d (Describe [])).
Proof.
  assert (Hnd : NoDup (map fqName (unboundHistogram :: Describe [])))
    by (apply no_repeat_NoDup; vm_compute; reflexivity).
  split; [exact Describe_sends|]. split; [exact Hnd|]. split.
  - intros conn d vt v l Hin. rewrite Describe_sends. apply in_or_app. right.
    destruct (Collect_kinds _ _ Hin) as [(metric & v' & l' & Hm & E) | [(c & s & b & E) | [v' E]]].
    + right. inversion E; subst. apply in_map. exact Hm.
    + discriminate E.
    + left. inversion E; subst. reflexivity.
  - intros conn d count sum buckets Hin.
    destruct (Collect_kinds _ _ Hin) as [(metric & v' & l' & Hm & E) | [(c & s & b & E) | [v' E]]];
      try discriminate E.
    inversion E; subst. split; [reflexivity|].
    intros Hd.
    destruct (proj1 (NoDup_cons_iff (fqName unboundHistogram) (map fqName (Describe [])))
                Hnd) as [Hnot _].
    exact (Hnot (in_map fqName _ _ Hd)).
Qed.

Lemma describe_sends_all_but_the_histogram_witness :
  In (NewDesc "unbound_query_tcp_total"
        "Total number of queries that were made using TCP towards the Unbound server." [])
     (Describe []) /\
  ~ In unboundHistogram (Describe []).
Proof.
  destruct describe_sends_all_but_the_histogram as (_ & _ & Hs & Hh). split.
  - apply (Hs (Connected {| lines := ["num.query.tcp=42"]; scanErr := None |})
              _ CounterValue (f64 "42") []).
    vm_compute. left. reflexivity.
  - apply (Hh (Connected {| lines := []; scanErr := None |}) unboundHistogram 0 fzero []).
    vm_compute. left. reflexivity.
Defined.
